(** * Persistence core of the novel reader: storage, validation, debounce

    A shallow embedding of [src/services/StorageService.ts] (the slices,
    bookmarks, scroll tracking, export, import, clearing and the session),
    [src/utils/ErrorHandler.ts], the panel operations, setters and key
    handler of [src/hooks/useUIState.ts], [getBookmarksForChapter] of
    [src/hooks/useSessionTracking.ts], the storage effects of
    [src/hooks/useScrollTracking.ts], and the navigation handlers and the
    restore effect of the application component, followed by the properties
    of the specification that concern them and by further properties of the
    code.

    The program is dynamically typed where it matters (the validators take
    [any], the storage holds whatever text was put there), so values are
    JavaScript values, and the operations of the storage service are
    functions on a machine state: the local storage, the module-level
    default objects, the pending timeouts, the clock, the log of errors.

    Platform code is not part of the repository and is modelled at the level
    the program observes it:
    - a stored text is represented by what [JSON.parse] makes of it: either the
      document it denotes or a raw string that the parser rejects;
    - [JSON.stringify] maps a value to its document, with the normalisations
      of the standard (properties holding [undefined] are skipped,
      [undefined] array elements and non-finite numbers become [null]);
    - finite numbers are integers (indices, pixel offsets, seconds, counts);
      [NaN] and the infinities are kept, because [typeof] calls them numbers;
      an addition rounds to the nearest double, and the conversion of a
      string to a number is a variable of the section that compares with it;
    - the clock is a millisecond counter, shared by [Date] and the timers;
      timeouts fire in the order in which they fall due;
    - [localStorage.setItem] either accepts every write or, when the quota is
      exhausted, refuses every write;
    - [Math.random] is an argument of the operations that draw from it;
    - the console, and the listeners registered with the error handler, only
      observe and are left out.

    A trace of writes, attempts and sleeps is kept in the machine for the
    statements that count them. *)

From Stdlib Require Import ZArith Lia ssreflect.
From stdpp Require Import base option list strings pretty gmap.

Set Warnings "-register-all,-rewrite-rw".

Local Open Scope string_scope.
Local Open Scope list_scope.
Local Open Scope Z_scope.

(** ** JavaScript values *)

Module Js.

Inductive num :=
| Fin (z : Z)
| NaN
| PosInf
| NegInf.

Inductive value :=
| VUndefined
| VNull
| VBool (b : bool)
| VNum (n : num)
| VStr (s : string)
| VArr (elems : list value)
| VObj (props : list (string * value)).

Inductive jstype := TUndefined | TObject | TBoolean | TNumber | TString.

Definition typeof (v : value) : jstype :=
  match v with
  | VUndefined => TUndefined
  | VNull | VArr _ | VObj _ => TObject
  | VBool _ => TBoolean
  | VNum _ => TNumber
  | VStr _ => TString
  end.

Definition jstype_eqb (a b : jstype) : bool :=
  match a, b with
  | TUndefined, TUndefined | TObject, TObject | TBoolean, TBoolean
  | TNumber, TNumber | TString, TString => true
  | _, _ => false
  end.

(** ToBoolean *)
Definition truthy (v : value) : bool :=
  match v with
  | VUndefined | VNull => false
  | VBool b => b
  | VNum (Fin z) => negb (z =? 0)
  | VNum NaN => false
  | VNum _ => true
  | VStr s => negb (String.eqb s EmptyString)
  | VArr _ | VObj _ => true
  end.

(** [n >= 0] *)
Definition num_ge0 (n : num) : bool :=
  match n with
  | Fin z => 0 <=? z
  | PosInf => true
  | NaN | NegInf => false
  end.

(** [a === b] on numbers: [NaN] equals nothing *)
Definition num_strict_eq (a b : num) : bool :=
  match a, b with
  | Fin x, Fin y => x =? y
  | PosInf, PosInf | NegInf, NegInf => true
  | _, _ => false
  end.

(** ToString of a number, the key under which [o[n]] is stored *)
Definition num_key (n : num) : string :=
  match n with
  | Fin z => pretty z
  | NaN => "NaN"
  | PosInf => "Infinity"
  | NegInf => "-Infinity"
  end.

(** Objects keep their properties in insertion order, one entry per key. *)
Fixpoint lookup_prop {A} (k : string) (ps : list (string * A)) : option A :=
  match ps with
  | [] => None
  | (k', x) :: rest => if String.eqb k k' then Some x else lookup_prop k rest
  end.

Fixpoint set_prop {A} (k : string) (x : A) (ps : list (string * A))
  : list (string * A) :=
  match ps with
  | [] => [(k, x)]
  | (k', y) :: rest =>
      if String.eqb k k' then (k, x) :: rest else (k', y) :: set_prop k x rest
  end.

Definition has_prop {A} (k : string) (ps : list (string * A)) : bool :=
  match lookup_prop k ps with Some _ => true | None => false end.

(** The own enumerable properties copied by a spread [{...v}] *)
Definition own_props (v : value) : list (string * value) :=
  match v with
  | VObj ps => ps
  | VArr l => imap (fun i x => (pretty (Z.of_nat i), x)) l
  | VStr s =>
      imap (fun i c => (pretty (Z.of_nat i), VStr (String c EmptyString)))
           (String.list_ascii_of_string s)
  | _ => []
  end.

(** [{...a, ...b}] on property lists *)
Definition spread (a b : list (string * value)) : list (string * value) :=
  fold_left (fun acc kv => set_prop kv.1 kv.2 acc) b a.

(** [v.name] for a fixed property name, on a value that is not nullish.
    Arrays and strings answer [length]; the names the program reads are
    never indices. *)
Definition get_field (v : value) (name : string) : value :=
  match v with
  | VObj ps => default VUndefined (lookup_prop name ps)
  | VArr l =>
      if String.eqb name "length" then VNum (Fin (Z.of_nat (length l)))
      else VUndefined
  | VStr s =>
      if String.eqb name "length" then VNum (Fin (Z.of_nat (String.length s)))
      else VUndefined
  | _ => VUndefined
  end.

Definition is_nullish (v : value) : bool :=
  match v with VUndefined | VNull => true | _ => false end.

(** An array index in the sense of the language: an integer in
    [0, 2^32 - 2]. *)
Definition array_index (n : num) : option nat :=
  match n with
  | Fin z => if (0 <=? z) && (z <? 4294967295) then Some (Z.to_nat z) else None
  | _ => None
  end.

(** [v[n]] for a computed numeric key, on a value that is not nullish *)
Definition get_index (v : value) (n : num) : value :=
  match v with
  | VObj ps => default VUndefined (lookup_prop (num_key n) ps)
  | VArr l =>
      match array_index n with
      | Some i => default VUndefined (l !! i)
      | None => VUndefined
      end
  | VStr s =>
      match array_index n with
      | Some i =>
          match String.list_ascii_of_string s !! i with
          | Some c => VStr (String c EmptyString)
          | None => VUndefined
          end
      | None => VUndefined
      end
  | _ => VUndefined
  end.

(** [v[n] = x] on an object or an array. Writing past the end of an array
    pads it with holes, which read as [undefined]; a key that is not an
    index becomes a named property of the array, which neither
    [JSON.stringify] nor the array methods see, so the elements are left
    as they are. Primitives are rejected by the caller (strict mode). *)
Definition set_index (v : value) (n : num) (x : value) : value :=
  match v with
  | VObj ps => VObj (set_prop (num_key n) x ps)
  | VArr l =>
      match array_index n with
      | Some i =>
          if (i <? length l)%nat then VArr (<[i:=x]> l)
          else VArr (l ++ replicate (i - length l) VUndefined ++ [x])
      | None => VArr l
      end
  | _ => v
  end.

Definition is_container (v : value) : bool :=
  match v with VArr _ | VObj _ => true | _ => false end.

Definition is_array (v : value) : bool :=
  match v with VArr _ => true | _ => false end.

(** [xs.includes(v)] for a list of string constants *)
Definition includes (xs : list string) (v : value) : bool :=
  match v with
  | VStr s => existsb (String.eqb s) xs
  | _ => false
  end.

(** *** The JSON codec *)

(** What [JSON.parse (JSON.stringify v)] yields for a value inside a
    document. *)
Fixpoint to_json (v : value) : value :=
  match v with
  | VUndefined => VNull
  | VNum (Fin z) => VNum (Fin z)
  | VNum _ => VNull
  | VArr l => VArr (map to_json l)
  | VObj ps =>
      VObj ((fix props_to_json (ps : list (string * value)) :=
               match ps with
               | [] => []
               | (k, VUndefined) :: rest => props_to_json rest
               | (k, x) :: rest => (k, to_json x) :: props_to_json rest
               end) ps)
  | _ => v
  end.

(** The contents of a key of the local storage *)
Inductive text :=
| Malformed (raw : string)
| Json (doc : value).

Definition JSON_parse (t : text) : option value :=
  match t with
  | Malformed _ => None
  | Json doc => Some doc
  end.

(** [JSON.stringify] answers [undefined] for [undefined]. *)
Definition JSON_stringify (v : value) : option text :=
  match v with
  | VUndefined => None
  | _ => Some (Json (to_json v))
  end.

(** [!item] for a stored text: only the empty string is falsy. *)
Definition text_falsy (t : text) : bool :=
  match t with
  | Malformed raw => String.eqb raw EmptyString
  | Json _ => false
  end.

(** A value that the codec returns unchanged *)
Fixpoint json_clean (v : value) : bool :=
  match v with
  | VUndefined => false
  | VNum (Fin _) => true
  | VNum _ => false
  | VArr l => forallb json_clean l
  | VObj ps =>
      (fix props_clean (ps : list (string * value)) :=
         match ps with
         | [] => true
         | (_, x) :: rest => json_clean x && props_clean rest
         end) ps
  | _ => true
  end.

(** *** Conversions and arithmetic *)

(** ToString, [None] standing for the TypeError of a value without a
    primitive rendering. An array joins its elements with commas, [null]
    and [undefined] counting as empty. An object of the model is a plain
    object and answers [[object Object]], unless an own property shadows
    [toString]: no value of a document is a function, so the conversion
    fails. *)
Fixpoint to_string (v : value) : option string :=
  match v with
  | VUndefined => Some "undefined"
  | VNull => Some "null"
  | VBool b => Some (if b then "true" else "false")
  | VNum n => Some (num_key n)
  | VStr s => Some s
  | VArr l =>
      (fix join (l : list value) : option string :=
         match l with
         | [] => Some EmptyString
         | x :: rest =>
             let elem :=
               match x with
               | VUndefined | VNull => Some EmptyString
               | _ => to_string x
               end in
             match rest with
             | [] => elem
             | _ =>
                 match elem, join rest with
                 | Some s, Some r => Some (s +:+ "," +:+ r)
                 | _, _ => None
                 end
             end
         end) l
  | VObj ps => if has_prop "toString" ps then None else Some "[object Object]"
  end.

(** The double nearest to an integer, ties to even: integers below [2^53]
    in magnitude are exact, larger ones keep 53 significant bits, and what
    rounds to [2^1024] or beyond is infinite. *)
Definition round_double (x : Z) : num :=
  let a := Z.abs x in
  if a <? 2 ^ 53 then Fin x
  else
    let e := Z.log2 a - 52 in
    let q := Z.shiftr a e in
    let r := a - Z.shiftl q e in
    let half := Z.shiftl 1 (e - 1) in
    let q' :=
      if r <? half then q
      else if half <? r then q + 1
      else if Z.even q then q else q + 1 in
    let m := Z.shiftl q' e in
    if 2 ^ 1024 <=? m then (if x <? 0 then NegInf else PosInf)
    else Fin (Z.sgn x * m).

(** [v + k] for an integer literal [k]: a string, or a value whose
    primitive is a string, is concatenated with the digits of [k]; anything
    else is added as a number. *)
Definition plus (v : value) (k : Z) : option value :=
  match v with
  | VUndefined => Some (VNum NaN)
  | VNull => Some (VNum (Fin k))
  | VBool b => Some (VNum (Fin ((if b then 1 else 0) + k)))
  | VNum (Fin z) => Some (VNum (round_double (z + k)))
  | VNum n => Some (VNum n)
  | VStr s => Some (VStr (s +:+ pretty k))
  | VArr _ | VObj _ =>
      match to_string v with
      | Some s => Some (VStr (s +:+ pretty k))
      | None => None
      end
  end.

Section Platform.
(** The numeric value of a string (StringToNumber) is left to the platform. *)
Variable StringToNumber : string -> num.

(** ToNumber, [None] standing for the TypeError of [to_string] *)
Definition ToNumber (v : value) : option num :=
  match v with
  | VUndefined => Some NaN
  | VNull => Some (Fin 0)
  | VBool b => Some (Fin (if b then 1 else 0))
  | VNum n => Some n
  | VStr s => Some (StringToNumber s)
  | VArr _ | VObj _ => StringToNumber <$> to_string v
  end.

(** [v > 0] *)
Definition greater_than_zero (v : value) : option bool :=
  (fun n => match n with
            | Fin z => 0 <? z
            | PosInf => true
            | NaN | NegInf => false
            end) <$> ToNumber v.

(** [v >= 0 && v < k] for an integer [k] *)
Definition within (v : value) (k : Z) : option bool :=
  (fun n => num_ge0 n
            && match n with
               | Fin z => z <? k
               | NegInf => true
               | NaN | PosInf => false
               end) <$> ToNumber v.
End Platform.

(** SameValueZero on numbers: [NaN] equals itself *)
Definition same_value_zero (a b : num) : bool :=
  match a, b with
  | NaN, NaN => true
  | _, _ => num_strict_eq a b
  end.

(** [l.includes(n)] on an array, for a number [n] *)
Definition array_includes (l : list value) (n : num) : bool :=
  existsb (fun e => match e with VNum m => same_value_zero m n | _ => false end) l.

(** [s.includes(sub)] on a string *)
Fixpoint string_includes (sub s : string) : bool :=
  String.prefix sub s
  || match s with
     | EmptyString => false
     | String _ s' => string_includes sub s'
     end.

End Js.

(** ** The machine: local storage, module-level objects, timers, clock *)

Module Machine.
Import Js.

(** The four persisted slices *)
Inductive slice := Preferences | ReadingState | UIState | SessionData.

Definition slice_eqb (a b : slice) : bool :=
  match a, b with
  | Preferences, Preferences | ReadingState, ReadingState
  | UIState, UIState | SessionData, SessionData => true
  | _, _ => false
  end.

(** A reference to an object. The module-level default objects
    ([defaultPreferences], [defaultReadingState], [defaultUIState],
    [defaultSessionData]) live as long as the page and are handed out by
    reference, so they are part of the machine. Every other object is
    created by the operation that uses it (a parse result, an object
    literal, a spread copy) and is carried by value; a spread copy shares
    the nested objects it copied from a default object, and [borrowed]
    lists those fields: their content is read from, and written to, the
    default object. *)
Inductive ref :=
| Global (s : slice)
| Local (v : value) (borrowed : list (slice * string)).

Inductive exn :=
| DOMException (code : Z) (name : string)
| TypeError (message : string)
| Error (message : string).

Inductive completion (A : Type) :=
| Normal (a : A)
| Throw (e : exn).
Arguments Normal {A} a.
Arguments Throw {A} e.

Inductive ErrorCode :=
| STORAGE_NOT_AVAILABLE
| QUOTA_EXCEEDED
| DATA_CORRUPTION
| VALIDATION_FAILED
| SERIALIZATION_ERROR
| DESERIALIZATION_ERROR
| MIGRATION_FAILED
| NETWORK_ERROR
| UNKNOWN_ERROR.

Record ErrorContext := {
  operation : string;
  data : value;
  timestamp : string;
  userAgent : string;
  url : string
}.

Record StorageError := {
  message : string;
  code : ErrorCode;
  context : ErrorContext;
  recoverable : bool
}.

(** A pending [setTimeout]. The only callbacks the storage service
    schedules are those of [debouncedSave], which hold the key and a
    reference to the data. *)
Record timeout := {
  tid : positive;
  due : Z;
  tkey : string;
  tdata : ref
}.

(** Observable actions, recorded for the statements about them *)
Inductive event :=
| EvSetItem (time : Z) (key : string) (item : text)
| EvAttempt (operationName : string) (attempt : nat)
| EvSleep (ms : Z).

Record machine := {
  localStorage : gmap string text;
  quotaExceeded : bool;        (* [setItem] raises QuotaExceededError *)
  navigator_userAgent : string;
  location_href : string;
  clock : Z;
  errorLog : list StorageError;
  debounceTimers : gmap string positive;
  timeouts : list timeout;
  nextTimer : positive;
  defaults : slice -> list (string * value);
  trace : list event
}.

Definition with_localStorage (m : gmap string text) (σ : machine) : machine :=
  {| localStorage := m; quotaExceeded := quotaExceeded σ;
     navigator_userAgent := navigator_userAgent σ;
     location_href := location_href σ; clock := clock σ;
     errorLog := errorLog σ; debounceTimers := debounceTimers σ;
     timeouts := timeouts σ; nextTimer := nextTimer σ;
     defaults := defaults σ; trace := trace σ |}.

Definition with_clock (t : Z) (σ : machine) : machine :=
  {| localStorage := localStorage σ; quotaExceeded := quotaExceeded σ;
     navigator_userAgent := navigator_userAgent σ;
     location_href := location_href σ; clock := t;
     errorLog := errorLog σ; debounceTimers := debounceTimers σ;
     timeouts := timeouts σ; nextTimer := nextTimer σ;
     defaults := defaults σ; trace := trace σ |}.

Definition with_errorLog (l : list StorageError) (σ : machine) : machine :=
  {| localStorage := localStorage σ; quotaExceeded := quotaExceeded σ;
     navigator_userAgent := navigator_userAgent σ;
     location_href := location_href σ; clock := clock σ;
     errorLog := l; debounceTimers := debounceTimers σ;
     timeouts := timeouts σ; nextTimer := nextTimer σ;
     defaults := defaults σ; trace := trace σ |}.

Definition with_timers (d : gmap string positive) (ts : list timeout)
    (next : positive) (σ : machine) : machine :=
  {| localStorage := localStorage σ; quotaExceeded := quotaExceeded σ;
     navigator_userAgent := navigator_userAgent σ;
     location_href := location_href σ; clock := clock σ;
     errorLog := errorLog σ; debounceTimers := d;
     timeouts := ts; nextTimer := next;
     defaults := defaults σ; trace := trace σ |}.

Definition with_defaults (h : slice -> list (string * value)) (σ : machine)
  : machine :=
  {| localStorage := localStorage σ; quotaExceeded := quotaExceeded σ;
     navigator_userAgent := navigator_userAgent σ;
     location_href := location_href σ; clock := clock σ;
     errorLog := errorLog σ; debounceTimers := debounceTimers σ;
     timeouts := timeouts σ; nextTimer := nextTimer σ;
     defaults := h; trace := trace σ |}.

Definition with_trace (tr : list event) (σ : machine) : machine :=
  {| localStorage := localStorage σ; quotaExceeded := quotaExceeded σ;
     navigator_userAgent := navigator_userAgent σ;
     location_href := location_href σ; clock := clock σ;
     errorLog := errorLog σ; debounceTimers := debounceTimers σ;
     timeouts := timeouts σ; nextTimer := nextTimer σ;
     defaults := defaults σ; trace := tr |}.

(** [new Date().toISOString()]: the rendering of the current instant. Only
    the fact that it is a function of the clock matters. *)
Definition toISOString (t : Z) : string := pretty t.

(** *** Reading and writing through references *)

Definition with_field (f : string) (x : value) (v : value) : value :=
  match v with
  | VObj ps => VObj (set_prop f x ps)
  | _ => v
  end.

Definition deref (heap : slice -> list (string * value)) (r : ref) : value :=
  match r with
  | Global s => VObj (heap s)
  | Local v bs =>
      foldr (fun b acc => with_field b.2 (get_field (VObj (heap b.1)) b.2) acc)
            v bs
  end.

Definition update_default (s : slice) (ps : list (string * value))
    (heap : slice -> list (string * value)) : slice -> list (string * value) :=
  fun s' => if slice_eqb s s' then ps else heap s'.

(** The fields of the object behind [r] that point into a default object *)
Definition pointers (heap : slice -> list (string * value)) (r : ref)
  : list (slice * string) :=
  match r with
  | Global s =>
      omap (fun kv =>
              if is_container (get_field (VObj (heap s)) kv.1)
              then Some (s, kv.1) else None)
           (heap s)
  | Local _ bs => bs
  end.

Definition owner (f : string) (bs : list (slice * string)) : option slice :=
  fst <$> find (fun b => String.eqb b.2 f) bs.

(** [r.f = x] *)
Definition assign (r : ref) (f : string) (x : value) (σ : machine)
  : ref * machine :=
  match r with
  | Global s =>
      (r, with_defaults (update_default s (set_prop f x (defaults σ s))
                                        (defaults σ)) σ)
  | Local v bs =>
      (Local (with_field f x v)
             (filter (fun b => negb (String.eqb b.2 f)) bs), σ)
  end.

(** An update in place of the object held in field [f] of [r]
    ([r.f.push(x)], [r.f[k] = x]) *)
Definition modify_field (r : ref) (f : string) (g : value -> value)
    (σ : machine) : ref * machine :=
  let through s :=
    with_defaults
      (update_default s
         (set_prop f (g (get_field (VObj (defaults σ s)) f)) (defaults σ s))
         (defaults σ)) σ in
  match r with
  | Global s => (r, through s)
  | Local v bs =>
      match owner f bs with
      | Some s => (r, through s)
      | None => (Local (with_field f (g (get_field v f)) v) bs, σ)
      end
  end.

(** *** The local storage *)

Definition getItem (key : string) (σ : machine) : option text :=
  localStorage σ !! key.

Definition setItem (key : string) (item : text) (σ : machine)
  : completion unit * machine :=
  if quotaExceeded σ then
    (Throw (DOMException 22 "QuotaExceededError"), σ)
  else
    (Normal (),
     with_trace (trace σ ++ [EvSetItem (clock σ) key item])
                (with_localStorage (<[key := item]> (localStorage σ)) σ)).

Definition removeItem (key : string) (σ : machine) : machine :=
  with_localStorage (delete key (localStorage σ)) σ.

End Machine.

(** ** src/utils/ErrorHandler.ts *)

Module StorageErrorHandler.
Import Js Machine.

Definition ErrorCodes (c : ErrorCode) : string :=
  match c with
  | STORAGE_NOT_AVAILABLE => "STORAGE_NOT_AVAILABLE"
  | QUOTA_EXCEEDED => "QUOTA_EXCEEDED"
  | DATA_CORRUPTION => "DATA_CORRUPTION"
  | VALIDATION_FAILED => "VALIDATION_FAILED"
  | SERIALIZATION_ERROR => "SERIALIZATION_ERROR"
  | DESERIALIZATION_ERROR => "DESERIALIZATION_ERROR"
  | MIGRATION_FAILED => "MIGRATION_FAILED"
  | NETWORK_ERROR => "NETWORK_ERROR"
  | UNKNOWN_ERROR => "UNKNOWN_ERROR"
  end.

Definition maxLogSize : nat := 50.

Definition critical_errors_key : string := "novel-critical-errors".

Definition isRecoverable (c : ErrorCode) : bool :=
  match c with
  | QUOTA_EXCEEDED | NETWORK_ERROR
  | SERIALIZATION_ERROR | DESERIALIZATION_ERROR => true
  | _ => false
  end.

(** The record pushed on the stored list of critical errors *)
Definition critical_entry (error : StorageError) : value :=
  VObj [("code", VStr (ErrorCodes (code error)));
        ("message", VStr (message error));
        ("context",
          VObj [("operation", VStr (operation (context error)));
                ("data", data (context error));
                ("timestamp", VStr (timestamp (context error)));
                ("userAgent", VStr (userAgent (context error)));
                ("url", VStr (url (context error)))])].

(** [storeCriticalError]: everything happens inside one [try]; a stored
    text that does not parse, a parsed value without [push], or a refused
    write leave the storage as it was. *)
Definition storeCriticalError (error : StorageError) (σ : machine) : machine :=
  let parsed :=
    match getItem critical_errors_key σ with
    | None => Some (VArr [])
    | Some item => if text_falsy item then Some (VArr []) else JSON_parse item
    end in
  match parsed with
  | Some (VArr criticalErrors) =>
      let pushed := criticalErrors ++ [critical_entry error] in
      let kept := if (10 <? length pushed)%nat then tail pushed else pushed in
      match JSON_stringify (VArr kept) with
      | Some item => snd (setItem critical_errors_key item σ)
      | None => σ
      end
  | _ => σ
  end.

(** [logError]. The listeners are observers (the application registers one
    that prints the error); they are not modelled. *)
Definition logError (error : StorageError) (σ : machine) : machine :=
  let pushed := errorLog σ ++ [error] in
  let kept := if (maxLogSize <? length pushed)%nat then tail pushed else pushed in
  let σ1 := with_errorLog kept σ in
  if recoverable error then σ1 else storeCriticalError error σ1.

Definition createError (c : ErrorCode) (msg : string) (op : string)
    (d : value) (σ : machine) : StorageError * machine :=
  let error :=
    {| message := msg;
       code := c;
       context := {| operation := op; data := d;
                     timestamp := toISOString (clock σ);
                     userAgent := navigator_userAgent σ;
                     url := location_href σ |};
       recoverable := isRecoverable c |} in
  (error, logError error σ).

(** [validateStorageData]. The validators of the storage service are
    total, so the [catch] branch is never taken. *)
Definition validateStorageData (key : string) (d : value)
    (validator : value -> bool) (σ : machine) : bool * machine :=
  let isValid := validator d in
  if isValid then (true, σ)
  else
    (false,
     snd (createError VALIDATION_FAILED
            ("Data validation failed for key: " +:+ key)
            "validateStorageData" d σ)).

Definition raw_of (json : text) : string :=
  match json with
  | Malformed raw => raw
  | Json _ => EmptyString
  end.

(** [safeJSONParse json fallback]: [of_doc] injects a parsed document into
    the result type of the caller. *)
Definition safeJSONParse {A} (json : text) (fallback : A)
    (of_doc : value -> A) (σ : machine) : A * machine :=
  match JSON_parse json with
  | Some doc => (of_doc doc, σ)
  | None =>
      (fallback,
       snd (createError DESERIALIZATION_ERROR "Failed to parse JSON data"
              "safeJSONParse"
              (VObj [("json", VStr (String.substring 0 100 (raw_of json) +:+ "..."))])
              σ))
  end.

(** [safeJSONStringify]: the values of the model have no cycles, so
    [JSON.stringify] does not throw; it answers nothing for [undefined]. *)
Definition safeJSONStringify (d : value) : option text :=
  JSON_stringify d.

(** [v > 5] for the value found under [length]. Numbers compare as they
    are, [null] and booleans count as 0 or 1, a string of decimal digits as
    the number it spells. Other strings and nested objects go through
    ToPrimitive and the full numeric grammar, which is not modelled: they
    are taken as not a number. *)
Definition digits_value (s : string) : option Z :=
  foldl (fun acc c =>
           match acc with
           | Some n =>
               let d := Z.of_N (Ascii.N_of_ascii c) - 48 in
               if (0 <=? d) && (d <=? 9) then Some (10 * n + d) else None
           | None => None
           end)
        (if String.eqb s EmptyString then None else Some 0)
        (String.list_ascii_of_string s).

Definition exceeds5 (v : value) : bool :=
  match v with
  | VNum (Fin z) => 5 <? z
  | VNum PosInf => true
  | VStr s => match digits_value s with Some z => 5 <? z | None => false end
  | _ => false
  end.

(** [freeUpStorage]: trims the stored critical errors to the last five and
    removes the keys that start with [temp-] or [cache-]; any exception
    ends the clean-up. *)
Definition freeUpStorage (σ : machine) : machine :=
  let parsed :=
    match getItem critical_errors_key σ with
    | None => Some (VArr [])
    | Some item => if text_falsy item then Some (VArr []) else JSON_parse item
    end in
  let sweep (σ : machine) :=
    with_localStorage
      (filter (fun kv => negb (String.prefix "temp-" kv.1
                               || String.prefix "cache-" kv.1))
              (localStorage σ)) σ in
  match parsed with
  | None | Some VUndefined | Some VNull => σ
  | Some (VArr criticalErrors) =>
      if (5 <? length criticalErrors)%nat then
        let trimmed := drop (length criticalErrors - 5) criticalErrors in
        match JSON_stringify (VArr trimmed) with
        | Some item =>
            match setItem critical_errors_key item σ with
            | (Normal _, σ1) => sweep σ1
            | (Throw _, σ1) => σ1
            end
        | None => sweep σ
        end
      else sweep σ
  | Some (VStr s) =>
      if (5 <? String.length s)%nat then
        let trimmed := String.substring (String.length s - 5) 5 s in
        match setItem critical_errors_key (Json (VStr trimmed)) σ with
        | (Normal _, σ1) => sweep σ1
        | (Throw _, σ1) => σ1
        end
      else sweep σ
  | Some (VObj ps) =>
      (* an object has no [slice]: a large [length] ends in a TypeError *)
      if exceeds5 (get_field (VObj ps) "length") then σ else sweep σ
  | Some (VBool _) | Some (VNum _) => sweep σ
  end.

End StorageErrorHandler.

(** ** src/services/StorageService.ts *)

Module ValidationService.
Import Js.

(** The guard [!data || typeof data !== 'object'] passes for objects and
    arrays only. *)
Definition is_object (d : value) : bool :=
  truthy d && jstype_eqb (typeof d) TObject.

Definition is_number (v : value) : bool := jstype_eqb (typeof v) TNumber.
Definition is_string (v : value) : bool := jstype_eqb (typeof v) TString.
Definition is_boolean (v : value) : bool := jstype_eqb (typeof v) TBoolean.

(** [v >= 0], asked after [typeof v === 'number'] *)
Definition ge0 (v : value) : bool :=
  match v with VNum n => num_ge0 n | _ => false end.

Definition validThemes := ["system"; "light"; "dark"].
Definition validFonts :=
  ["system"; "myanmarsanpya"; "myanmartagu"; "masterpiecestadium"; "pyidaungsu"].
Definition validFontSizes := ["small"; "medium"; "large"].
Definition validLineHeights := ["compact"; "normal"; "relaxed"].
Definition validTextAligns := ["left"; "center"; "justify"].
Definition validPageWidths := ["narrow"; "normal"; "wide"].
Definition validNavPrefs := ["buttons"; "keyboard"; "swipe"].

Definition validatePreferences (d : value) : bool :=
  if negb (is_object d) then false
  else
    includes validThemes (get_field d "theme")
    && includes validFonts (get_field d "font")
    && includes validFontSizes (get_field d "fontSize")
    && includes validLineHeights (get_field d "lineHeight")
    && includes validTextAligns (get_field d "textAlign")
    && includes validPageWidths (get_field d "pageWidth").

Definition validateReadingState (d : value) : bool :=
  if negb (is_object d) then false
  else
    is_number (get_field d "currentChapterIndex")
    && ge0 (get_field d "currentChapterIndex")
    && is_number (get_field d "scrollPosition")
    && ge0 (get_field d "scrollPosition")
    && is_string (get_field d "lastReadTime")
    && jstype_eqb (typeof (get_field d "readingProgress")) TObject
    && is_number (get_field d "totalReadingTime")
    && is_string (get_field d "sessionStartTime").

(** [validPanels.includes(v)] with [validPanels = ['toc', 'settings', null]] *)
Definition validPanel (v : value) : bool :=
  match v with
  | VNull => true
  | _ => includes ["toc"; "settings"] v
  end.

Definition validateUIState (d : value) : bool :=
  if negb (is_object d) then false
  else
    is_boolean (get_field d "showTOC")
    && is_boolean (get_field d "showSettings")
    && validPanel (get_field d "lastActivePanel")
    && is_number (get_field d "contentAreaWidth")
    && includes validNavPrefs (get_field d "navigationPreference")
    && is_number (get_field d "panelAnimationDuration").

Definition validateSessionData (d : value) : bool :=
  if negb (is_object d) then false
  else
    is_string (get_field d "sessionId")
    && is_string (get_field d "lastVisitTime")
    && is_number (get_field d "totalReadingTime")
    && is_array (get_field d "chaptersRead")
    && is_array (get_field d "bookmarkPositions")
    && is_number (get_field d "visitCount")
    && is_number (get_field d "averageReadingSpeed").

Import Machine.

(** [sanitizeData data defaultValue]: the spread copy
    [{ ...defaultValue, ...data }], or the default object itself. A field
    of the copy shares a nested object of a default object when it was
    copied from one. *)
Definition sanitizeData (d defaultValue : ref) (σ : machine) : ref :=
  let dv := deref (defaults σ) d in
  if is_object dv then
    let mine := own_props dv in
    Local (VObj (spread (own_props (deref (defaults σ) defaultValue)) mine))
          (pointers (defaults σ) d
           ++ filter (fun b => negb (has_prop b.2 mine))
                     (pointers (defaults σ) defaultValue))
  else defaultValue.

End ValidationService.

Module StorageService.
Import Js Machine StorageErrorHandler ValidationService.

Definition VERSION : string := "1.0.0".

Definition STORAGE_KEYS (s : slice) : string :=
  match s with
  | Preferences => "novel-preferences"
  | ReadingState => "novel-reading-state"
  | UIState => "novel-ui-state"
  | SessionData => "novel-session-data"
  end.

Definition generateSessionId (now : Z) (random : string) : string :=
  "session_" +:+ pretty now +:+ "_" +:+ random.

Definition generateBookmarkId (now : Z) (random : string) : string :=
  "bookmark_" +:+ pretty now +:+ "_" +:+ random.

Definition defaultPreferences : list (string * value) :=
  [("theme", VStr "system"); ("font", VStr "system");
   ("fontSize", VStr "medium"); ("lineHeight", VStr "normal");
   ("textAlign", VStr "left"); ("pageWidth", VStr "normal")].

Definition defaultReadingState (loaded : Z) : list (string * value) :=
  [("currentChapterIndex", VNum (Fin 0)); ("scrollPosition", VNum (Fin 0));
   ("lastReadTime", VStr (toISOString loaded)); ("readingProgress", VObj []);
   ("totalReadingTime", VNum (Fin 0));
   ("sessionStartTime", VStr (toISOString loaded))].

Definition defaultUIState : list (string * value) :=
  [("showTOC", VBool false); ("showSettings", VBool false);
   ("lastActivePanel", VNull); ("contentAreaWidth", VNum (Fin 800));
   ("navigationPreference", VStr "buttons");
   ("panelAnimationDuration", VNum (Fin 300))].

Definition defaultSessionData (loaded : Z) (random : string)
  : list (string * value) :=
  [("sessionId", VStr (generateSessionId loaded random));
   ("lastVisitTime", VStr (toISOString loaded));
   ("totalReadingTime", VNum (Fin 0)); ("chaptersRead", VArr []);
   ("bookmarkPositions", VArr []); ("visitCount", VNum (Fin 1));
   ("averageReadingSpeed", VNum (Fin 0))].

(** The page right after the module has been loaded at instant [loaded],
    [random] being the suffix drawn for the session identifier. *)
Definition boot (loaded : Z) (random : string) (stored : gmap string text)
  : machine :=
  {| localStorage := stored; quotaExceeded := false;
     navigator_userAgent := "agent"; location_href := "/";
     clock := loaded; errorLog := []; debounceTimers := ∅; timeouts := [];
     nextTimer := 1%positive;
     defaults := fun s =>
       match s with
       | Preferences => defaultPreferences
       | ReadingState => defaultReadingState loaded
       | UIState => defaultUIState
       | SessionData => defaultSessionData loaded random
       end;
     trace := [] |}.

Definition validator (s : slice) : value -> bool :=
  match s with
  | Preferences => validatePreferences
  | ReadingState => validateReadingState
  | UIState => validateUIState
  | SessionData => validateSessionData
  end.

(** *** Core storage operations *)

Definition saveToStorage (key : string) (d : ref) (σ : machine)
  : bool * machine :=
  let serializedData :=
    safeJSONStringify
      (VObj [("data", deref (defaults σ) d); ("version", VStr VERSION);
             ("timestamp", VStr (toISOString (clock σ)))]) in
  match serializedData with
  | None => (false, σ)
  | Some item =>
      match setItem key item σ with
      | (Normal _, σ1) => (true, σ1)
      | (Throw _, σ1) => (false, σ1)
      end
  end.

(** [loadFromStorage key defaultValue]. The fallback handed to
    [safeJSONParse] is [{ data: defaultValue }], whose [data] is the
    default again; reading [data] from a parsed [null] raises a TypeError,
    which the [catch] turns into the default. *)
Definition loadFromStorage (key : string) (defaultValue : ref) (σ : machine)
  : ref * machine :=
  match getItem key σ with
  | None => (defaultValue, σ)
  | Some item =>
      if text_falsy item then (defaultValue, σ)
      else
        let '(parsed, σ1) := safeJSONParse item None Some σ in
        match parsed with
        | None => (defaultValue, σ1)
        | Some doc =>
            if is_nullish doc then (defaultValue, σ1)
            else
              let d := get_field doc "data" in
              if truthy d then (Local d [], σ1) else (defaultValue, σ1)
        end
  end.

(** *** Debounced save *)

Definition clearTimeout (id : positive) (σ : machine) : machine :=
  with_timers (debounceTimers σ)
              (filter (fun t => negb (Pos.eqb (tid t) id)) (timeouts σ))
              (nextTimer σ) σ.

(** [setTimeout] clamps a negative delay to zero. Timer identifiers are
    positive, hence truthy. *)
Definition debouncedSave (key : string) (d : ref) (delay : Z) (σ : machine)
  : machine :=
  let σ1 :=
    match debounceTimers σ !! key with
    | Some existingTimer => clearTimeout existingTimer σ
    | None => σ
    end in
  let timer := nextTimer σ1 in
  with_timers (<[key := timer]> (debounceTimers σ1))
              (timeouts σ1
               ++ [{| tid := timer; due := clock σ1 + Z.max 0 delay;
                      tkey := key; tdata := d |}])
              (Pos.succ timer) σ1.

(** The callback of a debounced save *)
Definition fire (t : timeout) (σ : machine) : machine :=
  let σ0 :=
    with_clock (Z.max (clock σ) (due t))
      (with_timers (debounceTimers σ)
         (filter (fun t' => negb (Pos.eqb (tid t') (tid t))) (timeouts σ))
         (nextTimer σ) σ) in
  let σ1 := snd (saveToStorage (tkey t) (tdata t) σ0) in
  with_timers (delete (tkey t) (debounceTimers σ1)) (timeouts σ1)
              (nextTimer σ1) σ1.

(** The pending timeout that is due first; among equals, the one that was
    scheduled first. *)
Fixpoint earliest (ts : list timeout) : option timeout :=
  match ts with
  | [] => None
  | t :: rest =>
      match earliest rest with
      | Some t' => if due t' <? due t then Some t' else Some t
      | None => Some t
      end
  end.

Fixpoint run_timers (fuel : nat) (until : Z) (σ : machine) : machine :=
  match fuel with
  | O => σ
  | S fuel' =>
      match earliest (timeouts σ) with
      | Some t =>
          if due t <=? until then run_timers fuel' until (fire t σ) else σ
      | None => σ
      end
  end.

(** The event loop runs until the clock shows [until]: every timeout due by
    then fires, in order. A callback schedules nothing, so one round per
    pending timeout is enough. *)
Definition advance (until : Z) (σ : machine) : machine :=
  let σ1 := run_timers (length (timeouts σ)) until σ in
  with_clock (Z.max (clock σ1) until) σ1.

(** *** The four slices *)

Definition saveSlice (s : slice) (d : ref) (σ : machine) : bool * machine :=
  let '(ok, σ1) :=
    validateStorageData (STORAGE_KEYS s) (deref (defaults σ) d)
                        (validator s) σ in
  if negb ok then (false, σ1)
  else saveToStorage (STORAGE_KEYS s) d σ1.

Definition loadSlice (s : slice) (σ : machine) : ref * machine :=
  let '(stored, σ1) := loadFromStorage (STORAGE_KEYS s) (Global s) σ in
  if validator s (deref (defaults σ1) stored) then (stored, σ1)
  else (sanitizeData stored (Global s) σ1, σ1).

Definition saveUserPreferences := saveSlice Preferences.
Definition loadUserPreferences := loadSlice Preferences.
Definition saveReadingState := saveSlice ReadingState.
Definition loadReadingState := loadSlice ReadingState.
Definition saveUIState := saveSlice UIState.
Definition loadUIState := loadSlice UIState.
Definition saveSessionData := saveSlice SessionData.
Definition loadSessionData := loadSlice SessionData.

(** *** Bookmarks *)

Definition new_bookmark (id : string) (chapterIndex scrollPosition : num)
    (now : Z) (note : option string) : value :=
  VObj [("id", VStr id); ("chapterIndex", VNum chapterIndex);
        ("scrollPosition", VNum scrollPosition);
        ("timestamp", VStr (toISOString now));
        ("note", match note with Some n => VStr n | None => VUndefined end)].

Definition push (x : value) (arr : value) : value :=
  match arr with
  | VArr l => VArr (l ++ [x])
  | _ => arr
  end.

(** [random] is the suffix drawn from [Math.random] for the identifier.
    [push] exists on arrays only. *)
Definition addBookmark (chapterIndex scrollPosition : num)
    (note : option string) (random : string) (σ : machine)
  : completion value * machine :=
  let bookmark :=
    new_bookmark (generateBookmarkId (clock σ) random)
                 chapterIndex scrollPosition (clock σ) note in
  let '(sessionData, σ1) := loadSessionData σ in
  if is_array (get_field (deref (defaults σ1) sessionData) "bookmarkPositions")
  then
    let '(sessionData, σ2) :=
      modify_field sessionData "bookmarkPositions" (push bookmark) σ1 in
    let '(_, σ3) := saveSessionData sessionData σ2 in
    (Normal bookmark, σ3)
  else (Throw (TypeError "sessionData.bookmarkPositions.push"), σ1).

(** [b.id !== bookmarkId]; reading [id] from [null] or [undefined] raises. *)
Definition differs (bookmarkId : string) (b : value) : option bool :=
  if is_nullish b then None
  else
    Some (match get_field b "id" with
          | VStr s => negb (String.eqb s bookmarkId)
          | _ => true
          end).

Fixpoint filter_bookmarks (bookmarkId : string) (l : list value)
  : option (list value) :=
  match l with
  | [] => Some []
  | b :: rest =>
      match differs bookmarkId b with
      | None => None
      | Some keep =>
          match filter_bookmarks bookmarkId rest with
          | None => None
          | Some rest' => Some (if keep then b :: rest' else rest')
          end
      end
  end.

Definition removeBookmark (bookmarkId : string) (σ : machine)
  : completion bool * machine :=
  let '(sessionData, σ1) := loadSessionData σ in
  match get_field (deref (defaults σ1) sessionData) "bookmarkPositions" with
  | VArr l =>
      let initialLength := length l in
      match filter_bookmarks bookmarkId l with
      | None => (Throw (TypeError "b.id"), σ1)
      | Some kept =>
          let '(sessionData, σ2) :=
            assign sessionData "bookmarkPositions" (VArr kept) σ1 in
          if (length kept <? initialLength)%nat then
            let '(_, σ3) := saveSessionData sessionData σ2 in
            (Normal true, σ3)
          else (Normal false, σ2)
      end
  | _ => (Throw (TypeError "sessionData.bookmarkPositions.filter"), σ1)
  end.

Definition getBookmarks (σ : machine) : value * machine :=
  let '(sessionData, σ1) := loadSessionData σ in
  (get_field (deref (defaults σ1) sessionData) "bookmarkPositions", σ1).

(** *** Scroll tracking *)

(** The module is strict code: assigning a property on a primitive raises,
    as does reading one from [null] or [undefined]. *)
Definition updateScrollPosition (chapterIndex scrollPosition : num)
    (σ : machine) : completion unit * machine :=
  let now := toISOString (clock σ) in
  let '(readingState, σ1) := loadReadingState σ in
  let '(readingState, σ2) :=
    assign readingState "scrollPosition" (VNum scrollPosition) σ1 in
  let '(readingState, σ3) :=
    assign readingState "lastReadTime" (VStr now) σ2 in
  let readingProgress :=
    get_field (deref (defaults σ3) readingState) "readingProgress" in
  if negb (is_container readingProgress) then
    (Throw (TypeError "readingState.readingProgress[chapterIndex]"), σ3)
  else
    let found := get_index readingProgress chapterIndex in
    let currentProgress :=
      if truthy found then found
      else VObj [("scrollPosition", VNum (Fin 0)); ("lastVisited", VStr now);
                 ("timeSpent", VNum (Fin 0))] in
    let entry :=
      VObj (spread [] (own_props currentProgress
                       ++ [("scrollPosition", VNum scrollPosition);
                           ("lastVisited", VStr now)])) in
    let '(readingState, σ4) :=
      modify_field readingState "readingProgress"
                   (fun o => set_index o chapterIndex entry) σ3 in
    (Normal (), debouncedSave (STORAGE_KEYS ReadingState) readingState 1000 σ4).

(** *** Export, import, clearing *)

(** The property of [AppData] that holds a slice *)
Definition AppData_field (s : slice) : string :=
  match s with
  | Preferences => "preferences"
  | ReadingState => "readingState"
  | UIState => "uiState"
  | SessionData => "sessionData"
  end.

(** [exportUserData]. The indentation asked of [JSON.stringify] does not
    change the document. *)
Definition exportUserData (σ : machine) : text * machine :=
  let '(preferences, σ1) := loadUserPreferences σ in
  let '(readingState, σ2) := loadReadingState σ1 in
  let '(uiState, σ3) := loadUIState σ2 in
  let '(sessionData, σ4) := loadSessionData σ3 in
  (Json (to_json
           (VObj [(AppData_field Preferences, deref (defaults σ4) preferences);
                  (AppData_field ReadingState, deref (defaults σ4) readingState);
                  (AppData_field UIState, deref (defaults σ4) uiState);
                  (AppData_field SessionData, deref (defaults σ4) sessionData);
                  ("version", VStr VERSION);
                  ("lastSavedAt", VStr (toISOString (clock σ4)))])),
   σ4).

(** One line of [importUserData]: [if (data.f) this.save(data.f)] *)
Definition import_slice (data : value) (s : slice) (σ : machine) : machine :=
  let x := get_field data (AppData_field s) in
  if truthy x then snd (saveSlice s (Local x []) σ) else σ.

(** [importUserData]: a text that does not parse, or that denotes [null]
    (whose properties cannot be read), ends in the [catch]. *)
Definition importUserData (jsonData : text) (σ : machine) : bool * machine :=
  match JSON_parse jsonData with
  | None => (false, σ)
  | Some data =>
      if is_nullish data then (false, σ)
      else
        (true,
         import_slice data SessionData
           (import_slice data UIState
              (import_slice data ReadingState
                 (import_slice data Preferences σ))))
  end.

Definition APP_DATA : string := "novel-app-data".

(** [Object.values(STORAGE_KEYS)], in the order of the declaration *)
Definition all_keys : list string :=
  [STORAGE_KEYS Preferences; STORAGE_KEYS ReadingState; STORAGE_KEYS UIState;
   STORAGE_KEYS SessionData; APP_DATA].

Definition clearAllData (σ : machine) : machine :=
  foldl (fun σ key => removeItem key σ) σ all_keys.

(** [initializeSession]; [random] is the suffix drawn for the new session
    identifier. The spread copy shares the arrays of the object it copies. *)
Definition initializeSession (random : string) (σ : machine)
  : completion ref * machine :=
  let '(sessionData, σ1) := loadSessionData σ in
  let copied := deref (defaults σ1) sessionData in
  match plus (get_field copied "visitCount") 1 with
  | None => (Throw (TypeError "sessionData.visitCount + 1"), σ1)
  | Some visitCount =>
      let fresh :=
        [("sessionId", VStr (generateSessionId (clock σ1) random));
         ("lastVisitTime", VStr (toISOString (clock σ1)));
         ("visitCount", visitCount)] in
      let newSessionData :=
        Local (VObj (spread (own_props copied) fresh))
              (filter (fun b => negb (has_prop b.2 fresh))
                      (pointers (defaults σ1) sessionData)) in
      let '(_, σ2) := saveSessionData newSessionData σ1 in
      (Normal newSessionData, σ2)
  end.

End StorageService.

(** ** The scroll-tracking hook: what it asks of the storage service *)

Module useScrollTracking.
Import Js Machine StorageService.

(** The effect that runs when the chapter changes: the chapter is added to
    the chapters read unless it is among them. [includes] exists on arrays
    and on strings, [push] on arrays only. *)
Definition chapterChanged (chapterIndex : num) (σ : machine)
  : completion unit * machine :=
  let '(sessionData, σ1) := loadSessionData σ in
  match get_field (deref (defaults σ1) sessionData) "chaptersRead" with
  | VArr l =>
      if array_includes l chapterIndex then (Normal (), σ1)
      else
        let '(sessionData, σ2) :=
          modify_field sessionData "chaptersRead" (push (VNum chapterIndex)) σ1 in
        let '(_, σ3) := saveSessionData sessionData σ2 in
        (Normal (), σ3)
  | VStr s =>
      if string_includes (num_key chapterIndex) s then (Normal (), σ1)
      else (Throw (TypeError "sessionData.chaptersRead.push"), σ1)
  | _ => (Throw (TypeError "sessionData.chaptersRead.includes"), σ1)
  end.

(** [restoreScrollPosition], the content element being mounted: the answer
    is the value assigned to its [scrollTop], if any. *)
Definition restoreScrollPosition (StringToNumber : string -> num)
    (chapterIndex : num) (σ : machine) : completion (option value) * machine :=
  let '(readingState, σ1) := loadReadingState σ in
  let readingProgress :=
    get_field (deref (defaults σ1) readingState) "readingProgress" in
  if is_nullish readingProgress then
    (Throw (TypeError "readingState.readingProgress[chapterIndex]"), σ1)
  else
    let chapterProgress := get_index readingProgress chapterIndex in
    if truthy chapterProgress then
      match greater_than_zero StringToNumber
              (get_field chapterProgress "scrollPosition") with
      | Some true => (Normal (Some (get_field chapterProgress "scrollPosition")), σ1)
      | Some false => (Normal None, σ1)
      | None => (Throw (TypeError "chapterProgress.scrollPosition > 0"), σ1)
      end
    else (Normal None, σ1).

(** [saveCurrentPosition], [position] being the [scrollTop] of the content
    element *)
Definition saveCurrentPosition (chapterIndex position : num) (σ : machine)
  : completion unit * machine :=
  updateScrollPosition chapterIndex position σ.

End useScrollTracking.

(** ** Retry with back-off (src/utils/ErrorHandler.ts, continued)

    [handleStorageOperation] sleeps between attempts; while it sleeps the
    event loop runs the timeouts of the storage service, which is why it
    comes after them. *)

Module Retry.
Import Js Machine StorageErrorHandler StorageService.

Definition is_quota (code : Z) (name : string) : bool :=
  (code =? 22) || String.eqb name "QuotaExceededError".

Definition exn_message (e : exn) : string :=
  match e with
  | DOMException _ name => name
  | TypeError m | Error m => m
  end.

Definition sleep (ms : Z) (σ : machine) : machine :=
  advance (clock σ + ms) (with_trace (trace σ ++ [EvSleep ms]) σ).

Section Loop.
Context {T : Type}.
Variable operation : machine -> completion T * machine.
Variable operationName : string.
Variable fallback : option (machine -> completion T * machine).
Variable maxRetries : nat.

(** The body of the [for] loop, from [attempt] on; [remaining] counts the
    iterations left. *)
Fixpoint attempts (remaining : nat) (attempt : nat)
    (lastError : option exn) (σ : machine) : completion T * machine :=
  match remaining with
  | O =>
      (Throw (match lastError with
              | Some e => e
              | None =>
                  Error ("Operation " +:+ operationName +:+ " failed after "
                         +:+ pretty maxRetries +:+ " attempts")
              end), σ)
  | S remaining' =>
      match operation (with_trace (trace σ ++ [EvAttempt operationName attempt]) σ)
      with
      | (Normal v, σ1) => (Normal v, σ1)
      | (Throw e, σ1) =>
          let backoff (σ : machine) :=
            attempts remaining' (S attempt) (Some e)
              (if (attempt <? maxRetries)%nat
               then sleep (2 ^ Z.of_nat attempt * 100) σ else σ) in
          match e with
          | DOMException code name =>
              if is_quota code name then
                let σ2 :=
                  snd (createError QUOTA_EXCEEDED "Storage quota exceeded"
                         operationName VUndefined σ1) in
                match fallback with
                | Some f =>
                    if (attempt =? maxRetries)%nat then f σ2
                    else backoff (freeUpStorage σ2)
                | None => backoff (freeUpStorage σ2)
                end
              else
                let σ2 :=
                  snd (createError STORAGE_NOT_AVAILABLE
                         "Storage operation failed" operationName
                         VUndefined σ1) in
                match fallback with
                | Some f => f σ2
                | None => backoff σ2
                end
          | _ =>
              backoff
                (snd (createError UNKNOWN_ERROR
                        ("Operation failed: " +:+ exn_message e)
                        operationName VUndefined σ1))
          end
      end
  end.

Definition handleStorageOperation (σ : machine) : completion T * machine :=
  attempts maxRetries 1%nat None σ.

End Loop.

End Retry.

(** ** Navigation handlers of the application component *)

Module App.
Import Js Machine StorageService.

(** The statements shared by the three handlers: save the chapter
    navigation immediately. *)
Definition saveNavigation (newIndex : num) (σ : machine) : bool * machine :=
  let '(readingState, σ1) := loadReadingState σ in
  let '(readingState, σ2) :=
    assign readingState "currentChapterIndex" (VNum newIndex) σ1 in
  let '(readingState, σ3) :=
    assign readingState "lastReadTime" (VStr (toISOString (clock σ))) σ2 in
  saveReadingState readingState σ3.

(** [currentChapterIndex] and [chapters] are state of the component; each
    handler answers the new index. [selectChapter] also closes the panels,
    which belongs to the state of [useUIState] below. *)
Definition goToPreviousChapter (currentChapterIndex : Z) (σ : machine)
  : Z * machine :=
  if 0 <? currentChapterIndex then
    let newIndex := currentChapterIndex - 1 in
    (newIndex, snd (saveNavigation (Fin newIndex) σ))
  else (currentChapterIndex, σ).

Definition goToNextChapter (currentChapterIndex chapters_length : Z)
    (σ : machine) : Z * machine :=
  if currentChapterIndex <? chapters_length - 1 then
    let newIndex := currentChapterIndex + 1 in
    (newIndex, snd (saveNavigation (Fin newIndex) σ))
  else (currentChapterIndex, σ).

Definition selectChapter (index : Z) (σ : machine) : Z * machine :=
  (index, snd (saveNavigation (Fin index) σ)).

(** The effect that restores the reading state once the table of contents
    has been loaded: the answer is the chapter index handed to
    [setCurrentChapterIndex], if any. *)
Definition restoreReadingState (StringToNumber : string -> num)
    (chapters_length : Z) (σ : machine) : completion (option value) * machine :=
  let '(readingState, σ1) := loadReadingState σ in
  let index :=
    get_field (deref (defaults σ1) readingState) "currentChapterIndex" in
  match within StringToNumber index chapters_length with
  | Some true => (Normal (Some index), σ1)
  | Some false => (Normal None, σ1)
  | None => (Throw (TypeError "readingState.currentChapterIndex >= 0"), σ1)
  end.

End App.

(** ** src/hooks/useUIState.ts: the panel operations *)

Module useUIState.

Inductive panel := toc | settings.
Inductive navigation := buttons | keyboard | swipe.

Record UIState := {
  showTOC : bool;
  showSettings : bool;
  lastActivePanel : option panel;
  contentAreaWidth : Js.num;
  navigationPreference : navigation;
  panelAnimationDuration : Js.num
}.

(** Each operation is the function handed to [setUIState]; the
    [onPanelToggle] callback is an observer. *)
Definition toggleTOC (prev : UIState) : UIState :=
  let newShowTOC := negb (showTOC prev) in
  {| showTOC := newShowTOC;
     showSettings := if newShowTOC then false else showSettings prev;
     lastActivePanel := if newShowTOC then Some toc else lastActivePanel prev;
     contentAreaWidth := contentAreaWidth prev;
     navigationPreference := navigationPreference prev;
     panelAnimationDuration := panelAnimationDuration prev |}.

Definition toggleSettings (prev : UIState) : UIState :=
  let newShowSettings := negb (showSettings prev) in
  {| showTOC := if newShowSettings then false else showTOC prev;
     showSettings := newShowSettings;
     lastActivePanel :=
       if newShowSettings then Some settings else lastActivePanel prev;
     contentAreaWidth := contentAreaWidth prev;
     navigationPreference := navigationPreference prev;
     panelAnimationDuration := panelAnimationDuration prev |}.

Definition closeAllPanels (prev : UIState) : UIState :=
  {| showTOC := false;
     showSettings := false;
     lastActivePanel := None;
     contentAreaWidth := contentAreaWidth prev;
     navigationPreference := navigationPreference prev;
     panelAnimationDuration := panelAnimationDuration prev |}.

Definition panel_eqb (a b : panel) : bool :=
  match a, b with
  | toc, toc | settings, settings => true
  | _, _ => false
  end.

Definition openPanel (p : panel) (prev : UIState) : UIState :=
  {| showTOC := panel_eqb p toc;
     showSettings := panel_eqb p settings;
     lastActivePanel := Some p;
     contentAreaWidth := contentAreaWidth prev;
     navigationPreference := navigationPreference prev;
     panelAnimationDuration := panelAnimationDuration prev |}.

Inductive operation :=
| ToggleTOC
| ToggleSettings
| OpenPanel (p : panel)
| CloseAllPanels.

Definition apply (op : operation) : UIState -> UIState :=
  match op with
  | ToggleTOC => toggleTOC
  | ToggleSettings => toggleSettings
  | OpenPanel p => openPanel p
  | CloseAllPanels => closeAllPanels
  end.

(** Layout and animation *)
Definition setContentAreaWidth (width : Js.num) (prev : UIState) : UIState :=
  {| showTOC := showTOC prev;
     showSettings := showSettings prev;
     lastActivePanel := lastActivePanel prev;
     contentAreaWidth := width;
     navigationPreference := navigationPreference prev;
     panelAnimationDuration := panelAnimationDuration prev |}.

Definition setNavigationPreference (preference : navigation) (prev : UIState)
  : UIState :=
  {| showTOC := showTOC prev;
     showSettings := showSettings prev;
     lastActivePanel := lastActivePanel prev;
     contentAreaWidth := contentAreaWidth prev;
     navigationPreference := preference;
     panelAnimationDuration := panelAnimationDuration prev |}.

Definition setPanelAnimationDuration (duration : Js.num) (prev : UIState)
  : UIState :=
  {| showTOC := showTOC prev;
     showSettings := showSettings prev;
     lastActivePanel := lastActivePanel prev;
     contentAreaWidth := contentAreaWidth prev;
     navigationPreference := navigationPreference prev;
     panelAnimationDuration := duration |}.

(** The keys the hook listens to *)
Inductive key := Escape | KeyT | KeyS | OtherKey.

(** [handleKeydown]: the operation a key press triggers, [modifier] telling
    whether Control or Meta is held *)
Definition handleKeydown (k : key) (modifier : bool) (uiState : UIState)
  : option operation :=
  match navigationPreference uiState with
  | keyboard =>
      match k with
      | Escape =>
          if showTOC uiState || showSettings uiState
          then Some CloseAllPanels else None
      | KeyT => if modifier then Some ToggleTOC else None
      | KeyS => if modifier then Some ToggleSettings else None
      | OtherKey => None
      end
  | _ => None
  end.

(** Everything that changes the state of the hook *)
Inductive command :=
| Panel (op : operation)
| Keydown (k : key) (modifier : bool)
| SetContentAreaWidth (width : Js.num)
| SetNavigationPreference (preference : navigation)
| SetPanelAnimationDuration (duration : Js.num).

Definition run (c : command) (st : UIState) : UIState :=
  match c with
  | Panel op => apply op st
  | Keydown k modifier =>
      match handleKeydown k modifier st with
      | Some op => apply op st
      | None => st
      end
  | SetContentAreaWidth width => setContentAreaWidth width st
  | SetNavigationPreference preference => setNavigationPreference preference st
  | SetPanelAnimationDuration duration => setPanelAnimationDuration duration st
  end.

(** The state the hook starts from ([defaultUIState]) *)
Definition initial : UIState :=
  {| showTOC := false; showSettings := false; lastActivePanel := None;
     contentAreaWidth := Js.Fin 800; navigationPreference := buttons;
     panelAnimationDuration := Js.Fin 300 |}.

End useUIState.

(** ** src/hooks/useSessionTracking.ts: bookmarks of a chapter *)

Module useSessionTracking.
Import Js.
(** [getBookmarksForChapter], over a list of bookmark records:
    [b.chapterIndex === chapterIndex] *)
Definition same_chapter (chapterIndex : num) (b : value) : bool :=
  match get_field b "chapterIndex" with
  | VNum n => num_strict_eq n chapterIndex
  | _ => false
  end.

Definition getBookmarksForChapter (bookmarkPositions : list value)
    (chapterIndex : num) : list value :=
  List.filter (same_chapter chapterIndex) bookmarkPositions.
End useSessionTracking.

(** * Vocabulary of the statements *)

Import Js Machine StorageErrorHandler ValidationService StorageService.

(** ** What is stored and what is in use *)

(** What a load finds under a key: the document of the stored text, if there
    is a text and it parses. *)
Definition stored_doc (key : string) (σ : machine) : option value :=
  getItem key σ ≫= JSON_parse.

(** The record under which a slice is stored *)
Definition envelope (x : value) (at_ : Z) : value :=
  VObj [("data", x); ("version", VStr VERSION);
        ("timestamp", VStr (toISOString at_))].

(** The object a load works with before it validates: the parsed [data], or
    the default object of the slice. *)
Definition in_use (s : slice) (σ : machine) : ref :=
  (loadFromStorage (STORAGE_KEYS s) (Global s) σ).1.

Definition current (s : slice) (σ : machine) : value :=
  deref (defaults σ) (in_use s σ).

(** A reference that shares nothing with a default object, or is one *)
Definition simple (r : ref) : Prop :=
  match r with
  | Global _ => True
  | Local _ bs => bs = []
  end.

Definition defined (ps : list (string * value)) : Prop :=
  Forall (fun kv => kv.2 <> VUndefined) ps.

Definition json_props (ps : list (string * value)) : list (string * value) :=
  map (fun kv => (kv.1, to_json kv.2)) ps.

(** ** Traces *)

(** The attempts and the sleeps of a trace, without the writes *)
Definition is_write (e : event) : bool :=
  match e with EvSetItem _ _ _ => true | _ => false end.

Definition retry_events (tr : list event) : list event :=
  filter (fun e => negb (is_write e)) tr.

Definition writes_key (key : string) (e : event) : bool :=
  match e with
  | EvSetItem _ k _ => String.eqb k key
  | _ => false
  end.

(** The writes under [key] in a trace *)
Definition writes_to (key : string) (tr : list event) : list event :=
  filter (writes_key key) tr.

(** The attempts and sleeps of a run that fails [remaining] times in a row,
    starting with attempt number [attempt] *)
Fixpoint backoff_schedule (name : string) (attempt remaining : nat) : list event :=
  match remaining with
  | O => []
  | S O => [EvAttempt name attempt]
  | S remaining' =>
      EvAttempt name attempt :: EvSleep (2 ^ Z.of_nat attempt * 100)
      :: backoff_schedule name (S attempt) remaining'
  end.

(** ** The environment and the timers *)

(** Neither the refusal of writes nor the default objects change under the
    error handler and the event loop. *)
Definition same_env (σ σ' : machine) : Prop :=
  quotaExceeded σ' = quotaExceeded σ /\ defaults σ' = defaults σ.

Definition same_timers (σ σ' : machine) : Prop :=
  timeouts σ' = timeouts σ /\ debounceTimers σ' = debounceTimers σ
  /\ nextTimer σ' = nextTimer σ /\ clock σ' = clock σ
  /\ quotaExceeded σ' = quotaExceeded σ.

(** Every pending timeout is the one registered for its key, a registered
    identifier belongs to no timeout of another key, and identifiers are not
    reused. *)
Definition timers_wf (σ : machine) : Prop :=
  NoDup (tid <$> timeouts σ)
  /\ (forall t, t ∈ timeouts σ -> debounceTimers σ !! tkey t = Some (tid t))
  /\ (forall k id, debounceTimers σ !! k = Some id ->
        (id < nextTimer σ)%positive
        /\ forall t, t ∈ timeouts σ -> tid t = id -> tkey t = k).

Definition new_timeout (key : string) (d : ref) (delay : Z) (σ : machine)
  : timeout :=
  {| tid := nextTimer σ; due := clock σ + Z.max 0 delay; tkey := key;
     tdata := d |}.

(** A timeout for [key], carrying [d] and due at [due_], is pending. *)
Definition armed (key : string) (d : ref) (due_ : Z) (σ : machine) : Prop :=
  timers_wf σ /\ quotaExceeded σ = false
  /\ exists t0, t0 ∈ timeouts σ /\ tkey t0 = key /\ tdata t0 = d /\ due t0 = due_.

(** A burst of calls [debouncedSave key d delay], each made at its own
    instant, the event loop running in between *)
Fixpoint burst (key : string) (delay : Z) (calls : list (Z * ref))
    (σ : machine) : machine :=
  match calls with
  | [] => σ
  | (at_, d) :: rest =>
      burst key delay rest (debouncedSave key d delay (advance at_ σ))
  end.

(** Every call comes before the delay of the call before it has elapsed. *)
Fixpoint chained (delay : Z) (previous : Z) (calls : list (Z * ref)) : Prop :=
  match calls with
  | [] => True
  | (at_, _) :: rest =>
      previous <= at_ < previous + delay /\ chained delay at_ rest
  end.

Fixpoint last_call (first : Z * ref) (rest : list (Z * ref)) : Z * ref :=
  match rest with
  | [] => first
  | next :: rest' => last_call next rest'
  end.

(** ** Bookmarks and scroll tracking *)

(** [b.id !== bookmarkId] on a record *)
Definition other_id (bookmarkId : string) (b : value) : bool :=
  match get_field b "id" with
  | VStr s => negb (String.eqb s bookmarkId)
  | _ => true
  end.

(** The progress record written for a chapter, [found] being what the
    progress map held for it *)
Definition progress_entry (found : value) (scrollPosition : num) (now : Z)
  : value :=
  let currentProgress :=
    if truthy found then found
    else VObj [("scrollPosition", VNum (Fin 0));
               ("lastVisited", VStr (toISOString now));
               ("timeSpent", VNum (Fin 0))] in
  VObj (spread [] (own_props currentProgress
                   ++ [("scrollPosition", VNum scrollPosition);
                       ("lastVisited", VStr (toISOString now))])).

(** The reading state that [updateScrollPosition] hands to the debounced
    save, made from the record [ps] whose progress map is [progress] *)
Definition scrolled (ps progress : list (string * value))
    (chapterIndex scrollPosition : num) (now : Z) : value :=
  VObj (set_prop "readingProgress"
          (VObj (set_prop (num_key chapterIndex)
                   (progress_entry (get_index (VObj progress) chapterIndex)
                                   scrollPosition now)
                   progress))
          (set_prop "lastReadTime" (VStr (toISOString now))
             (set_prop "scrollPosition" (VNum scrollPosition) ps))).

(** ** Actions of the page *)

(** One action of the page on the storage service *)
Inductive action :=
| Save (s : slice) (d : ref)
| Load (s : slice)
| DebouncedSave (key : string) (d : ref) (delay : Z)
| UpdateScrollPosition (chapterIndex scrollPosition : num)
| Navigate (newIndex : num)
| AddBookmark (chapterIndex scrollPosition : num) (note : option string)
    (random : string)
| RemoveBookmark (bookmarkId : string)
| ExportUserData
| ImportUserData (jsonData : text)
| ClearAllData
| InitializeSession (random : string)
| ChapterChanged (chapterIndex : num)
| Advance (until : Z).

Definition perform (a : action) (σ : machine) : machine :=
  match a with
  | Save s d => (saveSlice s d σ).2
  | Load s => (loadSlice s σ).2
  | DebouncedSave key d delay => debouncedSave key d delay σ
  | UpdateScrollPosition i p => (updateScrollPosition i p σ).2
  | Navigate newIndex => (App.saveNavigation newIndex σ).2
  | AddBookmark i p note random => (addBookmark i p note random σ).2
  | RemoveBookmark id => (removeBookmark id σ).2
  | ExportUserData => (exportUserData σ).2
  | ImportUserData jsonData => (importUserData jsonData σ).2
  | ClearAllData => clearAllData σ
  | InitializeSession random => (initializeSession random σ).2
  | ChapterChanged i => (useScrollTracking.chapterChanged i σ).2
  | Advance until => advance until σ
  end.

(** ** The errors on record *)

Definition log_bounded (σ : machine) : Prop :=
  (length (errorLog σ) <= maxLogSize)%nat.

(** What the error handler reads under the key of the critical errors:
    [JSON.parse(localStorage.getItem(key) || '[]')], if it parses *)
Definition critical_errors (σ : machine) : option value :=
  match getItem critical_errors_key σ with
  | None => Some (VArr [])
  | Some item => if text_falsy item then Some (VArr []) else JSON_parse item
  end.

(** The stored list of critical errors once [entry] has been pushed on [l]:
    at ten entries the oldest makes room. *)
Definition pushed_critical (l : list value) (entry : value) : list value :=
  (if (10 <=? length l)%nat then tail l else l) ++ [entry].

(** The keys that [freeUpStorage] removes *)
Definition temporary (key : string) : bool :=
  String.prefix "temp-" key || String.prefix "cache-" key.

(** The document that [exportUserData] writes when the four slices in use
    are [slices] and the clock shows [now] *)
Definition exported_doc (slices : slice -> value) (now : Z) : value :=
  VObj [(AppData_field Preferences, slices Preferences);
        (AppData_field ReadingState, slices ReadingState);
        (AppData_field UIState, slices UIState);
        (AppData_field SessionData, slices SessionData);
        ("version", VStr VERSION);
        ("lastSavedAt", VStr (toISOString now))].

(** An integer that doubles represent exactly, together with its neighbours
    ([Number.isSafeInteger]) *)
Definition safe_integer (x : Z) : Prop := Z.abs x < 2 ^ 53.

(** ** The panels *)

(** A panel that is shown is the one on record as last active. *)
Definition panel_on_record (st : useUIState.UIState) : Prop :=
  (useUIState.showTOC st = true ->
   useUIState.lastActivePanel st = Some useUIState.toc)
  /\ (useUIState.showSettings st = true ->
      useUIState.lastActivePanel st = Some useUIState.settings).

(** ** The declared shape of the slices *)

(** The properties that the interface of a slice declares *)
Definition fields (s : slice) : list string :=
  match s with
  | Preferences =>
      ["theme"; "font"; "fontSize"; "lineHeight"; "textAlign"; "pageWidth"]
  | ReadingState =>
      ["currentChapterIndex"; "scrollPosition"; "lastReadTime"; "readingProgress";
       "totalReadingTime"; "sessionStartTime"]
  | UIState =>
      ["showTOC"; "showSettings"; "lastActivePanel"; "contentAreaWidth";
       "navigationPreference"; "panelAnimationDuration"]
  | SessionData =>
      ["sessionId"; "lastVisitTime"; "totalReadingTime"; "chaptersRead";
       "bookmarkPositions"; "visitCount"; "averageReadingSpeed"]
  end.

(** A property list that has every declared property of the slice *)
Definition complete (s : slice) (ps : list (string * value)) : Prop :=
  forall f, f ∈ fields s -> has_prop f ps = true.

Definition defaults_complete (σ : machine) : Prop :=
  forall s, complete s (defaults σ s).

(** ** Sample data *)

Definition purple_theme : value := VObj [("theme", VStr "purple")].

Definition dark_preferences : value :=
  VObj [("theme", VStr "dark"); ("font", VStr "pyidaungsu");
        ("fontSize", VStr "large"); ("lineHeight", VStr "relaxed");
        ("textAlign", VStr "justify"); ("pageWidth", VStr "wide")].

(** A reading state whose cumulative reading time is [NaN] *)
Definition reading_state_NaN : value :=
  VObj [("currentChapterIndex", VNum (Fin 3)); ("scrollPosition", VNum (Fin 120));
        ("lastReadTime", VStr "t"); ("readingProgress", VObj []);
        ("totalReadingTime", VNum NaN); ("sessionStartTime", VStr "t")].

(** A stored reading state: chapter 7 (index 6), written at instant 1000 *)
Definition chapter6_state : list (string * value) :=
  [("currentChapterIndex", VNum (Fin 6)); ("scrollPosition", VNum (Fin 40));
   ("lastReadTime", VStr (toISOString 1000));
   ("readingProgress",
     VObj [("6", VObj [("scrollPosition", VNum (Fin 40));
                       ("lastVisited", VStr (toISOString 1000));
                       ("timeSpent", VNum (Fin 0))])]);
   ("totalReadingTime", VNum (Fin 90));
   ("sessionStartTime", VStr (toISOString 900))].

Definition reading_chapter6 (now : Z) : machine :=
  boot now "k3v9x2a1b"
    {[ STORAGE_KEYS ReadingState := Json (envelope (VObj chapter6_state) 1000) ]}.

(** A raw write to the local storage, as an operation to retry *)
Definition raw_write (key : string) (item : text) (σ : machine)
  : completion bool * machine :=
  match setItem key item σ with
  | (Normal _, σ') => (Normal true, σ')
  | (Throw e, σ') => (Throw e, σ')
  end.

Definition full_storage : machine :=
  {| localStorage := ∅; quotaExceeded := true;
     navigator_userAgent := "agent"; location_href := "/";
     clock := 0; errorLog := []; debounceTimers := ∅; timeouts := [];
     nextTimer := 1%positive; defaults := defaults (boot 0 "k3v9x2a1b" ∅);
     trace := [] |}.

(** Session data with one bookmark and one chapter read *)
Definition one_bookmark : value :=
  VObj [("id", VStr "bookmark_7_q7w8e9r0t"); ("chapterIndex", VNum (Fin 2));
        ("scrollPosition", VNum (Fin 340)); ("timestamp", VStr (toISOString 7))].

Definition session_with_bookmark : list (string * value) :=
  [("sessionId", VStr "session_1_k3v9x2a1b"); ("lastVisitTime", VStr (toISOString 7));
   ("totalReadingTime", VNum (Fin 60)); ("chaptersRead", VArr [VNum (Fin 2)]);
   ("bookmarkPositions", VArr [one_bookmark]); ("visitCount", VNum (Fin 3));
   ("averageReadingSpeed", VNum (Fin 0))].

(** A storage that holds these session data and refuses every write *)
Definition full_with_session : machine :=
  with_localStorage
    {[ STORAGE_KEYS SessionData := Json (envelope (VObj session_with_bookmark) 7) ]}
    full_storage.

(** * Properties *)

(** ** Property lists and the codec *)

Section Props.
Context {A : Type}.
Implicit Types (ps : list (string * A)) (k : string).

Lemma lookup_set_prop_eq k x ps : lookup_prop k (set_prop k x ps) = Some x.
Proof.
  induction ps as [|[k' y] ps IH]; simpl.
  - by rewrite String.eqb_refl.
  - destruct (String.eqb k k') eqn:E; simpl; rewrite ?String.eqb_refl ?E //.
Qed.

Lemma lookup_set_prop_ne k k' x ps :
  k <> k' -> lookup_prop k' (set_prop k x ps) = lookup_prop k' ps.
Proof.
  intros Hne. induction ps as [|[k0 y] ps IH]; simpl.
  - destruct (String.eqb k' k) eqn:E; [|done].
    apply String.eqb_eq in E. congruence.
  - destruct (String.eqb k k0) eqn:E; simpl.
    + apply String.eqb_eq in E. subst k0.
      destruct (String.eqb k' k) eqn:E'; [|done].
      apply String.eqb_eq in E'. congruence.
    + by rewrite IH.
Qed.

Lemma set_prop_same k x ps : lookup_prop k ps = Some x -> set_prop k x ps = ps.
Proof.
  induction ps as [|[k' y] ps IH]; simpl; [done|].
  destruct (String.eqb k k') eqn:E.
  - apply String.eqb_eq in E. by intros [= ->]; subst.
  - intros H. by rewrite IH.
Qed.
End Props.

(** Induction over values, with the hypothesis available for every element
    of an array and every property of an object. *)
Lemma value_rect' (P : value -> Prop) :
  P VUndefined -> P VNull -> (forall b, P (VBool b)) -> (forall n, P (VNum n)) ->
  (forall s, P (VStr s)) ->
  (forall l, Forall P l -> P (VArr l)) ->
  (forall ps, Forall (fun kv => P kv.2) ps -> P (VObj ps)) ->
  forall v, P v.
Proof.
  intros Hu Hn Hb Hnum Hs Ha Ho.
  fix IH 1. intros [| |b|n|s|l|ps].
  - exact Hu.
  - exact Hn.
  - apply Hb.
  - apply Hnum.
  - apply Hs.
  - apply Ha. induction l as [|x l IHl]; constructor; [apply IH | exact IHl].
  - apply Ho. induction ps as [|[k x] ps IHps]; constructor;
      [apply IH | exact IHps].
Qed.

Lemma to_json_clean v : json_clean v = true -> to_json v = v.
Proof.
  induction v as [| |b|n|s|l IH|ps IH] using value_rect'; simpl; try done.
  - by destruct n.
  - intros Hc. f_equal. induction IH as [|x l Hx _ IHl]; simpl in *; [done|].
    apply andb_true_iff in Hc as [Hc1 Hc2]. by rewrite Hx ?IHl.
  - intros Hc. f_equal. induction IH as [|[k x] ps Hx _ IHps]; simpl in *; [done|].
    apply andb_true_iff in Hc as [Hc1 Hc2]. rewrite IHps //.
    destruct x; simpl in *; try done; by rewrite Hx.
Qed.

Lemma json_clean_to_json v : json_clean (to_json v) = true.
Proof.
  induction v as [| |b|n|s|l IH|ps IH] using value_rect'; simpl; try done.
  - by destruct n.
  - induction IH as [|x l Hx _ IHl]; simpl; [done|]. by rewrite Hx IHl.
  - induction IH as [|[k x] ps Hx _ IHps]; simpl in *; [done|].
    destruct x; simpl in *; rewrite ?IHps ?Hx //.
Qed.

(** ** Panels *)

(** C10. From a state of the panels in which the table of contents and the
    settings are not both shown, every panel operation leads to such a state
    again; and an operation that opens one panel leaves the other closed. *)
Theorem panels_mutually_exclusive (op : useUIState.operation)
    (st : useUIState.UIState) :
  useUIState.showTOC st && useUIState.showSettings st = false ->
  let st' := useUIState.apply op st in
  useUIState.showTOC st' && useUIState.showSettings st' = false
  /\ (useUIState.showTOC st = false -> useUIState.showTOC st' = true ->
      useUIState.showSettings st' = false)
  /\ (useUIState.showSettings st = false -> useUIState.showSettings st' = true ->
      useUIState.showTOC st' = false).
Proof.
  destruct st as [t s lp w np d]; simpl. intros Hinv.
  destruct op as [| |[]|]; simpl;
    destruct t, s; simpl in *; try discriminate; auto.
Qed.

Lemma panels_mutually_exclusive_witness :
  let st := {| useUIState.showTOC := false; useUIState.showSettings := true;
               useUIState.lastActivePanel := Some useUIState.settings;
               useUIState.contentAreaWidth := Fin 800;
               useUIState.navigationPreference := useUIState.buttons;
               useUIState.panelAnimationDuration := Fin 300 |} in
  useUIState.showTOC st && useUIState.showSettings st = false
  /\ useUIState.showTOC (useUIState.toggleTOC st) = true
  /\ useUIState.showSettings (useUIState.toggleTOC st) = false.
Proof.
  intros st.
  destruct (panels_mutually_exclusive useUIState.ToggleTOC st eq_refl)
    as (_ & Hopen & _).
  split; [reflexivity | split; [reflexivity | apply Hopen; reflexivity]].
Defined.

(** ** Loading *)

Lemma loadFromStorage_defaults key d σ :
  defaults (loadFromStorage key d σ).2 = defaults σ
  /\ localStorage (loadFromStorage key d σ).2 = localStorage σ
  /\ trace (loadFromStorage key d σ).2 = trace σ
  /\ timeouts (loadFromStorage key d σ).2 = timeouts σ
  /\ debounceTimers (loadFromStorage key d σ).2 = debounceTimers σ
  /\ nextTimer (loadFromStorage key d σ).2 = nextTimer σ
  /\ clock (loadFromStorage key d σ).2 = clock σ
  /\ quotaExceeded (loadFromStorage key d σ).2 = quotaExceeded σ.
Proof.
  unfold loadFromStorage. destruct (getItem key σ) as [item|]; [|done].
  destruct (text_falsy item); [done|].
  destruct item as [raw|doc]; simpl.
  - done.
  - destruct (is_nullish doc); [done|]. by destruct (truthy _).
Qed.

(** What a load answers, in terms of the stored document *)
Lemma loadFromStorage_result key defaultValue σ :
  (loadFromStorage key defaultValue σ).1 =
    match stored_doc key σ with
    | None => defaultValue
    | Some doc =>
        if truthy (get_field doc "data") then Local (get_field doc "data") []
        else defaultValue
    end.
Proof.
  unfold loadFromStorage, stored_doc.
  destruct (getItem key σ) as [item|]; simpl; [|done].
  destruct item as [raw|doc]; simpl.
  - by destruct (String.eqb raw EmptyString).
  - destruct doc; simpl; try done.
    all: by destruct (truthy _).
Qed.

(** C8. [loadFromStorage] answers the default when no text is stored under
    the key or the text does not parse; otherwise it answers the [data] field
    of the parsed record, or the default when that field is empty (absent,
    [null], [false], [0], [NaN] or the empty string). *)
Theorem loadFromStorage_fallback (key : string) (defaultValue : ref)
    (σ : machine) :
  (loadFromStorage key defaultValue σ).1 =
    match stored_doc key σ with
    | None => defaultValue
    | Some doc =>
        if truthy (get_field doc "data") then Local (get_field doc "data") []
        else defaultValue
    end.
Proof.
  unfold loadFromStorage, stored_doc.
  destruct (getItem key σ) as [item|]; simpl; [|done].
  destruct item as [raw|doc]; simpl.
  - by destruct (String.eqb raw EmptyString).
  - destruct doc; simpl; try done.
    all: by destruct (truthy _).
Qed.

(** ** Errors touch one key only *)

Lemma setItem_lookup_ne key key' item σ :
  key <> key' -> localStorage (setItem key item σ).2 !! key' = localStorage σ !! key'.
Proof.
  intros Hne. unfold setItem. destruct (quotaExceeded σ); simpl; [done|].
  by rewrite lookup_insert_ne.
Qed.

Lemma setItem_frame key item σ :
  defaults (setItem key item σ).2 = defaults σ
  /\ timeouts (setItem key item σ).2 = timeouts σ
  /\ debounceTimers (setItem key item σ).2 = debounceTimers σ
  /\ nextTimer (setItem key item σ).2 = nextTimer σ
  /\ clock (setItem key item σ).2 = clock σ
  /\ quotaExceeded (setItem key item σ).2 = quotaExceeded σ.
Proof.
  unfold setItem. destruct (quotaExceeded σ) eqn:E; simpl; by rewrite ?E.
Qed.

Lemma storeCriticalError_lookup_ne error key σ :
  key <> critical_errors_key ->
  localStorage (storeCriticalError error σ) !! key = localStorage σ !! key.
Proof.
  intros Hne. unfold storeCriticalError.
  destruct (match getItem critical_errors_key σ with
            | Some item => _ | None => _ end) as [[| | | | |l|]|]; try done.
  simpl. rewrite setItem_lookup_ne //.
Qed.

Lemma createError_lookup_ne c msg op d key σ :
  key <> critical_errors_key ->
  localStorage (createError c msg op d σ).2 !! key = localStorage σ !! key.
Proof.
  intros Hne. unfold createError, logError; simpl.
  destruct (isRecoverable c); [done|].
  by rewrite storeCriticalError_lookup_ne.
Qed.

Lemma STORAGE_KEYS_not_critical s : STORAGE_KEYS s <> critical_errors_key.
Proof. by destruct s. Qed.

Lemma STORAGE_KEYS_inj s s' : STORAGE_KEYS s = STORAGE_KEYS s' -> s = s'.
Proof. by destruct s, s'. Qed.

(** ** Saving *)

(** C4. A candidate that fails the validator of its slice is refused: the
    save answers [false], and the text stored under the key of the slice is
    what it was before the call. *)
Theorem invalid_save_is_refused (s : slice) (c : ref) (σ : machine) :
  validator s (deref (defaults σ) c) = false ->
  (saveSlice s c σ).1 = false
  /\ localStorage (saveSlice s c σ).2 !! STORAGE_KEYS s
     = localStorage σ !! STORAGE_KEYS s.
Proof.
  intros Hbad. unfold saveSlice, validateStorageData. rewrite Hbad. simpl.
  split; [done|].
  apply createError_lookup_ne, STORAGE_KEYS_not_critical.
Qed.

Lemma invalid_save_is_refused_witness :
  let σ := boot 0 "k3v9x2a1b" ∅ in
  validator Preferences (deref (defaults σ) (Local purple_theme [])) = false
  /\ (saveUserPreferences (Local purple_theme []) σ).1 = false
  /\ localStorage (saveUserPreferences (Local purple_theme []) σ).2
       !! STORAGE_KEYS Preferences = None.
Proof.
  intros σ.
  destruct (invalid_save_is_refused Preferences (Local purple_theme []) σ eq_refl)
    as [Hres Hkept].
  split; [reflexivity | split; [exact Hres | exact Hkept]].
Defined.

Lemma validator_is_object s x : validator s x = true -> is_object x = true.
Proof.
  destruct s; simpl;
    unfold validatePreferences, validateReadingState, validateUIState,
      validateSessionData; by destruct (is_object x).
Qed.

Lemma to_json_envelope x t :
  is_object x = true -> to_json (envelope x t) = envelope (to_json x) t.
Proof.
  unfold is_object. destruct x as [| |[]|[]|?|?|?]; simpl; try done.
  all: by rewrite andb_false_r.
Qed.

Lemma saveToStorage_written key d σ σ' :
  saveToStorage key d σ = (true, σ') ->
  let item := Json (to_json (envelope (deref (defaults σ) d) (clock σ))) in
  quotaExceeded σ = false
  /\ localStorage σ' = <[key := item]> (localStorage σ)
  /\ trace σ' = trace σ ++ [EvSetItem (clock σ) key item]
  /\ defaults σ' = defaults σ /\ timeouts σ' = timeouts σ
  /\ debounceTimers σ' = debounceTimers σ /\ nextTimer σ' = nextTimer σ
  /\ clock σ' = clock σ /\ quotaExceeded σ' = false
  /\ errorLog σ' = errorLog σ.
Proof.
  unfold saveToStorage, safeJSONStringify, JSON_stringify, setItem.
  destruct (quotaExceeded σ) eqn:E; [done|]. by intros [= <-].
Qed.

Lemma loadSlice_stored s x t σ :
  validator s x = true ->
  localStorage σ !! STORAGE_KEYS s = Some (Json (envelope x t)) ->
  loadSlice s σ = (Local x [], σ).
Proof.
  intros Hvalid Hstored.
  pose proof (validator_is_object _ _ Hvalid) as Hobj.
  unfold loadSlice, loadFromStorage, getItem. rewrite Hstored. simpl.
  apply andb_true_iff in Hobj as [-> _]. simpl. by rewrite Hvalid.
Qed.

(** C3 (as amended). For each of the four slices: when a value passes the
    validator of the slice, survives the JSON codec unchanged (its numbers
    are finite and no property holds [undefined]) and the save succeeds, a
    load that follows answers that value. *)
Theorem save_load_roundtrip (s : slice) (d : ref) (σ σ' : machine) :
  validator s (deref (defaults σ) d) = true ->
  json_clean (deref (defaults σ) d) = true ->
  saveSlice s d σ = (true, σ') ->
  loadSlice s σ' = (Local (deref (defaults σ) d) [], σ').
Proof.
  intros Hvalid Hclean. unfold saveSlice, validateStorageData.
  rewrite Hvalid. simpl. intros Hsave.
  apply saveToStorage_written in Hsave as (_ & Hsto & _).
  apply (loadSlice_stored s _ (clock σ)); [done|].
  rewrite Hsto lookup_insert_eq.
  rewrite to_json_envelope; first by eapply validator_is_object.
  by rewrite to_json_clean.
Qed.

Lemma save_load_roundtrip_witness :
  let σ := boot 0 "k3v9x2a1b" ∅ in
  let d := Local dark_preferences [] in
  validator Preferences (deref (defaults σ) d) = true
  /\ json_clean (deref (defaults σ) d) = true
  /\ (saveUserPreferences d σ).1 = true
  /\ (loadUserPreferences (saveUserPreferences d σ).2).1 = Local dark_preferences [].
Proof.
  intros σ d.
  pose proof (save_load_roundtrip Preferences d σ (saveSlice Preferences d σ).2
                eq_refl eq_refl eq_refl) as H.
  split; [reflexivity | split; [reflexivity | split; [reflexivity|]]].
  exact (f_equal fst H).
Defined.

(** C3 as stated fails: [typeof NaN] is ['number'], so the value below
    passes [validateReadingState] and is saved, but [JSON.stringify] writes
    [null] for it; the load then finds an invalid record and answers the
    sanitized one, in which [totalReadingTime] is [null]. *)
Lemma roundtrip_fails_on_NaN :
  ~ (forall (s : slice) (x : value) (σ σ' : machine),
       validator s x = true ->
       saveSlice s (Local x []) σ = (true, σ') ->
       (loadSlice s σ').1 = Local x []).
Proof.
  intros H.
  pose (σ := boot 0 "k3v9x2a1b" ∅).
  specialize (H ReadingState reading_state_NaN σ
                (saveSlice ReadingState (Local reading_state_NaN []) σ).2
                eq_refl eq_refl).
  vm_compute in H. discriminate H.
Qed.

(** ** Sanitizing *)

Lemma lookup_spread_absent (a b : list (string * value)) f :
  lookup_prop f b = None -> lookup_prop f (spread a b) = lookup_prop f a.
Proof.
  unfold spread. revert a. induction b as [|[k x] b IH]; intros a; simpl; [done|].
  destruct (String.eqb f k) eqn:E; [done|]. intros Hb.
  rewrite IH // lookup_set_prop_ne //.
  intros ->. by rewrite String.eqb_refl in E.
Qed.

Lemma lookup_prop_None {A} f (ps : list (string * A)) :
  lookup_prop f ps = None <-> f ∉ ps.*1.
Proof.
  induction ps as [|[k x] ps IH]; simpl.
  - split; [intros _; apply not_elem_of_nil | done].
  - rewrite not_elem_of_cons. destruct (String.eqb f k) eqn:E.
    + apply String.eqb_eq in E. split; [done | intros [? _]; done].
    + apply String.eqb_neq in E. rewrite IH. tauto.
Qed.

Lemma lookup_spread (a b : list (string * value)) f :
  NoDup b.*1 ->
  lookup_prop f (spread a b)
  = match lookup_prop f b with Some x => Some x | None => lookup_prop f a end.
Proof.
  unfold spread. revert a. induction b as [|[k x] b IH]; intros a; simpl; [done|].
  intros [Hk Hb]%NoDup_cons. rewrite IH //.
  destruct (String.eqb f k) eqn:E.
  - apply String.eqb_eq in E. subst k.
    apply lookup_prop_None in Hk. by rewrite Hk lookup_set_prop_eq.
  - apply String.eqb_neq in E. destruct (lookup_prop f b); [done|].
    by rewrite lookup_set_prop_ne.
Qed.

(** The spread copy made from a plain candidate reads as the merged record:
    the fields it shares with the default object hold what that object
    holds. *)
Lemma deref_sanitized heap s ps :
  deref heap
    (Local (VObj (spread (heap s) ps))
           (filter (fun b => negb (has_prop b.2 ps)) (pointers heap (Global s))))
  = VObj (spread (heap s) ps).
Proof.
  simpl. induction (heap s) as [|[k x] D IH] at 3; simpl; [done|].
  destruct (is_container _) eqn:Ec; simpl; [|done].
  rewrite filter_cons. simpl.
  destruct (has_prop k ps) eqn:Ek; simpl; [done|].
  rewrite IH. simpl. f_equal. apply set_prop_same.
  unfold has_prop in Ek. destruct (lookup_prop k ps) eqn:El; [done|].
  rewrite lookup_spread_absent //.
  by destruct (lookup_prop k (heap s)).
Qed.

Lemma deref_sanitizeData_plain ps s σ :
  deref (defaults σ) (sanitizeData (Local (VObj ps) []) (Global s) σ)
  = VObj (spread (defaults σ s) ps).
Proof. apply (deref_sanitized (defaults σ) s ps). Qed.

Lemma loadSlice_unfold s σ :
  let stored := (loadFromStorage (STORAGE_KEYS s) (Global s) σ).1 in
  let σ1 := (loadFromStorage (STORAGE_KEYS s) (Global s) σ).2 in
  loadSlice s σ =
    (if validator s (deref (defaults σ) stored) then stored
     else sanitizeData stored (Global s) σ, σ1).
Proof.
  unfold loadSlice.
  pose proof (loadFromStorage_defaults (STORAGE_KEYS s) (Global s) σ) as [Hd _].
  destruct (loadFromStorage _ _ σ) as [stored σ1]. simpl in *.
  rewrite Hd. destruct (validator s _); [done|].
  by rewrite /sanitizeData Hd.
Qed.

(** C6. [sanitizeData] merges the candidate over the default, every field
    the candidate has winning over the default's; nothing validates the
    result. So there is a candidate that fails [validatePreferences], here
    one whose theme is outside the enumeration, for which
    [loadUserPreferences] answers a record that still carries that theme and
    fails [validatePreferences] itself. *)
Theorem sanitize_keeps_invalid_enum :
  (forall (s : slice) (ps : list (string * value)) (σ : machine) (f : string),
     NoDup ps.*1 ->
     get_field (deref (defaults σ)
                  (sanitizeData (Local (VObj ps) []) (Global s) σ)) f
     = match lookup_prop f ps with
       | Some x => x
       | None => get_field (VObj (defaults σ s)) f
       end)
  /\ exists c : value,
       validatePreferences c = false
       /\ forall (σ : machine) (t : Z),
            localStorage σ !! STORAGE_KEYS Preferences
              = Some (Json (envelope c t)) ->
            let loaded := deref (defaults σ) (loadUserPreferences σ).1 in
            get_field loaded "theme" = VStr "purple"
            /\ validatePreferences loaded = false.
Proof.
  split.
  - intros s ps σ f Hnd. rewrite deref_sanitizeData_plain.
    simpl. rewrite lookup_spread //. by destruct (lookup_prop f ps).
  - exists purple_theme. split; [done|]. intros σ t Hstored loaded.
    assert (loaded = VObj (spread (defaults σ Preferences) [("theme", VStr "purple")]))
      as ->.
    { unfold loaded, loadUserPreferences. rewrite loadSlice_unfold.
      rewrite loadFromStorage_result /stored_doc /getItem Hstored.
      apply (deref_sanitizeData_plain [("theme", VStr "purple")]). }
    assert (get_field (VObj (spread (defaults σ Preferences)
                               [("theme", VStr "purple")])) "theme"
            = VStr "purple") as Htheme.
    { cbn [get_field]. rewrite lookup_spread; [apply NoDup_singleton|done]. }
    split; [done|]. unfold validatePreferences. by rewrite Htheme.
Qed.

Lemma sanitize_keeps_invalid_enum_witness :
  let σ := boot 0 "k3v9x2a1b" ∅ in
  NoDup [("theme", VStr "purple")].*1
  /\ get_field (deref (defaults σ)
                  (sanitizeData (Local purple_theme []) (Global Preferences) σ))
               "theme" = VStr "purple".
Proof.
  intros σ.
  assert (NoDup [("theme", VStr "purple")].*1) as Hnd by apply NoDup_singleton.
  split; [exact Hnd|].
  exact (proj1 sanitize_keeps_invalid_enum Preferences
           [("theme", VStr "purple")] σ "theme" Hnd).
Defined.

(** ** Retrying *)

Lemma retry_events_app tr tr' :
  retry_events (tr ++ tr') = retry_events tr ++ retry_events tr'.
Proof. apply filter_app. Qed.

Lemma setItem_retry_events key item σ :
  retry_events (trace (setItem key item σ).2) = retry_events (trace σ).
Proof.
  unfold setItem. destruct (quotaExceeded σ); simpl; [done|].
  by rewrite retry_events_app /= app_nil_r.
Qed.

Lemma storeCriticalError_retry_events error σ :
  retry_events (trace (storeCriticalError error σ)) = retry_events (trace σ).
Proof.
  unfold storeCriticalError.
  destruct (match getItem critical_errors_key σ with
            | Some item => _ | None => _ end) as [[| | | | |l|]|]; try done.
  simpl. by rewrite setItem_retry_events.
Qed.

Lemma createError_retry_events c msg op d σ :
  retry_events (trace (createError c msg op d σ).2) = retry_events (trace σ).
Proof.
  unfold createError, logError; simpl. destruct (isRecoverable c); [done|].
  by rewrite storeCriticalError_retry_events.
Qed.

Lemma freeUpStorage_retry_events σ :
  retry_events (trace (freeUpStorage σ)) = retry_events (trace σ).
Proof.
  unfold freeUpStorage.
  destruct (match getItem critical_errors_key σ with
            | Some item => _ | None => _ end) as [[| | | |s|l|ps]|]; try done.
  - destruct (_ <? _)%nat; [|done].
    pose proof (setItem_retry_events critical_errors_key
                  (Json (VStr (String.substring (String.length s - 5) 5 s))) σ).
    by destruct (setItem _ _ σ) as [[]].
  - destruct (_ <? _)%nat; [|done]. simpl.
    pose proof (setItem_retry_events critical_errors_key
                  (Json (VArr (map to_json (drop (length l - 5) l)))) σ).
    by destruct (setItem _ _ σ) as [[]].
  - by destruct (exceeds5 _).
Qed.

Lemma saveToStorage_retry_events key d σ :
  retry_events (trace (saveToStorage key d σ).2) = retry_events (trace σ).
Proof.
  unfold saveToStorage, safeJSONStringify, JSON_stringify.
  pose proof (setItem_retry_events key
    (Json (to_json (VObj [("data", deref (defaults σ) d); ("version", VStr VERSION);
                          ("timestamp", VStr (toISOString (clock σ)))]))) σ).
  by destruct (setItem _ _ σ) as [[]].
Qed.

Lemma fire_retry_events t σ :
  retry_events (trace (fire t σ)) = retry_events (trace σ).
Proof. unfold fire. simpl. by rewrite saveToStorage_retry_events. Qed.

Lemma run_timers_retry_events fuel until σ :
  retry_events (trace (run_timers fuel until σ)) = retry_events (trace σ).
Proof.
  revert σ. induction fuel as [|fuel IH]; intros σ; simpl; [done|].
  destruct (earliest (timeouts σ)) as [t|]; [|done].
  destruct (due t <=? until); [|done]. by rewrite IH fire_retry_events.
Qed.

Lemma advance_retry_events until σ :
  retry_events (trace (advance until σ)) = retry_events (trace σ).
Proof. unfold advance. simpl. apply run_timers_retry_events. Qed.

Lemma sleep_retry_events ms σ :
  retry_events (trace (Retry.sleep ms σ)) = retry_events (trace σ) ++ [EvSleep ms].
Proof.
  unfold Retry.sleep. rewrite advance_retry_events. simpl.
  by rewrite retry_events_app.
Qed.

Lemma same_env_refl σ : same_env σ σ.
Proof. done. Qed.

Lemma same_env_trans σ1 σ2 σ3 : same_env σ1 σ2 -> same_env σ2 σ3 -> same_env σ1 σ3.
Proof. intros [? ?] [? ?]. split; congruence. Qed.

Lemma setItem_env key item σ : same_env σ (setItem key item σ).2.
Proof. unfold setItem. by destruct (quotaExceeded σ) eqn:E. Qed.

Lemma storeCriticalError_env error σ : same_env σ (storeCriticalError error σ).
Proof.
  unfold storeCriticalError.
  destruct (match getItem critical_errors_key σ with
            | Some item => _ | None => _ end) as [[| | | | |l|]|]; try done.
  apply setItem_env.
Qed.

Lemma createError_env c msg op d σ : same_env σ (createError c msg op d σ).2.
Proof.
  unfold createError, logError; simpl. destruct (isRecoverable c); [done|].
  eapply same_env_trans; [|apply storeCriticalError_env]. done.
Qed.

Lemma freeUpStorage_env σ : same_env σ (freeUpStorage σ).
Proof.
  unfold freeUpStorage.
  destruct (match getItem critical_errors_key σ with
            | Some item => _ | None => _ end) as [[| | | |s|l|ps]|]; try done.
  - destruct (_ <? _)%nat; [|done].
    pose proof (setItem_env critical_errors_key
                  (Json (VStr (String.substring (String.length s - 5) 5 s))) σ).
    by destruct (setItem _ _ σ) as [[]].
  - destruct (_ <? _)%nat; [|done]. simpl.
    pose proof (setItem_env critical_errors_key
                  (Json (VArr (map to_json (drop (length l - 5) l)))) σ).
    by destruct (setItem _ _ σ) as [[]].
  - by destruct (exceeds5 _).
Qed.

Lemma saveToStorage_env key d σ : same_env σ (saveToStorage key d σ).2.
Proof.
  unfold saveToStorage, safeJSONStringify, JSON_stringify.
  pose proof (setItem_env key
    (Json (to_json (VObj [("data", deref (defaults σ) d); ("version", VStr VERSION);
                          ("timestamp", VStr (toISOString (clock σ)))]))) σ).
  by destruct (setItem _ _ σ) as [[]].
Qed.

Lemma fire_env t σ : same_env σ (fire t σ).
Proof.
  unfold fire.
  set (σ0 := with_clock _ _).
  destruct (saveToStorage_env (tkey t) (tdata t) σ0) as [HQ HD]. by split.
Qed.

Lemma run_timers_env fuel until σ : same_env σ (run_timers fuel until σ).
Proof.
  revert σ. induction fuel as [|fuel IH]; intros σ; simpl; [done|].
  destruct (earliest (timeouts σ)) as [t|]; [|done].
  destruct (due t <=? until); [|done].
  eapply same_env_trans; [apply fire_env | apply IH].
Qed.

Lemma advance_env until σ : same_env σ (advance until σ).
Proof. unfold advance. destruct (run_timers_env (length (timeouts σ)) until σ). by split. Qed.

Lemma sleep_env ms σ : same_env σ (Retry.sleep ms σ).
Proof.
  unfold Retry.sleep.
  destruct (advance_env (clock σ + ms) (with_trace (trace σ ++ [EvSleep ms]) σ)).
  by split.
Qed.

Section QuotaExceeded.
Context {T : Type}.
Variable operation : machine -> completion T * machine.
Variable operationName : string.
Variable fallback : machine -> completion T * machine.
Variable maxRetries : nat.
Variable v : T.

(** While the storage refuses writes, the operation raises the quota
    error; neither it nor the fallback retries, sleeps, or lifts the
    refusal. *)
Hypothesis operation_fails : forall σ, quotaExceeded σ = true ->
  exists code name,
    Retry.is_quota code name = true
    /\ (operation σ).1 = Throw (DOMException code name).
Hypothesis operation_quiet : forall σ,
  retry_events (trace (operation σ).2) = retry_events (trace σ)
  /\ quotaExceeded (operation σ).2 = quotaExceeded σ.
Hypothesis fallback_returns : forall σ, (fallback σ).1 = Normal v.
Hypothesis fallback_quiet : forall σ,
  retry_events (trace (fallback σ).2) = retry_events (trace σ).

Lemma attempts_quota remaining attempt lastError σ :
  quotaExceeded σ = true ->
  (0 < remaining)%nat -> (attempt + remaining = S maxRetries)%nat ->
  let r := Retry.attempts operation operationName (Some fallback) maxRetries
             remaining attempt lastError σ in
  r.1 = Normal v
  /\ retry_events (trace r.2)
     = retry_events (trace σ) ++ backoff_schedule operationName attempt remaining.
Proof.
  revert attempt lastError σ.
  induction remaining as [|remaining IH]; intros attempt lastError σ HQ Hpos Hsum;
    [lia|].
  simpl.
  set (σa := with_trace _ σ).
  destruct (operation_fails σa HQ) as (code & name & Hq & Hop).
  pose proof (operation_quiet σa) as [Hquiet HQ1].
  destruct (operation σa) as [res σ1]. simpl in Hop, Hquiet, HQ1. subst res.
  rewrite Hq.
  set (σ2 := (createError QUOTA_EXCEEDED "Storage quota exceeded"
                operationName VUndefined σ1).2).
  assert (retry_events (trace σ2)
          = retry_events (trace σ) ++ [EvAttempt operationName attempt]) as Hσ2.
  { unfold σ2. rewrite createError_retry_events Hquiet /σa /=.
    by rewrite retry_events_app. }
  assert (quotaExceeded σ2 = true) as HQ2.
  { unfold σ2.
    destruct (createError_env QUOTA_EXCEEDED "Storage quota exceeded"
                operationName VUndefined σ1) as [-> _].
    by rewrite HQ1. }
  destruct remaining as [|remaining].
  - assert (attempt = maxRetries) as -> by lia. rewrite Nat.eqb_refl.
    split; [apply fallback_returns|]. by rewrite fallback_quiet Hσ2.
  - assert ((attempt =? maxRetries)%nat = false) as ->
      by (apply Nat.eqb_neq; lia).
    assert ((attempt <? maxRetries)%nat = true) as ->
      by (apply Nat.ltb_lt; lia).
    destruct (IH (S attempt) (Some (DOMException code name))
                (Retry.sleep (2 ^ Z.of_nat attempt * 100) (freeUpStorage σ2)))
      as [Hres Htr]; [|lia|lia|].
    { destruct (sleep_env (2 ^ Z.of_nat attempt * 100) (freeUpStorage σ2))
        as [-> _].
      destruct (freeUpStorage_env σ2) as [-> _]. exact HQ2. }
    split; [exact Hres|]. rewrite Htr sleep_retry_events.
    rewrite freeUpStorage_retry_events Hσ2 -!app_assoc. done.
Qed.
End QuotaExceeded.

(** C7. A storage operation that raises the quota error at every attempt,
    handed to [handleStorageOperation] with a fallback and the default limit
    of three attempts, is attempted three times, with sleeps of 200 ms and
    400 ms in between, and the call then answers the value of the fallback
    instead of raising. *)
Theorem quota_exceeded_falls_back {T : Type}
    (operation fallback : machine -> completion T * machine)
    (operationName : string) (v : T) (σ : machine) :
  quotaExceeded σ = true ->
  (forall σ, quotaExceeded σ = true ->
     exists code name,
       Retry.is_quota code name = true
       /\ (operation σ).1 = Throw (DOMException code name)) ->
  (forall σ, retry_events (trace (operation σ).2) = retry_events (trace σ)
             /\ quotaExceeded (operation σ).2 = quotaExceeded σ) ->
  (forall σ, (fallback σ).1 = Normal v) ->
  (forall σ, retry_events (trace (fallback σ).2) = retry_events (trace σ)) ->
  let r := Retry.handleStorageOperation operation operationName (Some fallback)
             3 σ in
  r.1 = Normal v
  /\ retry_events (trace r.2)
     = retry_events (trace σ)
       ++ [EvAttempt operationName 1; EvSleep 200;
           EvAttempt operationName 2; EvSleep 400;
           EvAttempt operationName 3].
Proof.
  intros HQ Hfails Hquiet Hfb Hfbq.
  exact (attempts_quota operation operationName fallback 3 v
           Hfails Hquiet Hfb Hfbq 3 1 None σ HQ ltac:(lia) eq_refl).
Qed.

Lemma quota_exceeded_falls_back_witness :
  let op := raw_write "novel-preferences" (Json VNull) in
  let fb := fun σ : machine => (Normal false, σ) in
  quotaExceeded full_storage = true
  /\ (Retry.handleStorageOperation op "save" (Some fb) 3 full_storage).1
     = Normal false
  /\ retry_events
       (trace (Retry.handleStorageOperation op "save" (Some fb) 3 full_storage).2)
     = [EvAttempt "save" 1; EvSleep 200; EvAttempt "save" 2; EvSleep 400;
        EvAttempt "save" 3].
Proof.
  intros op fb. split; [reflexivity|].
  apply (quota_exceeded_falls_back op fb "save" false full_storage eq_refl).
  - intros σ HQ. exists 22, "QuotaExceededError".
    split; [reflexivity|]. unfold op, raw_write, setItem. by rewrite HQ.
  - intros σ. unfold op, raw_write.
    pose proof (setItem_retry_events "novel-preferences" (Json VNull) σ) as Htr.
    destruct (setItem_env "novel-preferences" (Json VNull) σ) as [HQ _].
    by destruct (setItem _ _ σ) as [[]].
  - reflexivity.
  - reflexivity.
Defined.

(** ** Timers *)

Lemma writes_to_app key tr tr' :
  writes_to key (tr ++ tr') = writes_to key tr ++ writes_to key tr'.
Proof. apply filter_app. Qed.

Lemma saveToStorage_unfold key d σ :
  saveToStorage key d σ =
    if quotaExceeded σ then (false, σ)
    else
      let item := Json (to_json (envelope (deref (defaults σ) d) (clock σ))) in
      (true, with_trace (trace σ ++ [EvSetItem (clock σ) key item])
               (with_localStorage (<[key := item]> (localStorage σ)) σ)).
Proof.
  unfold saveToStorage, safeJSONStringify, JSON_stringify, setItem.
  by destruct (quotaExceeded σ).
Qed.

Lemma fire_unfold t σ :
  let now := Z.max (clock σ) (due t) in
  let rest := filter (fun t' => negb (Pos.eqb (tid t') (tid t))) (timeouts σ) in
  let item := Json (to_json (envelope (deref (defaults σ) (tdata t)) now)) in
  timeouts (fire t σ) = rest
  /\ debounceTimers (fire t σ) = delete (tkey t) (debounceTimers σ)
  /\ nextTimer (fire t σ) = nextTimer σ
  /\ clock (fire t σ) = now
  /\ localStorage (fire t σ)
     = (if quotaExceeded σ then localStorage σ
        else <[tkey t := item]> (localStorage σ))
  /\ trace (fire t σ)
     = (if quotaExceeded σ then trace σ
        else trace σ ++ [EvSetItem now (tkey t) item]).
Proof.
  unfold fire. rewrite saveToStorage_unfold. simpl.
  by destruct (quotaExceeded σ).
Qed.

Lemma earliest_elem ts t : earliest ts = Some t -> t ∈ ts.
Proof.
  revert t. induction ts as [|t0 ts IH]; intros t; simpl; [done|].
  destruct (earliest ts) as [t'|].
  - destruct (due t' <? due t0); intros [= <-].
    + apply list_elem_of_further. by apply IH.
    + apply list_elem_of_here.
  - intros [= <-]. apply list_elem_of_here.
Qed.

Lemma earliest_min ts t : earliest ts = Some t -> forall t', t' ∈ ts -> due t <= due t'.
Proof.
  revert t. induction ts as [|t0 ts IH]; intros t; simpl; [done|].
  destruct (earliest ts) as [t1|] eqn:E.
  - destruct (due t1 <? due t0) eqn:Hlt; intros [= <-] t' [->|Hin]%elem_of_cons.
    + apply Z.ltb_lt in Hlt. lia.
    + by apply IH.
    + lia.
    + apply Z.ltb_ge in Hlt. specialize (IH t1 eq_refl t' Hin). lia.
  - intros [= <-] t' [->|Hin]%elem_of_cons; [lia|].
    destruct ts; [by apply elem_of_nil in Hin|]. simpl in E.
    by destruct (earliest ts) as [t2|]; [destruct (due t2 <? due t)|].
Qed.

Lemma earliest_nonempty ts : ts <> [] -> is_Some (earliest ts).
Proof.
  destruct ts as [|t ts]; [done|]. intros _. simpl.
  destruct (earliest ts) as [t'|]; [destruct (due t' <? due t)|]; eauto.
Qed.

Lemma tid_unique ts t t' :
  NoDup (tid <$> ts) -> t ∈ ts -> t' ∈ ts -> tid t = tid t' -> t = t'.
Proof.
  induction ts as [|t0 ts IH]; simpl; [by intros _ ?%elem_of_nil|].
  intros [Hnotin Hnd]%NoDup_cons [->|Hin]%elem_of_cons [->|Hin']%elem_of_cons Heq;
    auto.
  - exfalso. apply Hnotin. rewrite Heq. by apply list_elem_of_fmap_2.
  - exfalso. apply Hnotin. rewrite -Heq. by apply list_elem_of_fmap_2.
Qed.

Lemma elem_of_remaining (ts : list timeout) t t' :
  t' ∈ filter (fun x => negb (Pos.eqb (tid x) (tid t))) ts
  <-> t' ∈ ts /\ tid t' <> tid t.
Proof.
  rewrite list_elem_of_filter. split; intros [H1 H2]; split; try done.
  - intros Heq. rewrite Heq Pos.eqb_refl in H1. done.
  - apply negb_prop_intro. intros H%Is_true_eq_true%Pos.eqb_eq. done.
Qed.

Lemma fire_wf t σ : timers_wf σ -> t ∈ timeouts σ -> timers_wf (fire t σ).
Proof.
  intros (Hnd & Hreg & Hids) Hin.
  destruct (fire_unfold t σ) as (Hts & Hdt & Hnt & _).
  split; [|split].
  - rewrite Hts. apply NoDup_fmap_2_strong; [|by eapply NoDup_filter, NoDup_fmap_1].
    intros x y [Hx _]%elem_of_remaining [Hy _]%elem_of_remaining.
    by apply (tid_unique (timeouts σ)).
  - intros t'. rewrite Hts Hdt. intros [Hin' Hne]%elem_of_remaining.
    rewrite lookup_delete_ne; [|by apply Hreg].
    intros Hk. pose proof (Hreg t Hin) as Hr. pose proof (Hreg t' Hin') as Hr'.
    rewrite Hk Hr' in Hr. congruence.
  - intros k id. rewrite Hts Hdt Hnt.
    intros [Hk Hlook]%lookup_delete_Some.
    destruct (Hids k id Hlook) as [Hlt Hown]. split; [done|].
    intros t' [Hin' _]%elem_of_remaining. by apply Hown.
Qed.

Ltac split_frame :=
  repeat match goal with |- _ /\ _ => split end; try done; try lia.

Lemma fire_other key t σ :
  tkey t <> key ->
  localStorage (fire t σ) !! key = localStorage σ !! key
  /\ writes_to key (trace (fire t σ)) = writes_to key (trace σ)
  /\ debounceTimers (fire t σ) !! key = debounceTimers σ !! key.
Proof.
  intros Hne. destruct (fire_unfold t σ) as (_ & -> & _ & _ & -> & ->).
  rewrite lookup_delete_ne //.
  destruct (quotaExceeded σ); [done|].
  rewrite lookup_insert_ne // writes_to_app /=.
  apply String.eqb_neq in Hne. rewrite /writes_to filter_cons /= Hne.
  by rewrite filter_nil app_nil_r.
Qed.

Lemma filter_remaining_length (ts : list timeout) t :
  t ∈ ts ->
  (length (filter (fun x => negb (Pos.eqb (tid x) (tid t))) ts) < length ts)%nat.
Proof.
  induction ts as [|t0 ts IH]; [by intros ?%elem_of_nil|].
  rewrite filter_cons. intros [->|Hin]%elem_of_cons.
  - rewrite Pos.eqb_refl /=.
    pose proof (length_filter (fun x => negb (Pos.eqb (tid x) (tid t0))) ts).
    simpl in *. lia.
  - specialize (IH Hin). destruct (decide _); simpl; lia.
Qed.

(** Timeouts of other keys leave a key alone. *)
Lemma run_timers_idle key fuel until σ :
  (forall t, t ∈ timeouts σ -> tkey t <> key) ->
  let σ' := run_timers fuel until σ in
  localStorage σ' !! key = localStorage σ !! key
  /\ writes_to key (trace σ') = writes_to key (trace σ)
  /\ debounceTimers σ' !! key = debounceTimers σ !! key
  /\ (forall t, t ∈ timeouts σ' -> tkey t <> key).
Proof.
  revert σ. induction fuel as [|fuel IH]; intros σ Hother; simpl; [done|].
  destruct (earliest (timeouts σ)) as [t|] eqn:E; [|done].
  destruct (due t <=? until); [|done].
  pose proof (Hother t (earliest_elem _ _ E)) as Hne.
  destruct (fire_other key t σ Hne) as (HL & HW & HD).
  destruct (IH (fire t σ)) as (HL' & HW' & HD' & HT').
  { destruct (fire_unfold t σ) as (-> & _).
    intros t' [Hin _]%elem_of_remaining. by apply Hother. }
  rewrite HL' HW' HD'. done.
Qed.

(** A timeout that is not yet due stays pending, and its key is left alone. *)
Lemma run_timers_pending t0 fuel until σ :
  timers_wf σ -> t0 ∈ timeouts σ -> until < due t0 ->
  let σ' := run_timers fuel until σ in
  timers_wf σ' /\ t0 ∈ timeouts σ'
  /\ localStorage σ' !! tkey t0 = localStorage σ !! tkey t0
  /\ writes_to (tkey t0) (trace σ') = writes_to (tkey t0) (trace σ)
  /\ clock σ' <= Z.max (clock σ) until
  /\ nextTimer σ' = nextTimer σ.
Proof.
  revert σ. induction fuel as [|fuel IH]; intros σ Hwf Hin Hlate; simpl.
  { split_frame. }
  destruct (earliest (timeouts σ)) as [t|] eqn:E; [|split_frame].
  destruct (due t <=? until) eqn:Hdue; [|split_frame].
  apply Z.leb_le in Hdue.
  pose proof (earliest_elem _ _ E) as Hint.
  assert (tid t0 <> tid t) as Hid.
  { intros Heq. destruct Hwf as [Hnd _].
    pose proof (tid_unique _ _ _ Hnd Hin Hint Heq). subst. lia. }
  assert (tkey t <> tkey t0) as Hkey.
  { intros Heq. destruct Hwf as (_ & Hreg & _).
    pose proof (Hreg t Hint) as H1. pose proof (Hreg t0 Hin) as H2.
    rewrite Heq H2 in H1. congruence. }
  destruct (fire_other (tkey t0) t σ Hkey) as (HL & HW & _).
  destruct (fire_unfold t σ) as (Hts & _ & Hnt & Hclock & _).
  destruct (IH (fire t σ)) as (Hwf' & Hin' & HL' & HW' & Hc' & Hn');
    [by apply fire_wf | by rewrite Hts; apply elem_of_remaining | done |].
  rewrite HL' HW' Hn'. split_frame.
Qed.

(** A timeout that is due fires once, at its due instant, and writes the
    data it holds under its key. *)
Lemma run_timers_due t0 fuel until σ :
  timers_wf σ -> t0 ∈ timeouts σ -> due t0 <= until -> clock σ <= due t0 ->
  quotaExceeded σ = false -> (length (timeouts σ) <= fuel)%nat ->
  let σ' := run_timers fuel until σ in
  let item := Json (to_json (envelope (deref (defaults σ) (tdata t0)) (due t0))) in
  localStorage σ' !! tkey t0 = Some item
  /\ writes_to (tkey t0) (trace σ')
     = writes_to (tkey t0) (trace σ) ++ [EvSetItem (due t0) (tkey t0) item]
  /\ debounceTimers σ' !! tkey t0 = None
  /\ (forall t, t ∈ timeouts σ' -> tkey t <> tkey t0).
Proof.
  revert σ. induction fuel as [|fuel IH]; intros σ Hwf Hin Hdue Hclock HQ Hfuel.
  { destruct (timeouts σ); [by apply elem_of_nil in Hin | simpl in Hfuel; lia]. }
  simpl.
  destruct (earliest_nonempty (timeouts σ)) as [t E].
  { intros Hnil. rewrite Hnil in Hin. by apply elem_of_nil in Hin. }
  rewrite E.
  pose proof (earliest_elem _ _ E) as Hint.
  pose proof (earliest_min _ _ E t0 Hin) as Hmin.
  assert ((due t <=? until) = true) as -> by (apply Z.leb_le; lia).
  destruct (fire_unfold t σ) as (Hts & Hdt & Hnt & Hclk & Hsto & Htr).
  destruct (fire_env t σ) as [HQ' HD'].
  destruct (decide (tid t0 = tid t)) as [Heq|Hid].
  - (* the timeout itself fires *)
    assert (t = t0) as ->.
    { destruct Hwf as [Hnd _]. symmetry. by apply (tid_unique (timeouts σ)). }
    clear Heq.
    destruct (run_timers_idle (tkey t0) fuel until (fire t0 σ))
      as (HL & HW & HDT & HT).
    { rewrite Hts. intros t' [Hin' Hid]%elem_of_remaining Hkey.
      destruct Hwf as (_ & Hreg & _).
      pose proof (Hreg t' Hin') as H1. pose proof (Hreg t0 Hin) as H2.
      rewrite Hkey H2 in H1. congruence. }
    rewrite HL HW HDT Hsto Htr Hdt HQ.
    rewrite lookup_insert_eq lookup_delete_eq writes_to_app.
    replace (Z.max (clock σ) (due t0)) with (due t0) by lia.
    split_frame.
    by rewrite /writes_to (filter_cons _ (EvSetItem _ _ _)) /= String.eqb_refl.
  - (* another timeout fires first *)
    assert (tkey t <> tkey t0) as Hkey.
    { intros Heq. destruct Hwf as (_ & Hreg & _).
      pose proof (Hreg t Hint) as H1. pose proof (Hreg t0 Hin) as H2.
      rewrite Heq H2 in H1. congruence. }
    destruct (fire_other (tkey t0) t σ Hkey) as (HL & HW & _).
    destruct (IH (fire t σ)) as (HL' & HW' & HD'' & HT').
    + by apply fire_wf.
    + rewrite Hts. by apply elem_of_remaining.
    + done.
    + rewrite Hclk. lia.
    + by rewrite HQ'.
    + rewrite Hts. pose proof (filter_remaining_length _ _ Hint). lia.
    + rewrite HL' HW' HD'' HD' HW. done.
Qed.

(** Cancelling the timeout registered for a key removes the timeouts of that
    key and no other. *)
Lemma cancel_pending key σ :
  timers_wf σ ->
  let σ1 := match debounceTimers σ !! key with
            | Some existingTimer => clearTimeout existingTimer σ
            | None => σ
            end in
  (forall t, t ∈ timeouts σ1 <-> t ∈ timeouts σ /\ tkey t <> key)
  /\ NoDup (tid <$> timeouts σ1)
  /\ debounceTimers σ1 = debounceTimers σ /\ nextTimer σ1 = nextTimer σ
  /\ clock σ1 = clock σ /\ localStorage σ1 = localStorage σ
  /\ trace σ1 = trace σ /\ same_env σ σ1.
Proof.
  intros (Hnd & Hreg & Hids).
  destruct (debounceTimers σ !! key) as [id|] eqn:E; simpl.
  - split_frame.
    + intros t. rewrite list_elem_of_filter. split.
      * intros [Hid Hin]. split; [done|]. intros Hk.
        pose proof (Hreg t Hin) as Hr. rewrite Hk E in Hr.
        injection Hr as ->. by rewrite Pos.eqb_refl in Hid.
      * intros [Hin Hk]. split; [|done].
        apply negb_prop_intro. intros Hid%Is_true_eq_true%Pos.eqb_eq.
        destruct (Hids key id E) as [_ Hown]. by apply Hk, Hown.
    + apply NoDup_fmap_2_strong; [|by eapply NoDup_filter, NoDup_fmap_1].
      intros x y [_ Hx]%list_elem_of_filter [_ Hy]%list_elem_of_filter.
      by apply (tid_unique (timeouts σ)).
  - split_frame. intros t. split; [|by intros [? _]].
    intros Hin. split; [done|]. intros Hk.
    pose proof (Hreg t Hin) as Hr. rewrite Hk E in Hr. done.
Qed.

Lemma debouncedSave_spec key d delay σ :
  timers_wf σ ->
  let σ' := debouncedSave key d delay σ in
  timers_wf σ'
  /\ (forall t, t ∈ timeouts σ' <->
        t = new_timeout key d delay σ \/ (t ∈ timeouts σ /\ tkey t <> key))
  /\ clock σ' = clock σ /\ localStorage σ' = localStorage σ
  /\ trace σ' = trace σ /\ same_env σ σ'.
Proof.
  intros Hwf. pose proof Hwf as (Hnd & Hreg & Hids).
  destruct (cancel_pending key σ Hwf)
    as (Hts & Hnd1 & Hdt & Hnt & Hclk & Hsto & Htr & HQ & HD).
  unfold debouncedSave.
  set (σ1 := match debounceTimers σ !! key with
             | Some existingTimer => clearTimeout existingTimer σ
             | None => σ end) in *.
  simpl. rewrite Hnt Hclk Hdt.
  assert (forall t, t ∈ timeouts σ -> (tid t < nextTimer σ)%positive) as Hlt.
  { intros t Hin. by destruct (Hids _ _ (Hreg t Hin)). }
  split_frame; [split; [|split]; simpl|].
  - (* identifiers stay distinct *)
    rewrite fmap_app. apply NoDup_app. split; [done|]. split; [|apply NoDup_singleton].
    intros id (t & -> & Hin)%list_elem_of_fmap_1 Heq%list_elem_of_singleton.
    apply Hts in Hin as [Hin _]. specialize (Hlt t Hin). simpl in Heq. lia.
  - (* pending timeouts are registered *)
    intros t [Hin| ->%list_elem_of_singleton]%elem_of_app.
    + apply Hts in Hin as [Hin Hk]. rewrite lookup_insert_ne; [done|]. by apply Hreg.
    + simpl. by rewrite lookup_insert_eq.
  - (* registered identifiers belong to their key *)
    intros k id Hlook. destruct (decide (key = k)) as [<-|Hk].
    + rewrite lookup_insert_eq in Hlook. injection Hlook as <-. split; [lia|].
      intros t [Hin| ->%list_elem_of_singleton]%elem_of_app Hid; [|done].
      apply Hts in Hin as [Hin _]. specialize (Hlt t Hin). lia.
    + rewrite lookup_insert_ne in Hlook; [done|].
      destruct (Hids k id Hlook) as [Hid Hown]. split; [lia|].
      intros t [Hin| ->%list_elem_of_singleton]%elem_of_app Heq.
      * apply Hts in Hin as [Hin _]. by apply Hown.
      * simpl in Heq. lia.
  - intros t. rewrite elem_of_app list_elem_of_singleton Hts.
    unfold new_timeout. tauto.
Qed.

(** A debounced save for one key cancels no pending timeout of another
    key. *)
Lemma debouncedSave_other_keys key d delay σ t :
  timers_wf σ -> t ∈ timeouts σ -> tkey t <> key ->
  t ∈ timeouts (debouncedSave key d delay σ).
Proof.
  intros Hwf Hin Hk. destruct (debouncedSave_spec key d delay σ Hwf) as (_ & Hts & _).
  apply Hts. by right.
Qed.

Lemma advance_wf until σ : timers_wf σ -> timers_wf (advance until σ).
Proof.
  intros Hwf. unfold advance.
  set (fuel := length (timeouts σ)). clearbody fuel.
  enough (timers_wf (run_timers fuel until σ)) as H by exact H.
  revert σ Hwf. induction fuel as [|fuel IH]; intros σ Hwf; simpl; [done|].
  destruct (earliest (timeouts σ)) as [t|] eqn:E; [|done].
  destruct (due t <=? until); [|done].
  apply IH, fire_wf; [done|]. by eapply earliest_elem.
Qed.

Lemma advance_pending t0 until σ :
  timers_wf σ -> t0 ∈ timeouts σ -> until < due t0 -> clock σ <= until ->
  let σ' := advance until σ in
  timers_wf σ' /\ t0 ∈ timeouts σ'
  /\ localStorage σ' !! tkey t0 = localStorage σ !! tkey t0
  /\ writes_to (tkey t0) (trace σ') = writes_to (tkey t0) (trace σ)
  /\ clock σ' = until /\ same_env σ σ'.
Proof.
  intros Hwf Hin Hlate Hclk. unfold advance.
  destruct (run_timers_pending t0 (length (timeouts σ)) until σ Hwf Hin Hlate)
    as (Hwf' & Hin' & HL & HW & Hc & _).
  destruct (run_timers_env (length (timeouts σ)) until σ) as [HQ HD].
  simpl. split_frame.
Qed.

Lemma advance_due t0 until σ :
  timers_wf σ -> t0 ∈ timeouts σ -> due t0 <= until -> clock σ <= due t0 ->
  quotaExceeded σ = false ->
  let σ' := advance until σ in
  let item := Json (to_json (envelope (deref (defaults σ) (tdata t0)) (due t0))) in
  localStorage σ' !! tkey t0 = Some item
  /\ writes_to (tkey t0) (trace σ')
     = writes_to (tkey t0) (trace σ) ++ [EvSetItem (due t0) (tkey t0) item]
  /\ debounceTimers σ' !! tkey t0 = None
  /\ (forall t, t ∈ timeouts σ' -> tkey t <> tkey t0).
Proof.
  intros Hwf Hin Hdue Hclk HQ. unfold advance. simpl.
  by apply run_timers_due.
Qed.

Lemma advance_idle key until σ :
  (forall t, t ∈ timeouts σ -> tkey t <> key) ->
  let σ' := advance until σ in
  localStorage σ' !! key = localStorage σ !! key
  /\ writes_to key (trace σ') = writes_to key (trace σ)
  /\ (forall t, t ∈ timeouts σ' -> tkey t <> key).
Proof.
  intros Hother. unfold advance. simpl.
  destruct (run_timers_idle key (length (timeouts σ)) until σ Hother)
    as (? & ? & _ & ?). done.
Qed.

Lemma advance_clock until σ : clock σ <= until -> clock (advance until σ) = until.
Proof.
  intros Hclk. unfold advance. simpl.
  enough (forall fuel σ, clock σ <= until -> clock (run_timers fuel until σ) <= until)
    as H by (specialize (H (length (timeouts σ)) σ Hclk); lia).
  clear. induction fuel as [|fuel IH]; intros σ Hclk; simpl; [done|].
  destruct (earliest (timeouts σ)) as [t|]; [|done].
  destruct (due t <=? until) eqn:Hdue; [|done]. apply Z.leb_le in Hdue.
  apply IH. destruct (fire_unfold t σ) as (_ & _ & _ & -> & _). lia.
Qed.

(** ** Coalescing of debounced saves *)

Lemma debouncedSave_arms key d delay σ :
  timers_wf σ -> quotaExceeded σ = false -> 0 <= delay ->
  armed key d (clock σ + delay) (debouncedSave key d delay σ).
Proof.
  intros Hwf HQ Hdelay.
  destruct (debouncedSave_spec key d delay σ Hwf) as (Hwf' & Hts & _ & _ & _ & HQ' & _).
  split; [done|]. split; [by rewrite HQ'|].
  exists (new_timeout key d delay σ). split; [apply Hts; by left|].
  simpl. split_frame.
Qed.

Lemma burst_armed key delay rest :
  forall (at_ : Z) (d : ref) (σ : machine) (until : Z),
    0 <= delay ->
    armed key d (at_ + delay) σ -> clock σ = at_ -> chained delay at_ rest ->
    let final := last_call (at_, d) rest in
    final.1 + delay <= until ->
    let σ' := advance until (burst key delay rest σ) in
    let item :=
      Json (to_json (envelope (deref (defaults σ) final.2) (final.1 + delay))) in
    localStorage σ' !! key = Some item
    /\ writes_to key (trace σ')
       = writes_to key (trace σ) ++ [EvSetItem (final.1 + delay) key item].
Proof.
  induction rest as [|[at' d'] rest IH];
    intros at_ d σ until Hdelay (Hwf & HQ & t0 & Hin & Hkey & Hdata & Hdue)
           Hclk Hchain; simpl.
  - intros Huntil.
    destruct (advance_due t0 until σ Hwf Hin) as (HL & HW & _); [lia|lia|done|].
    rewrite Hkey Hdata Hdue in HL HW. done.
  - destruct Hchain as [Hgap Hchain].
    destruct (advance_pending t0 at' σ Hwf Hin) as (Hwf1 & Hin1 & HL1 & HW1 & Hc1 & HQ1 & HD1);
      [lia|lia|].
    set (σ1 := advance at' σ) in *.
    pose proof (debouncedSave_arms key d' delay σ1 Hwf1) as Harmed.
    rewrite Hc1 in Harmed.
    destruct (debouncedSave_spec key d' delay σ1 Hwf1)
      as (_ & _ & Hc2 & _ & Htr2 & _ & HD2).
    set (σ2 := debouncedSave key d' delay σ1) in *.
    intros Huntil.
    destruct (IH at' d' σ2 until Hdelay) as [HL HW].
    + apply Harmed; [congruence | done].
    + by rewrite Hc2.
    + done.
    + done.
    + rewrite HD2 HD1 in HL HW. rewrite HL HW. split; [done|].
      by rewrite Htr2 -Hkey HW1.
Qed.

Lemma boot_wf loaded random stored : timers_wf (boot loaded random stored).
Proof.
  split; [apply NoDup_nil_2|]. split.
  - by intros t ?%elem_of_nil.
  - intros k id. simpl. by rewrite lookup_empty.
Qed.

(** C5. When [debouncedSave] is called for one key several times, each call
    before the delay of the previous one has elapsed, exactly one write to
    the storage follows: it carries the data of the last call and happens
    one delay after that call; what the earlier calls scheduled is dropped.
    And a call for one key never cancels the pending timeout of another
    key. *)
Theorem debounced_saves_coalesce (key : string) (delay : Z)
    (first : Z * ref) (rest : list (Z * ref)) (σ : machine) (until : Z) :
  timers_wf σ -> quotaExceeded σ = false -> 0 <= delay ->
  (forall t, t ∈ timeouts σ -> tkey t <> key) ->
  clock σ <= first.1 -> chained delay first.1 rest ->
  let final := last_call first rest in
  final.1 + delay <= until ->
  let σ' := advance until (burst key delay (first :: rest) σ) in
  let item :=
    Json (to_json (envelope (deref (defaults σ) final.2) (final.1 + delay))) in
  writes_to key (trace σ')
    = writes_to key (trace σ) ++ [EvSetItem (final.1 + delay) key item]
  /\ localStorage σ' !! key = Some item
  /\ (forall key' d' delay' σ0 t,
        timers_wf σ0 -> t ∈ timeouts σ0 -> tkey t <> key' ->
        t ∈ timeouts (debouncedSave key' d' delay' σ0)).
Proof.
  destruct first as [t1 d1]. simpl.
  intros Hwf HQ Hdelay Hnone Hclk Hchain Huntil.
  destruct (advance_idle key t1 σ Hnone) as (_ & HW1 & _).
  pose proof (advance_wf t1 σ Hwf) as Hwf1.
  pose proof (advance_clock t1 σ Hclk) as Hc1.
  destruct (advance_env t1 σ) as [HQ1 HD1].
  set (σ1 := advance t1 σ) in *.
  assert (armed key d1 (t1 + delay) (debouncedSave key d1 delay σ1)) as Harmed.
  { rewrite -Hc1. apply debouncedSave_arms; [done | congruence | done]. }
  destruct (debouncedSave_spec key d1 delay σ1 Hwf1)
    as (_ & _ & Hc2 & _ & Htr2 & _ & HD2).
  destruct (burst_armed key delay rest t1 d1 (debouncedSave key d1 delay σ1) until
              Hdelay Harmed) as [HL HW]; [congruence | done | done |].
  rewrite HD2 HD1 in HL HW. rewrite HL HW Htr2 HW1.
  split; [done|]. split; [done|].
  intros key' d' delay' σ0 t. apply debouncedSave_other_keys.
Qed.

Lemma debounced_saves_coalesce_witness :
  let key := STORAGE_KEYS ReadingState in
  let calls := [(100, Local (VStr "second") []); (200, Local (VStr "third") [])] in
  let σ := boot 0 "k3v9x2a1b" ∅ in
  let item := Json (envelope (VStr "third") 1200) in
  chained 1000 0 calls
  /\ writes_to key
       (trace (advance 1200
                 (burst key 1000 ((0, Local (VStr "first") []) :: calls) σ)))
     = [EvSetItem 1200 key item]
  /\ localStorage
       (advance 1200 (burst key 1000 ((0, Local (VStr "first") []) :: calls) σ))
       !! key = Some item.
Proof.
  intros key calls σ item.
  assert (chained 1000 0 calls) as Hchain by (simpl; lia).
  split; [exact Hchain|].
  destruct (debounced_saves_coalesce key 1000 (0, Local (VStr "first") []) calls
              σ 1200 (boot_wf 0 "k3v9x2a1b" ∅) eq_refl ltac:(lia)
              ltac:(by intros t ?%elem_of_nil) ltac:(simpl; lia) Hchain
              ltac:(simpl; lia))
    as (Hwrites & Hstored & _).
  split; [exact Hwrites | exact Hstored].
Defined.

(** ** The slice in use *)

Lemma in_use_simple s σ : simple (in_use s σ).
Proof.
  unfold in_use. rewrite loadFromStorage_result.
  destruct (stored_doc _ σ) as [doc|]; [|done]. by destruct (truthy _).
Qed.

Lemma validator_VObj s x : validator s x = true -> exists ps, x = VObj ps.
Proof.
  intros Hvalid. pose proof (validator_is_object _ _ Hvalid) as Hobj.
  unfold is_object in Hobj. apply andb_true_iff in Hobj as [_ Hobj].
  destruct x as [| |b|n|str|l|ps]; try done; [by destruct s ..|by eauto].
Qed.

(** A load of a slice whose object in use is valid hands out that object, and
    changes nothing but the log of errors. *)
Lemma loadSlice_valid s σ :
  validator s (current s σ) = true ->
  exists σ1,
    loadSlice s σ = (in_use s σ, σ1)
    /\ defaults σ1 = defaults σ /\ localStorage σ1 = localStorage σ
    /\ trace σ1 = trace σ /\ timeouts σ1 = timeouts σ
    /\ debounceTimers σ1 = debounceTimers σ /\ nextTimer σ1 = nextTimer σ
    /\ clock σ1 = clock σ /\ quotaExceeded σ1 = quotaExceeded σ.
Proof.
  intros Hvalid. exists (loadFromStorage (STORAGE_KEYS s) (Global s) σ).2.
  split; [|apply loadFromStorage_defaults].
  rewrite loadSlice_unfold. fold (in_use s σ). fold (current s σ).
  by rewrite Hvalid.
Qed.

Lemma saveSlice_valid s d σ :
  validator s (deref (defaults σ) d) = true -> quotaExceeded σ = false ->
  exists σ',
    saveSlice s d σ = (true, σ')
    /\ localStorage σ'
       = <[STORAGE_KEYS s :=
             Json (to_json (envelope (deref (defaults σ) d) (clock σ)))]>
           (localStorage σ)
    /\ defaults σ' = defaults σ /\ timeouts σ' = timeouts σ
    /\ debounceTimers σ' = debounceTimers σ /\ nextTimer σ' = nextTimer σ
    /\ clock σ' = clock σ /\ quotaExceeded σ' = false.
Proof.
  intros Hvalid HQ. unfold saveSlice, validateStorageData. rewrite Hvalid. simpl.
  rewrite saveToStorage_unfold HQ. eexists. split; [done|]. split_frame.
Qed.

(** Writes through a simple reference *)
Lemma assign_simple r f x σ :
  simple r ->
  let r' := (assign r f x σ).1 in
  let σ' := (assign r f x σ).2 in
  simple r'
  /\ deref (defaults σ') r' = with_field f x (deref (defaults σ) r)
  /\ localStorage σ' = localStorage σ /\ trace σ' = trace σ
  /\ timeouts σ' = timeouts σ /\ debounceTimers σ' = debounceTimers σ
  /\ nextTimer σ' = nextTimer σ /\ clock σ' = clock σ
  /\ quotaExceeded σ' = quotaExceeded σ
  /\ (forall s, r = Local (deref (defaults σ) r) [] -> defaults σ' s = defaults σ s).
Proof.
  destruct r as [s|v bs]; simpl.
  - intros _. split_frame. unfold update_default.
    by destruct s.
  - intros ->. simpl. split_frame.
Qed.

Lemma modify_field_simple r f g σ :
  simple r ->
  let r' := (modify_field r f g σ).1 in
  let σ' := (modify_field r f g σ).2 in
  simple r'
  /\ deref (defaults σ') r'
     = with_field f (g (get_field (deref (defaults σ) r) f)) (deref (defaults σ) r)
  /\ localStorage σ' = localStorage σ /\ trace σ' = trace σ
  /\ timeouts σ' = timeouts σ /\ debounceTimers σ' = debounceTimers σ
  /\ nextTimer σ' = nextTimer σ /\ clock σ' = clock σ
  /\ quotaExceeded σ' = quotaExceeded σ.
Proof.
  destruct r as [s|v bs]; simpl.
  - intros _. split_frame. unfold update_default.
    by destruct s.
  - intros ->. simpl. split_frame.
Qed.

(** ** Bookmarks *)

Lemma filter_bookmarks_records bookmarkId l :
  Forall (fun e => is_container e = true) l ->
  filter_bookmarks bookmarkId l = Some (List.filter (other_id bookmarkId) l).
Proof.
  induction 1 as [|e l He _ IH]; simpl; [done|].
  unfold differs. rewrite IH.
  assert (is_nullish e = false) as -> by (by destruct e).
  done.
Qed.

Lemma json_clean_lookup ps k v :
  json_clean (VObj ps) = true -> lookup_prop k ps = Some v -> json_clean v = true.
Proof.
  induction ps as [|[k' x] ps IH]; simpl; [done|].
  intros [Hx Hps]%andb_true_iff. destruct (String.eqb k k'); [by intros [= <-]|].
  by apply IH.
Qed.

Lemma json_clean_set_prop ps k v :
  json_clean (VObj ps) = true -> json_clean v = true ->
  json_clean (VObj (set_prop k v ps)) = true.
Proof.
  intros Hps Hv. induction ps as [|[k' x] ps IH]; simpl in *.
  - by rewrite Hv.
  - apply andb_true_iff in Hps as [Hx Hps]. destruct (String.eqb k k'); simpl.
    + by rewrite Hv Hps.
    + rewrite Hx. by apply IH.
Qed.

Lemma to_json_set_prop ps k v :
  json_clean (VObj ps) = true -> v <> VUndefined ->
  to_json (VObj (set_prop k v ps)) = VObj (set_prop k (to_json v) ps).
Proof.
  intros Hps Hv. simpl. f_equal.
  induction ps as [|[k' x] ps IH]; simpl in *.
  - by destruct v.
  - apply andb_true_iff in Hps as [Hx Hps]. destruct (String.eqb k k'); simpl.
    + pose proof (to_json_clean (VObj ps) Hps) as Hrest. simpl in Hrest.
      injection Hrest as ->. by destruct v.
    + rewrite IH //. rewrite (to_json_clean x Hx). by destruct x.
Qed.

Lemma validateSessionData_bookmarks ps l :
  validateSessionData (VObj ps) = true ->
  validateSessionData (VObj (set_prop "bookmarkPositions" (VArr l) ps)) = true.
Proof.
  unfold validateSessionData. simpl.
  rewrite lookup_set_prop_eq !lookup_set_prop_ne //.
  intros H. repeat (apply andb_true_iff in H as [H ?]).
  repeat (apply andb_true_iff; split); done.
Qed.

Lemma stored_in_use s y t σ :
  is_object y = true ->
  localStorage σ !! STORAGE_KEYS s = Some (Json (envelope y t)) ->
  in_use s σ = Local y [] /\ current s σ = y.
Proof.
  intros Hobj Hsto. unfold current, in_use.
  rewrite loadFromStorage_result /stored_doc /getItem Hsto. simpl.
  apply andb_true_iff in Hobj as [-> _]. done.
Qed.

Section Bookmarks.
Variable σ : machine.
Variable ps : list (string * value).
Variable l : list value.

(** The session data in use is a valid record whose bookmarks are the
    records [l]. *)
Hypothesis in_use_record : current SessionData σ = VObj ps.
Hypothesis in_use_valid : validateSessionData (VObj ps) = true.
Hypothesis bookmarks : lookup_prop "bookmarkPositions" ps = Some (VArr l).
Hypothesis records : Forall (fun e => is_container e = true) l.

Lemma removeBookmark_absent bookmarkId :
  List.filter (other_id bookmarkId) l = l ->
  exists σ',
    removeBookmark bookmarkId σ = (Normal false, σ')
    /\ localStorage σ' = localStorage σ /\ trace σ' = trace σ.
Proof.
  intros Hkept. unfold removeBookmark, loadSessionData.
  destruct (loadSlice_valid SessionData σ)
    as (σ1 & -> & HD & HL & HT & _); [by rewrite in_use_record|].
  rewrite HD. fold (current SessionData σ). rewrite in_use_record. simpl.
  rewrite bookmarks. simpl. rewrite filter_bookmarks_records // Hkept.
  destruct (assign_simple (in_use SessionData σ) "bookmarkPositions" (VArr l) σ1
              (in_use_simple _ _)) as (_ & _ & HL2 & HT2 & _).
  destruct (assign _ _ _ σ1) as [sd σ2]. simpl in *.
  rewrite Nat.ltb_irrefl. eexists. split; [done|]. split; congruence.
Qed.

Lemma removeBookmark_present bookmarkId :
  quotaExceeded σ = false -> json_clean (VObj ps) = true ->
  let kept := List.filter (other_id bookmarkId) l in
  (length kept < length l)%nat ->
  exists σ',
    removeBookmark bookmarkId σ = (Normal true, σ')
    /\ localStorage σ' !! STORAGE_KEYS SessionData
       = Some (Json (envelope (VObj (set_prop "bookmarkPositions" (VArr kept) ps))
                              (clock σ)))
    /\ quotaExceeded σ' = false.
Proof.
  intros HQ Hclean kept Hshorter. unfold removeBookmark, loadSessionData.
  destruct (loadSlice_valid SessionData σ)
    as (σ1 & -> & HD & HL & HT & _ & _ & _ & Hc1 & HQ1);
    [by rewrite in_use_record|].
  rewrite HD. fold (current SessionData σ). rewrite in_use_record. simpl.
  rewrite bookmarks. simpl. rewrite filter_bookmarks_records //.
  fold kept.
  destruct (assign_simple (in_use SessionData σ) "bookmarkPositions"
              (VArr kept) σ1 (in_use_simple _ _))
    as (_ & Hderef & _ & _ & _ & _ & _ & Hc2 & HQ2 & _).
  destruct (assign _ _ _ σ1) as [sd σ2]. simpl in *.
  apply Nat.ltb_lt in Hshorter. rewrite Hshorter.
  rewrite HD in Hderef. fold (current SessionData σ) in Hderef.
  rewrite in_use_record in Hderef. simpl in Hderef.
  destruct (saveSlice_valid SessionData sd σ2) as (σ3 & Hsave & Hsto & _ & _ & _ & _ & _ & HQ3).
  { rewrite Hderef. by apply validateSessionData_bookmarks. }
  { congruence. }
  unfold saveSessionData. rewrite Hsave. eexists. split; [done|].
  split; [|done]. rewrite Hsto lookup_insert_eq Hderef Hc2 Hc1.
  rewrite to_json_envelope //. do 3 f_equal.
  apply to_json_clean, json_clean_set_prop; [done|].
  pose proof (json_clean_lookup _ _ _ Hclean bookmarks) as Hl. simpl in *.
  unfold kept. clear -Hl. induction l as [|e l' IH]; simpl in *; [done|].
  apply andb_true_iff in Hl as [He Hl].
  destruct (other_id bookmarkId e); simpl; rewrite ?He; auto.
Qed.

Lemma addBookmark_stored chapterIndex scrollPosition note random :
  quotaExceeded σ = false -> json_clean (VObj ps) = true ->
  let b := new_bookmark (generateBookmarkId (clock σ) random)
             chapterIndex scrollPosition (clock σ) note in
  exists σ',
    addBookmark chapterIndex scrollPosition note random σ = (Normal b, σ')
    /\ localStorage σ' !! STORAGE_KEYS SessionData
       = Some (Json (envelope
                       (VObj (set_prop "bookmarkPositions"
                                (VArr (l ++ [to_json b])) ps))
                       (clock σ)))
    /\ quotaExceeded σ' = false.
Proof.
  intros HQ Hclean b. unfold addBookmark, loadSessionData.
  destruct (loadSlice_valid SessionData σ)
    as (σ1 & -> & HD & HL & HT & _ & _ & _ & Hc1 & HQ1);
    [by rewrite in_use_record|].
  rewrite HD. fold (current SessionData σ). rewrite in_use_record. simpl.
  rewrite bookmarks. simpl. fold b.
  destruct (modify_field_simple (in_use SessionData σ) "bookmarkPositions"
              (push b) σ1 (in_use_simple _ _))
    as (_ & Hderef & _ & _ & _ & _ & _ & Hc2 & HQ2).
  destruct (modify_field _ _ _ σ1) as [sd σ2]. simpl in *.
  rewrite HD in Hderef. fold (current SessionData σ) in Hderef.
  rewrite in_use_record in Hderef. simpl in Hderef.
  rewrite bookmarks in Hderef. simpl in Hderef.
  destruct (saveSlice_valid SessionData sd σ2)
    as (σ3 & Hsave & Hsto & _ & _ & _ & _ & _ & HQ3).
  { rewrite Hderef. by apply validateSessionData_bookmarks. }
  { congruence. }
  unfold saveSessionData. rewrite Hsave. eexists. split; [done|].
  split; [|done]. rewrite Hsto lookup_insert_eq Hderef Hc2 Hc1.
  rewrite to_json_envelope //. do 3 f_equal.
  rewrite to_json_set_prop //. do 2 f_equal. simpl. f_equal.
  rewrite map_app. f_equal.
  pose proof (json_clean_lookup _ _ _ Hclean bookmarks) as Hl.
  apply to_json_clean in Hl. simpl in Hl. by injection Hl.
Qed.
End Bookmarks.

Lemma getBookmarks_stored y t σ :
  validateSessionData y = true ->
  localStorage σ !! STORAGE_KEYS SessionData = Some (Json (envelope y t)) ->
  (getBookmarks σ).1 = get_field y "bookmarkPositions".
Proof.
  intros Hvalid Hsto. unfold getBookmarks, loadSessionData.
  by rewrite (loadSlice_stored SessionData y t σ Hvalid Hsto).
Qed.

Lemma filter_other_id_all bookmarkId (l : list value) :
  (forall e, e ∈ l -> get_field e "id" <> VStr bookmarkId) ->
  List.filter (other_id bookmarkId) l = l.
Proof.
  induction l as [|e l IH]; intros Hall; simpl; [done|].
  rewrite IH; [intros e' He'; apply Hall; by right|].
  assert (other_id bookmarkId e = true) as ->; [|done].
  specialize (Hall e ltac:(by left)). unfold other_id.
  destruct (get_field e "id") as [| | | |s| |]; try done.
  destruct (String.eqb s bookmarkId) eqn:E; [|done].
  apply String.eqb_eq in E. by subst.
Qed.

Lemma other_id_true bookmarkId e :
  other_id bookmarkId e = true -> get_field e "id" <> VStr bookmarkId.
Proof.
  unfold other_id. intros H Heq. rewrite Heq String.eqb_refl in H. done.
Qed.

(** C9. With a storage that accepts writes and session data in use that is
    a valid record of finite numbers whose bookmarks are records: a bookmark
    that is added appears in the stored list of bookmarks, and among the
    bookmarks of its chapter; removing it by its identifier answers [true]
    and leaves no bookmark with that identifier in the stored list; removing
    an identifier that no bookmark carries answers [false] and writes
    nothing. *)
Theorem bookmark_add_remove (σ : machine) (ps : list (string * value))
    (l : list value) (chapterIndex scrollPosition : num) (note : option string)
    (random : string) :
  quotaExceeded σ = false ->
  current SessionData σ = VObj ps ->
  validateSessionData (VObj ps) = true ->
  json_clean (VObj ps) = true ->
  lookup_prop "bookmarkPositions" ps = Some (VArr l) ->
  Forall (fun e => is_container e = true) l ->
  let id := generateBookmarkId (clock σ) random in
  let added := addBookmark chapterIndex scrollPosition note random σ in
  (exists b stored,
     added.1 = Normal b /\ get_field b "id" = VStr id
     /\ (getBookmarks added.2).1 = VArr stored
     /\ to_json b ∈ stored
     /\ (forall z, chapterIndex = Fin z ->
           to_json b ∈ useSessionTracking.getBookmarksForChapter stored chapterIndex))
  /\ (let removed := removeBookmark id added.2 in
      removed.1 = Normal true
      /\ exists stored,
           (getBookmarks removed.2).1 = VArr stored
           /\ forall e, e ∈ stored -> get_field e "id" <> VStr id)
  /\ (forall other,
        (forall e, e ∈ l -> get_field e "id" <> VStr other) ->
        let untouched := removeBookmark other σ in
        untouched.1 = Normal false
        /\ localStorage untouched.2 = localStorage σ
        /\ trace untouched.2 = trace σ).
Proof.
  intros HQ Hcur Hvalid Hclean Hbm Hrec id added.
  destruct (addBookmark_stored σ ps l Hcur Hvalid Hbm chapterIndex scrollPosition
              note random HQ Hclean) as (σ1 & Hadd & Hsto1 & HQ1).
  set (b := new_bookmark id chapterIndex scrollPosition (clock σ) note) in *.
  set (ps1 := set_prop "bookmarkPositions" (VArr (l ++ [to_json b])) ps) in *.
  assert (validateSessionData (VObj ps1) = true) as Hvalid1
    by (by apply validateSessionData_bookmarks).
  assert (lookup_prop "bookmarkPositions" ps1 = Some (VArr (l ++ [to_json b])))
    as Hbm1 by apply lookup_set_prop_eq.
  assert (get_field (to_json b) "id" = VStr id) as Hid by (by destruct chapterIndex).
  assert (json_clean (VObj ps1) = true) as Hclean1.
  { apply json_clean_set_prop; [done|].
    pose proof (json_clean_lookup _ _ _ Hclean Hbm) as Hl.
    change (forallb json_clean (l ++ [to_json b]) = true).
    change (forallb json_clean l = true) in Hl.
    rewrite forallb_app Hl. cbn [forallb]. by rewrite json_clean_to_json. }
  assert (Forall (fun e => is_container e = true) (l ++ [to_json b])) as Hrec1.
  { apply Forall_app. split; [done|]. by repeat constructor. }
  destruct (stored_in_use SessionData (VObj ps1) (clock σ) σ1 eq_refl Hsto1)
    as [_ Hcur1].
  unfold added. rewrite Hadd. simpl. split; [|split].
  - exists b, (l ++ [to_json b]). split; [done|]. split; [done|].
    split; [|split].
    + rewrite (getBookmarks_stored _ _ _ Hvalid1 Hsto1). simpl. by rewrite Hbm1.
    + apply elem_of_app. right. by apply list_elem_of_singleton.
    + intros z ->. apply list_elem_of_In, filter_In. split.
      * apply in_or_app. right. by left.
      * unfold useSessionTracking.same_chapter. simpl. apply Z.eqb_refl.
  - set (kept := List.filter (other_id id) (l ++ [to_json b])).
    destruct (removeBookmark_present σ1 ps1 (l ++ [to_json b]) Hcur1 Hvalid1 Hbm1
                Hrec1 id HQ1 Hclean1) as (σ2 & Hrem & Hsto2 & _).
    { rewrite List.filter_app !length_app. cbn [List.filter].
      assert (other_id id (to_json b) = false) as ->
        by (by rewrite /other_id Hid String.eqb_refl).
      pose proof (List.filter_length_le (other_id id) l). simpl. lia. }
    rewrite Hrem. simpl. split; [done|]. exists kept. split.
    + rewrite (getBookmarks_stored _ (clock σ1) _ (validateSessionData_bookmarks _ kept Hvalid1) Hsto2).
      simpl. by rewrite lookup_set_prop_eq.
    + intros e [_ He]%list_elem_of_In%filter_In. by apply other_id_true.
  - intros other Hother.
    destruct (removeBookmark_absent σ ps l Hcur Hvalid Hbm Hrec other
                (filter_other_id_all _ _ Hother)) as (σ' & -> & HL & HT).
    done.
Qed.

Lemma bookmark_add_remove_witness :
  let σ := boot 0 "k3v9x2a1b" ∅ in
  let id := generateBookmarkId 0 "q7w8e9r0t" in
  let added := addBookmark (Fin 2) (Fin 340) None "q7w8e9r0t" σ in
  (exists b stored,
     added.1 = Normal b /\ get_field b "id" = VStr id
     /\ (getBookmarks added.2).1 = VArr stored /\ to_json b ∈ stored
     /\ (forall z, Fin 2 = Fin z ->
           to_json b ∈ useSessionTracking.getBookmarksForChapter stored (Fin 2)))
  /\ (removeBookmark id added.2).1 = Normal true.
Proof.
  intros σ id added.
  destruct (bookmark_add_remove σ (defaultSessionData 0 "k3v9x2a1b") []
              (Fin 2) (Fin 340) None "q7w8e9r0t"
              eq_refl eq_refl eq_refl eq_refl eq_refl (Forall_nil_2 _))
    as (Hadded & (Hremoved & _) & _).
  split; [exact Hadded | exact Hremoved].
Defined.

(** ** Scroll tracking *)

Lemma updateScrollPosition_stored σ ps progress t chapterIndex scrollPosition :
  localStorage σ !! STORAGE_KEYS ReadingState = Some (Json (envelope (VObj ps) t)) ->
  validateReadingState (VObj ps) = true ->
  lookup_prop "readingProgress" ps = Some (VObj progress) ->
  updateScrollPosition chapterIndex scrollPosition σ
  = (Normal (),
     debouncedSave (STORAGE_KEYS ReadingState)
       (Local (scrolled ps progress chapterIndex scrollPosition (clock σ)) [])
       1000 σ).
Proof.
  intros Hsto Hvalid Hprogress. unfold updateScrollPosition, loadReadingState.
  rewrite (loadSlice_stored ReadingState (VObj ps) t σ Hvalid Hsto).
  cbn [assign with_field]. rewrite !filter_nil.
  cbn [deref foldr get_field].
  rewrite !lookup_set_prop_ne // Hprogress.
  cbn [default is_container negb modify_field owner find fmap option_fmap option_map
       get_field with_field set_index].
  rewrite !lookup_set_prop_ne // Hprogress. done.
Qed.

(** *** The codec on records without [undefined] *)

Lemma to_json_defined ps : defined ps -> to_json (VObj ps) = VObj (json_props ps).
Proof.
  intros Hdef. simpl. f_equal.
  induction Hdef as [|[k x] ps Hx _ IH]; simpl in *; [done|].
  rewrite IH. by destruct x.
Qed.

Lemma lookup_json_props k ps :
  lookup_prop k (json_props ps) = to_json <$> lookup_prop k ps.
Proof.
  induction ps as [|[k' x] ps IH]; simpl; [done|].
  by destruct (String.eqb k k').
Qed.

Lemma clean_defined ps : json_clean (VObj ps) = true -> defined ps.
Proof.
  induction ps as [|[k x] ps IH]; simpl; [constructor|].
  intros [Hx Hps]%andb_true_iff. constructor; [|by apply IH].
  simpl. by destruct x.
Qed.

Lemma defined_set_prop k v ps :
  v <> VUndefined -> defined ps -> defined (set_prop k v ps).
Proof.
  intros Hv. induction 1 as [|[k' x] ps Hx Hps IH]; simpl.
  - by repeat constructor.
  - destruct (String.eqb k k'); constructor; done.
Qed.

Lemma defined_spread a b : defined a -> defined b -> defined (spread a b).
Proof.
  unfold spread. intros Ha Hb. revert a Ha.
  induction Hb as [|[k x] b Hx _ IH]; intros a Ha; simpl; [done|].
  apply IH. by apply defined_set_prop.
Qed.

Lemma get_field_clean ps k :
  json_clean (VObj ps) = true ->
  default VUndefined (to_json <$> lookup_prop k ps) = get_field (VObj ps) k.
Proof.
  intros Hclean. simpl. destruct (lookup_prop k ps) as [v|] eqn:E; [|done].
  simpl. apply to_json_clean. by eapply json_clean_lookup.
Qed.

Lemma own_props_defined v : json_clean v = true -> defined (own_props v).
Proof.
  destruct v as [| |b|n|s|l|ps]; simpl; try (intros _; constructor).
  - intros _. unfold defined. apply Forall_forall.
    intros [k x] (i & c & [= -> ->] & _)%elem_of_lookup_imap_1. done.
  - intros Hl. unfold defined. apply Forall_forall.
    intros [k x] (i & y & [= -> ->] & Hy)%elem_of_lookup_imap_1. simpl.
    intros ->. apply list_elem_of_lookup_2 in Hy.
    apply forallb_forall with (x := VUndefined) in Hl; [done|].
    by apply list_elem_of_In.
  - apply clean_defined.
Qed.

Lemma progress_entry_scroll found p now :
  (truthy found = true -> json_clean found = true) ->
  progress_entry found p now <> VUndefined
  /\ get_field (to_json (progress_entry found p now)) "scrollPosition"
     = to_json (VNum p).
Proof.
  intros Hclean. split; [done|]. unfold progress_entry.
  set (cur := if truthy found then found else _).
  assert (defined (own_props cur)) as Hdef.
  { unfold cur. destruct (truthy found); [by apply own_props_defined, Hclean|].
    by repeat constructor. }
  rewrite to_json_defined.
  { apply defined_spread; [constructor|]. apply Forall_app. split; [done|].
    by repeat constructor. }
  cbn [get_field]. rewrite lookup_json_props.
  unfold spread. rewrite fold_left_app. fold (spread [] (own_props cur)).
  set (base := spread [] (own_props cur)).
  change (fold_left _ ?b base) with (spread base b).
  rewrite lookup_spread; [|done].
  apply NoDup_cons. split; [|apply NoDup_singleton].
  by intros [=]%list_elem_of_singleton.
Qed.

Lemma scrolled_written σ ps progress t chapterIndex scrollPosition until :
  timers_wf σ -> quotaExceeded σ = false ->
  localStorage σ !! STORAGE_KEYS ReadingState = Some (Json (envelope (VObj ps) t)) ->
  validateReadingState (VObj ps) = true ->
  lookup_prop "readingProgress" ps = Some (VObj progress) ->
  clock σ + 1000 <= until ->
  localStorage (advance until (updateScrollPosition chapterIndex scrollPosition σ).2)
    !! STORAGE_KEYS ReadingState
  = Some (Json (envelope
                  (to_json (scrolled ps progress chapterIndex scrollPosition (clock σ)))
                  (clock σ + 1000))).
Proof.
  intros Hwf HQ Hsto Hvalid Hprogress Huntil.
  rewrite (updateScrollPosition_stored σ ps progress t) //. cbn [snd].
  set (d := Local (scrolled ps progress chapterIndex scrollPosition (clock σ)) []).
  destruct (debouncedSave_spec (STORAGE_KEYS ReadingState) d 1000 σ Hwf)
    as (Hwf' & Hts & Hclk & _ & _ & HQ' & _).
  destruct (advance_due (new_timeout (STORAGE_KEYS ReadingState) d 1000 σ) until
              (debouncedSave (STORAGE_KEYS ReadingState) d 1000 σ))
    as (HL & _);
    [done | apply Hts; by left | simpl; lia | rewrite Hclk; simpl; lia
    | congruence |].
  cbn [tkey tdata due new_timeout deref foldr] in HL. rewrite HL.
  rewrite to_json_envelope //.
Qed.

Lemma scrolled_defined ps progress i p now :
  json_clean (VObj ps) = true ->
  to_json (scrolled ps progress i p now)
  = VObj (json_props
            (set_prop "readingProgress"
               (VObj (set_prop (num_key i)
                        (progress_entry (get_index (VObj progress) i) p now)
                        progress))
               (set_prop "lastReadTime" (VStr (toISOString now))
                  (set_prop "scrollPosition" (VNum p) ps)))).
Proof.
  intros Hclean. unfold scrolled. rewrite to_json_defined //.
  repeat apply defined_set_prop; try done. by apply clean_defined.
Qed.

Lemma scrolled_other_fields ps progress i p now f :
  json_clean (VObj ps) = true ->
  f <> "scrollPosition" -> f <> "lastReadTime" -> f <> "readingProgress" ->
  get_field (to_json (scrolled ps progress i p now)) f = get_field (VObj ps) f.
Proof.
  intros Hclean H1 H2 H3. rewrite scrolled_defined //.
  cbn [get_field]. rewrite lookup_json_props !lookup_set_prop_ne //.
  by rewrite (get_field_clean ps f).
Qed.

Lemma scrolled_scroll ps progress i p now :
  json_clean (VObj ps) = true ->
  get_field (to_json (scrolled ps progress i p now)) "scrollPosition"
  = to_json (VNum p)
  /\ get_field (to_json (scrolled ps progress i p now)) "lastReadTime"
     = VStr (toISOString now).
Proof.
  intros Hclean. rewrite scrolled_defined //.
  cbn [get_field]. rewrite !lookup_json_props. split.
  - by rewrite lookup_set_prop_ne // lookup_set_prop_ne // lookup_set_prop_eq.
  - by rewrite lookup_set_prop_ne // lookup_set_prop_eq.
Qed.

(** C2 (as amended). When a valid reading state is stored, whose numbers are
    finite and whose progress map is an object, [updateScrollPosition i p]
    and the debounced write it schedules change the scroll offset, the
    last-read timestamp and the entry of chapter [i] in the progress map;
    every other field, [currentChapterIndex] among them, and every other
    entry of the map are stored as they were. *)
Theorem scroll_tracking_frame (σ : machine) (ps progress : list (string * value))
    (t : Z) (i p : num) :
  timers_wf σ -> quotaExceeded σ = false ->
  localStorage σ !! STORAGE_KEYS ReadingState = Some (Json (envelope (VObj ps) t)) ->
  validateReadingState (VObj ps) = true -> json_clean (VObj ps) = true ->
  lookup_prop "readingProgress" ps = Some (VObj progress) ->
  let after :=
    current ReadingState
      (advance (clock σ + 1000) (updateScrollPosition i p σ).2) in
  get_field after "scrollPosition" = to_json (VNum p)
  /\ get_field after "lastReadTime" = VStr (toISOString (clock σ))
  /\ (exists progress',
        get_field after "readingProgress" = VObj progress'
        /\ get_field (default VUndefined (lookup_prop (num_key i) progress'))
                     "scrollPosition" = to_json (VNum p)
        /\ forall k, k <> num_key i ->
             lookup_prop k progress' = lookup_prop k progress)
  /\ (forall f, f <> "scrollPosition" -> f <> "lastReadTime" ->
        f <> "readingProgress" -> get_field after f = get_field (VObj ps) f)
  /\ get_field after "currentChapterIndex"
     = get_field (VObj ps) "currentChapterIndex".
Proof.
  intros Hwf HQ Hsto Hvalid Hclean Hprogress after.
  pose proof (scrolled_written σ ps progress t i p (clock σ + 1000)
                Hwf HQ Hsto Hvalid Hprogress ltac:(lia)) as Hwritten.
  pose proof (json_clean_lookup _ _ _ Hclean Hprogress) as Hpclean.
  destruct (progress_entry_scroll (get_index (VObj progress) i) p (clock σ))
    as [Hentry Hscroll].
  { simpl. destruct (lookup_prop (num_key i) progress) as [v|] eqn:E; [|done].
    intros _. by eapply json_clean_lookup. }
  assert (after = to_json (scrolled ps progress i p (clock σ))) as ->.
  { unfold after.
    by destruct (stored_in_use ReadingState
                   (to_json (scrolled ps progress i p (clock σ))) _ _
                   eq_refl Hwritten) as [_ ->]. }
  destruct (scrolled_scroll ps progress i p (clock σ) Hclean) as [Hsp Hlrt].
  split; [exact Hsp|]. split; [exact Hlrt|]. split; [|split].
  - rewrite scrolled_defined //. cbn [get_field].
    rewrite lookup_json_props lookup_set_prop_eq.
    cbn [fmap option_fmap option_map default].
    rewrite to_json_defined.
    { apply defined_set_prop; [done|]. by apply clean_defined. }
    eexists. split; [done|]. split.
    + rewrite lookup_json_props lookup_set_prop_eq. exact Hscroll.
    + intros k Hk. rewrite lookup_json_props lookup_set_prop_ne //.
      destruct (lookup_prop k progress) as [v|] eqn:E; [|done]. simpl. f_equal.
      apply to_json_clean. by eapply json_clean_lookup.
  - intros f H1 H2 H3. by apply scrolled_other_fields.
  - by apply scrolled_other_fields.
Qed.

Lemma scroll_tracking_frame_witness :
  let σ := reading_chapter6 5000 in
  let after :=
    current ReadingState
      (advance 6000 (updateScrollPosition (Fin 6) (Fin 120) σ).2) in
  validateReadingState (VObj chapter6_state) = true
  /\ get_field after "scrollPosition" = VNum (Fin 120)
  /\ get_field after "currentChapterIndex" = VNum (Fin 6).
Proof.
  intros σ after.
  destruct (scroll_tracking_frame σ chapter6_state _ 1000 (Fin 6) (Fin 120)
              (boot_wf _ _ _) eq_refl eq_refl eq_refl eq_refl eq_refl)
    as (Hscroll & _ & _ & _ & Hchapter).
  split; [reflexivity | split; [exact Hscroll | exact Hchapter]].
Defined.

(** C2 as stated fails: the write also replaces [lastReadTime]. *)
Lemma scroll_tracking_touches_lastReadTime :
  ~ (forall (σ : machine) (ps progress : list (string * value)) (t : Z)
            (i p : num) (f : string),
       timers_wf σ -> quotaExceeded σ = false ->
       localStorage σ !! STORAGE_KEYS ReadingState
         = Some (Json (envelope (VObj ps) t)) ->
       validateReadingState (VObj ps) = true -> json_clean (VObj ps) = true ->
       lookup_prop "readingProgress" ps = Some (VObj progress) ->
       f <> "scrollPosition" -> f <> "readingProgress" ->
       get_field (current ReadingState
                    (advance (clock σ + 1000) (updateScrollPosition i p σ).2)) f
       = get_field (VObj ps) f).
Proof.
  intros H.
  specialize (H (reading_chapter6 5000) chapter6_state _ 1000 (Fin 6) (Fin 120)
                "lastReadTime" (boot_wf _ _ _) eq_refl eq_refl eq_refl eq_refl
                eq_refl ltac:(done) ltac:(done)).
  vm_compute in H. discriminate H.
Qed.

(** ** Navigation against a pending scroll save *)

(** C1, at a failing input. Chapter 7 (index 6) is stored. At instant 0 the
    scroll tracker calls [updateScrollPosition 6 120], which loads the stored
    state and schedules it for writing; at instant 500 the reader goes to the
    previous chapter, and index 5 is stored at once; at instant 1000 the
    timeout fires and writes the state loaded at instant 0: the stored
    chapter index is 6 again. *)
Theorem stale_scroll_save_reverts_chapter :
  let σ0 := reading_chapter6 0 in
  let σ1 := (updateScrollPosition (Fin 6) (Fin 120) σ0).2 in
  let σ2 := (App.goToPreviousChapter 6 (advance 500 σ1)).2 in
  let σ3 := advance 1000 σ2 in
  get_field (current ReadingState σ2) "currentChapterIndex" = VNum (Fin 5)
  /\ get_field (current ReadingState σ3) "currentChapterIndex" = VNum (Fin 6)
  /\ get_field (current ReadingState σ3) "scrollPosition" = VNum (Fin 120)
  /\ writes_to (STORAGE_KEYS ReadingState) (trace σ3)
     = [EvSetItem 500 (STORAGE_KEYS ReadingState)
          (Json (envelope
                   (VObj (set_prop "lastReadTime" (VStr (toISOString 500))
                            (set_prop "currentChapterIndex" (VNum (Fin 5))
                               chapter6_state))) 500));
        EvSetItem 1000 (STORAGE_KEYS ReadingState)
          (Json (envelope (scrolled chapter6_state
                             [("6", VObj [("scrollPosition", VNum (Fin 40));
                                          ("lastVisited", VStr (toISOString 1000));
                                          ("timeSpent", VNum (Fin 0))])]
                             (Fin 6) (Fin 120) 0) 1000))].
Proof. vm_compute. done. Qed.

(** *** Saves and loads leave the timers alone *)

Lemma same_timers_refl σ : same_timers σ σ.
Proof. done. Qed.

Lemma same_timers_trans σ1 σ2 σ3 :
  same_timers σ1 σ2 -> same_timers σ2 σ3 -> same_timers σ1 σ3.
Proof.
  intros (? & ? & ? & ? & ?) (? & ? & ? & ? & ?). unfold same_timers.
  split_frame; congruence.
Qed.

Lemma same_timers_wf σ σ' : same_timers σ σ' -> timers_wf σ -> timers_wf σ'.
Proof.
  intros (Hts & Hdt & Hnt & _) Hwf. unfold timers_wf. by rewrite Hts Hdt Hnt.
Qed.

Lemma setItem_timers key item σ : same_timers σ (setItem key item σ).2.
Proof. destruct (setItem_frame key item σ) as (_ & ? & ? & ? & ? & ?). done. Qed.

Lemma storeCriticalError_timers error σ : same_timers σ (storeCriticalError error σ).
Proof.
  unfold storeCriticalError.
  destruct (match getItem critical_errors_key σ with
            | Some item => _ | None => _ end) as [[| | | | |l|]|]; try done.
  apply setItem_timers.
Qed.

Lemma createError_timers c msg op d σ : same_timers σ (createError c msg op d σ).2.
Proof.
  unfold createError, logError; simpl. destruct (isRecoverable c); [done|].
  eapply same_timers_trans; [|apply storeCriticalError_timers]. done.
Qed.

Lemma saveSlice_timers s d σ : same_timers σ (saveSlice s d σ).2.
Proof.
  unfold saveSlice, validateStorageData.
  destruct (validator s _); simpl; [|apply createError_timers].
  rewrite saveToStorage_unfold. by destruct (quotaExceeded σ) eqn:E.
Qed.

Lemma loadSlice_timers s σ : same_timers σ (loadSlice s σ).2.
Proof.
  rewrite loadSlice_unfold. simpl.
  destruct (loadFromStorage_defaults (STORAGE_KEYS s) (Global s) σ)
    as (_ & _ & _ & ? & ? & ? & ? & ?). done.
Qed.

Lemma assign_timers r f x σ : same_timers σ (assign r f x σ).2.
Proof. by destruct r. Qed.

Lemma saveNavigation_timers newIndex σ :
  same_timers σ (App.saveNavigation newIndex σ).2.
Proof.
  unfold App.saveNavigation, loadReadingState, saveReadingState.
  pose proof (loadSlice_timers ReadingState σ) as H1.
  destruct (loadSlice ReadingState σ) as [r1 σ1].
  pose proof (assign_timers r1 "currentChapterIndex" (VNum newIndex) σ1) as H2.
  destruct (assign r1 _ _ σ1) as [r2 σ2].
  pose proof (assign_timers r2 "lastReadTime" (VStr (toISOString (clock σ))) σ2) as H3.
  destruct (assign r2 _ _ σ2) as [r3 σ3].
  pose proof (saveSlice_timers ReadingState r3 σ3) as H4. simpl in *.
  eauto using same_timers_trans.
Qed.

(** X19. Whatever chapter a navigation saves while a scroll save is
    pending, the timeout then writes the reading state that
    [updateScrollPosition] had loaded when it was called: once the timer has
    fired, the stored chapter index is the one from before the navigation. *)
Lemma pending_scroll_save_overwrites_navigation
    (σ : machine) (ps progress : list (string * value)) (t : Z)
    (i p newIndex : num) (at_ until : Z) :
  timers_wf σ -> quotaExceeded σ = false ->
  localStorage σ !! STORAGE_KEYS ReadingState = Some (Json (envelope (VObj ps) t)) ->
  validateReadingState (VObj ps) = true -> json_clean (VObj ps) = true ->
  lookup_prop "readingProgress" ps = Some (VObj progress) ->
  clock σ <= at_ < clock σ + 1000 -> clock σ + 1000 <= until ->
  let σ1 := (updateScrollPosition i p σ).2 in
  let σ2 := (App.saveNavigation newIndex (advance at_ σ1)).2 in
  get_field (current ReadingState (advance until σ2)) "currentChapterIndex"
  = get_field (VObj ps) "currentChapterIndex".
Proof.
  intros Hwf HQ Hsto Hvalid Hclean Hprogress Hat Huntil σ1 σ2.
  unfold σ1 in *. rewrite (updateScrollPosition_stored σ ps progress t) // in σ2 |- *.
  cbn [snd] in *.
  set (d := Local (scrolled ps progress i p (clock σ)) []) in *.
  set (t0 := new_timeout (STORAGE_KEYS ReadingState) d 1000 σ).
  destruct (debouncedSave_spec (STORAGE_KEYS ReadingState) d 1000 σ Hwf)
    as (Hwf1 & Hts1 & Hclk1 & _ & _ & HQ1 & _).
  destruct (advance_pending t0 at_ (debouncedSave (STORAGE_KEYS ReadingState) d 1000 σ))
    as (Hwf2 & Hin2 & _ & _ & Hclk2 & HQ2 & _);
    [done | apply Hts1; by left | simpl; lia | lia |].
  destruct (saveNavigation_timers newIndex
              (advance at_ (debouncedSave (STORAGE_KEYS ReadingState) d 1000 σ)))
    as (Hts3 & Hdt3 & Hnt3 & Hclk3 & HQ3).
  fold σ2 in Hts3, Hdt3, Hnt3, Hclk3, HQ3.
  destruct (advance_due t0 until σ2) as (HL & _).
  - eapply same_timers_wf; [|exact Hwf2]. by split_frame.
  - by rewrite Hts3.
  - simpl. lia.
  - rewrite Hclk3 Hclk2. simpl. lia.
  - congruence.
  - cbn [tkey tdata due t0 new_timeout deref foldr] in HL.
    rewrite to_json_envelope // in HL.
    destruct (stored_in_use ReadingState
                (to_json (scrolled ps progress i p (clock σ))) _ _ eq_refl HL)
      as [_ ->].
    by apply scrolled_other_fields.
Qed.

Lemma validateReadingState_navigated ps z now :
  validateReadingState (VObj ps) = true -> 0 <= z ->
  validateReadingState
    (VObj (set_prop "lastReadTime" (VStr now)
             (set_prop "currentChapterIndex" (VNum (Fin z)) ps))) = true.
Proof.
  unfold validateReadingState. simpl. intros H Hz.
  repeat first [rewrite lookup_set_prop_eq
               | rewrite lookup_set_prop_ne; [done|]].
  simpl. repeat (apply andb_true_iff in H as [H ?]).
  repeat (apply andb_true_iff; split); try done. by apply Z.leb_le.
Qed.

Lemma saveNavigation_stored σ ps t z :
  quotaExceeded σ = false ->
  localStorage σ !! STORAGE_KEYS ReadingState = Some (Json (envelope (VObj ps) t)) ->
  validateReadingState (VObj ps) = true -> json_clean (VObj ps) = true ->
  0 <= z ->
  let navigated :=
    set_prop "lastReadTime" (VStr (toISOString (clock σ)))
      (set_prop "currentChapterIndex" (VNum (Fin z)) ps) in
  localStorage (App.saveNavigation (Fin z) σ).2 !! STORAGE_KEYS ReadingState
  = Some (Json (envelope (VObj navigated) (clock σ)))
  /\ json_clean (VObj navigated) = true.
Proof.
  intros HQ Hsto Hvalid Hclean Hz navigated.
  assert (json_clean (VObj navigated) = true) as Hclean'
    by (by repeat apply json_clean_set_prop).
  split; [|done]. unfold App.saveNavigation, loadReadingState, saveReadingState.
  rewrite (loadSlice_stored ReadingState (VObj ps) t σ Hvalid Hsto).
  unfold assign. cbn [with_field]. rewrite !filter_nil. cbn beta iota.
  fold navigated.
  destruct (saveSlice_valid ReadingState (Local (VObj navigated) []) σ)
    as (σ' & Hsave & Hsto' & _);
    [by apply validateReadingState_navigated | done |].
  rewrite Hsave. cbn [snd]. rewrite Hsto'. cbn [deref foldr].
  rewrite lookup_insert_eq to_json_envelope //.
  by rewrite (to_json_clean _ Hclean').
Qed.

(** X20. The order that is safe: a scroll update that is made after the
    navigation save loads what the navigation stored, so that the debounced
    write keeps the chapter index of the navigation and stores the new scroll
    position. *)
Lemma scroll_save_after_navigation
    (σ : machine) (ps progress : list (string * value)) (t z : Z) (i p : num) :
  timers_wf σ -> quotaExceeded σ = false ->
  localStorage σ !! STORAGE_KEYS ReadingState = Some (Json (envelope (VObj ps) t)) ->
  validateReadingState (VObj ps) = true -> json_clean (VObj ps) = true ->
  lookup_prop "readingProgress" ps = Some (VObj progress) -> 0 <= z ->
  let σ1 := (App.saveNavigation (Fin z) σ).2 in
  let after :=
    current ReadingState (advance (clock σ + 1000) (updateScrollPosition i p σ1).2) in
  get_field after "currentChapterIndex" = VNum (Fin z)
  /\ get_field after "scrollPosition" = to_json (VNum p).
Proof.
  intros Hwf HQ Hsto Hvalid Hclean Hprogress Hz σ1 after.
  destruct (saveNavigation_stored σ ps t z HQ Hsto Hvalid Hclean Hz)
    as [Hsto1 Hclean1].
  destruct (saveNavigation_timers (Fin z) σ) as (Hts & Hdt & Hnt & Hclk & HQ1).
  fold σ1 in Hsto1, Hts, Hdt, Hnt, Hclk, HQ1.
  set (navigated := set_prop "lastReadTime" (VStr (toISOString (clock σ)))
                      (set_prop "currentChapterIndex" (VNum (Fin z)) ps)) in *.
  assert (lookup_prop "readingProgress" navigated = Some (VObj progress)) as Hp1
    by (by rewrite /navigated !lookup_set_prop_ne).
  pose proof (scrolled_written σ1 navigated progress (clock σ) i p (clock σ + 1000))
    as Hwritten.
  rewrite Hclk in Hwritten. specialize (Hwritten
    ltac:(eapply same_timers_wf; [|exact Hwf]; by split_frame)
    ltac:(congruence) Hsto1
    (validateReadingState_navigated ps z _ Hvalid Hz) Hp1 ltac:(lia)).
  destruct (stored_in_use ReadingState
              (to_json (scrolled navigated progress i p (clock σ))) _ _
              eq_refl Hwritten) as [_ Hafter].
  unfold after. rewrite Hafter. split.
  - rewrite scrolled_other_fields //. cbn [get_field].
    by rewrite /navigated lookup_set_prop_ne // lookup_set_prop_eq.
  - by destruct (scrolled_scroll navigated progress i p (clock σ) Hclean1).
Qed.

(** ** The model at work *)

(** What a load answers for the texts that can sit under a key *)
Example load_cases :
  let load stored :=
    (loadFromStorage "novel-ui-state" (Global UIState)
       (boot 0 "k3v9x2a1b" stored)).1 in
  load ∅ = Global UIState
  /\ load {[ "novel-ui-state" := Malformed "{oops" ]} = Global UIState
  /\ load {[ "novel-ui-state" := Json VNull ]} = Global UIState
  /\ load {[ "novel-ui-state" := Json (VObj [("data", VNum (Fin 0))]) ]}
     = Global UIState
  /\ load {[ "novel-ui-state" := Json (VObj [("data", VObj [])]) ]}
     = Local (VObj []) [].
Proof. vm_compute. done. Qed.

(** The value that comes back for the reading state with [NaN]: the
    sanitized record, in which the reading time is [null] *)
Example NaN_comes_back_as_null :
  let σ := boot 0 "k3v9x2a1b" ∅ in
  let saved := saveReadingState (Local reading_state_NaN []) σ in
  saved.1 = true
  /\ get_field (deref (defaults saved.2) (loadReadingState saved.2).1)
               "totalReadingTime" = VNull.
Proof. vm_compute. done. Qed.

(** With nothing stored, [loadReadingState] hands out the default object
    itself. The scroll tracker schedules that object, the navigation then
    updates the same object, and the timeout writes it with the chapter
    the navigation chose. *)
Example shared_default_keeps_navigation :
  let σ0 := boot 0 "k3v9x2a1b" ∅ in
  let σ1 := (updateScrollPosition (Fin 0) (Fin 120) σ0).2 in
  let σ2 := (App.selectChapter 5 (advance 500 σ1)).2 in
  let σ3 := advance 1000 σ2 in
  get_field (current ReadingState σ3) "currentChapterIndex" = VNum (Fin 5)
  /\ get_field (VObj (defaults σ3 ReadingState)) "currentChapterIndex"
     = VNum (Fin 5)
  /\ get_field (VObj (defaults σ3 ReadingState)) "scrollPosition"
     = VNum (Fin 120).
Proof. vm_compute. done. Qed.

(** Stored session data whose identifier is a number stays invalid after
    sanitizing, so the save inside [addBookmark] is refused; yet the
    bookmark was pushed on the array that the sanitized copy shares with the
    default object, where [getBookmarks] finds it. *)
Example bookmark_kept_by_the_default_object :
  let stored :=
    {[ STORAGE_KEYS SessionData
         := Json (envelope (VObj [("sessionId", VNum (Fin 5))]) 0) ]} in
  let σ := boot 0 "k3v9x2a1b" stored in
  let added := addBookmark (Fin 2) (Fin 340) None "q7w8e9r0t" σ in
  localStorage added.2 !! STORAGE_KEYS SessionData
    = stored !! STORAGE_KEYS SessionData
  /\ (getBookmarks added.2).1
     = VArr [new_bookmark "bookmark_0_q7w8e9r0t" (Fin 2) (Fin 340) 0 None].
Proof. vm_compute. done. Qed.

(** ** The timers stay well formed *)

Lemma modify_field_timers r f g σ : same_timers σ (modify_field r f g σ).2.
Proof.
  destruct r as [s|v bs]; simpl; [done|]. by destruct (owner f bs).
Qed.

Lemma addBookmark_timers chapterIndex scrollPosition note random σ :
  same_timers σ (addBookmark chapterIndex scrollPosition note random σ).2.
Proof.
  unfold addBookmark, loadSessionData, saveSessionData.
  pose proof (loadSlice_timers SessionData σ) as H1.
  destruct (loadSlice SessionData σ) as [r1 σ1]. simpl in H1.
  destruct (is_array _); [|done].
  set (b := new_bookmark _ _ _ _ _).
  pose proof (modify_field_timers r1 "bookmarkPositions" (push b) σ1) as H2.
  destruct (modify_field r1 _ _ σ1) as [r2 σ2].
  pose proof (saveSlice_timers SessionData r2 σ2) as H3.
  destruct (saveSlice SessionData r2 σ2) as [ok σ3]. simpl in *.
  eauto using same_timers_trans.
Qed.

Lemma removeBookmark_timers bookmarkId σ :
  same_timers σ (removeBookmark bookmarkId σ).2.
Proof.
  unfold removeBookmark, loadSessionData, saveSessionData.
  pose proof (loadSlice_timers SessionData σ) as H1.
  destruct (loadSlice SessionData σ) as [r1 σ1]. simpl in H1.
  destruct (get_field _ _) as [| | | | |l|]; try done.
  destruct (filter_bookmarks bookmarkId l) as [kept|]; [|done].
  pose proof (assign_timers r1 "bookmarkPositions" (VArr kept) σ1) as H2.
  destruct (assign r1 _ _ σ1) as [r2 σ2].
  destruct (_ <? _)%nat; [|simpl in *; eauto using same_timers_trans].
  pose proof (saveSlice_timers SessionData r2 σ2) as H3.
  destruct (saveSlice SessionData r2 σ2) as [ok σ3]. simpl in *.
  eauto using same_timers_trans.
Qed.

Lemma updateScrollPosition_wf chapterIndex scrollPosition σ :
  timers_wf σ -> timers_wf (updateScrollPosition chapterIndex scrollPosition σ).2.
Proof.
  intros Hwf. unfold updateScrollPosition, loadReadingState.
  pose proof (loadSlice_timers ReadingState σ) as H1.
  destruct (loadSlice ReadingState σ) as [r1 σ1]. simpl in H1.
  pose proof (assign_timers r1 "scrollPosition" (VNum scrollPosition) σ1) as H2.
  destruct (assign r1 _ _ σ1) as [r2 σ2].
  pose proof (assign_timers r2 "lastReadTime" (VStr (toISOString (clock σ))) σ2)
    as H3.
  destruct (assign r2 _ _ σ2) as [r3 σ3]. simpl in H2, H3.
  assert (timers_wf σ3) as Hwf3
    by (eapply same_timers_wf; [|exact Hwf]; eauto using same_timers_trans).
  destruct (negb _); [done|].
  match goal with
  | |- context [modify_field r3 ?f ?g σ3] =>
      pose proof (modify_field_timers r3 f g σ3) as H4;
      destruct (modify_field r3 f g σ3) as [r4 σ4]
  end.
  simpl in *.
  by apply debouncedSave_spec, (same_timers_wf σ3).
Qed.

Lemma removeItem_timers key σ : same_timers σ (removeItem key σ).
Proof. done. Qed.

Lemma clearAllData_timers σ : same_timers σ (clearAllData σ).
Proof. done. Qed.

Lemma exportUserData_timers σ : same_timers σ (exportUserData σ).2.
Proof.
  unfold exportUserData, loadUserPreferences, loadReadingState, loadUIState,
    loadSessionData.
  pose proof (loadSlice_timers Preferences σ) as H1.
  destruct (loadSlice Preferences σ) as [r1 σ1].
  pose proof (loadSlice_timers ReadingState σ1) as H2.
  destruct (loadSlice ReadingState σ1) as [r2 σ2].
  pose proof (loadSlice_timers UIState σ2) as H3.
  destruct (loadSlice UIState σ2) as [r3 σ3].
  pose proof (loadSlice_timers SessionData σ3) as H4.
  destruct (loadSlice SessionData σ3) as [r4 σ4]. simpl in *.
  eauto using same_timers_trans.
Qed.

Lemma import_slice_timers data s σ : same_timers σ (import_slice data s σ).
Proof.
  unfold import_slice. destruct (truthy _); [|apply same_timers_refl].
  apply saveSlice_timers.
Qed.

Lemma importUserData_timers jsonData σ :
  same_timers σ (importUserData jsonData σ).2.
Proof.
  unfold importUserData. destruct (JSON_parse jsonData) as [data|];
    [|apply same_timers_refl].
  destruct (is_nullish data); [apply same_timers_refl|]. simpl.
  eauto using same_timers_trans, import_slice_timers.
Qed.

Lemma initializeSession_timers random σ :
  same_timers σ (initializeSession random σ).2.
Proof.
  unfold initializeSession, loadSessionData, saveSessionData.
  pose proof (loadSlice_timers SessionData σ) as H1.
  destruct (loadSlice SessionData σ) as [r1 σ1]. simpl in H1.
  destruct (plus _ 1) as [visitCount|]; [|done].
  match goal with
  | |- context [saveSlice SessionData ?d σ1] =>
      pose proof (saveSlice_timers SessionData d σ1) as H2;
      destruct (saveSlice SessionData d σ1) as [ok σ2]
  end.
  simpl in *. eauto using same_timers_trans.
Qed.

Lemma chapterChanged_timers chapterIndex σ :
  same_timers σ (useScrollTracking.chapterChanged chapterIndex σ).2.
Proof.
  unfold useScrollTracking.chapterChanged, loadSessionData, saveSessionData.
  pose proof (loadSlice_timers SessionData σ) as H1.
  destruct (loadSlice SessionData σ) as [r1 σ1]. simpl in H1.
  destruct (get_field _ _) as [| | | |str|l|]; try done.
  - by destruct (string_includes _ _).
  - destruct (array_includes _ _); [done|].
    pose proof (modify_field_timers r1 "chaptersRead" (push (VNum chapterIndex)) σ1)
      as H2.
    destruct (modify_field r1 _ _ σ1) as [r2 σ2].
    pose proof (saveSlice_timers SessionData r2 σ2) as H3.
    destruct (saveSlice SessionData r2 σ2) as [ok σ3]. simpl in *.
    eauto using same_timers_trans.
Qed.

Lemma perform_wf a σ : timers_wf σ -> timers_wf (perform a σ).
Proof.
  intros Hwf.
  destruct a as [s d|s|key d delay|i p|newIndex|i p note rnd|id| |jsonData|
                 |rnd|i|until]; simpl.
  - by eapply same_timers_wf; [apply saveSlice_timers|].
  - by eapply same_timers_wf; [apply loadSlice_timers|].
  - by apply debouncedSave_spec.
  - by apply updateScrollPosition_wf.
  - by eapply same_timers_wf; [apply saveNavigation_timers|].
  - by eapply same_timers_wf; [apply addBookmark_timers|].
  - by eapply same_timers_wf; [apply removeBookmark_timers|].
  - by eapply same_timers_wf; [apply exportUserData_timers|].
  - by eapply same_timers_wf; [apply importUserData_timers|].
  - by eapply same_timers_wf; [apply clearAllData_timers|].
  - by eapply same_timers_wf; [apply initializeSession_timers|].
  - by eapply same_timers_wf; [apply chapterChanged_timers|].
  - by apply advance_wf.
Qed.

(** Well-formedness of the timers is an invariant: it holds when the page is
    loaded and after every sequence of actions. *)
Lemma timers_wf_invariant (actions : list action) loaded random stored :
  timers_wf (foldl (fun σ a => perform a σ) (boot loaded random stored) actions).
Proof.
  generalize (boot_wf loaded random stored).
  generalize (boot loaded random stored).
  induction actions as [|a actions IH]; intros σ Hwf; simpl; [done|].
  by apply IH, perform_wf.
Qed.

(** * Further properties of the code *)

(** ** What the error handler records *)

Lemma map_to_json_clean l : json_clean (VArr l) = true -> map to_json l = l.
Proof. intros H. apply to_json_clean in H. simpl in H. congruence. Qed.

Lemma json_clean_tail l : json_clean (VArr l) = true -> json_clean (VArr (tail l)) = true.
Proof. destruct l as [|x l]; simpl; [done|]. by intros [_ ?]%andb_true_iff. Qed.

Lemma critical_errors_setItem item σ :
  quotaExceeded σ = false ->
  critical_errors (setItem critical_errors_key item σ).2
  = (if text_falsy item then Some (VArr []) else JSON_parse item).
Proof.
  intros HQ. unfold critical_errors, getItem, setItem. rewrite HQ /=.
  by rewrite lookup_insert_eq.
Qed.

Lemma pushed_critical_spec l entry :
  (if (10 <? length (l ++ [entry]))%nat then tail (l ++ [entry]) else l ++ [entry])
  = pushed_critical l entry.
Proof.
  unfold pushed_critical. rewrite length_app.
  change (length [entry]) with 1%nat.
  destruct (Nat.ltb_spec 10 (length l + 1)), (Nat.leb_spec 10 (length l));
    try lia; [|done].
  destruct l; [simpl in *; lia | done].
Qed.

Lemma map_pushed_critical l entry :
  json_clean (VArr l) = true ->
  map to_json (pushed_critical l entry) = pushed_critical l (to_json entry).
Proof.
  intros Hclean. unfold pushed_critical. rewrite map_app. f_equal.
  destruct (10 <=? length l)%nat.
  - by apply map_to_json_clean, json_clean_tail.
  - by apply map_to_json_clean.
Qed.

(** A critical error is pushed on the stored list, which is written back
    with at most ten entries when it had at most ten. *)
Lemma storeCriticalError_stored error σ l :
  quotaExceeded σ = false ->
  critical_errors σ = Some (VArr l) -> json_clean (VArr l) = true ->
  critical_errors (storeCriticalError error σ)
  = Some (VArr (pushed_critical l (to_json (critical_entry error)))).
Proof.
  intros HQ Hl Hclean. unfold storeCriticalError.
  change (match getItem critical_errors_key σ with
          | Some item => if text_falsy item then Some (VArr []) else JSON_parse item
          | None => Some (VArr [])
          end) with (critical_errors σ).
  rewrite Hl. cbv zeta. rewrite pushed_critical_spec.
  cbn [JSON_stringify]. rewrite critical_errors_setItem //.
  cbn [text_falsy JSON_parse to_json]. by rewrite map_pushed_critical.
Qed.

Lemma setItem_errorLog key item σ : errorLog (setItem key item σ).2 = errorLog σ.
Proof. unfold setItem. by destruct (quotaExceeded σ). Qed.

Lemma storeCriticalError_errorLog error σ :
  errorLog (storeCriticalError error σ) = errorLog σ.
Proof.
  unfold storeCriticalError.
  destruct (match getItem critical_errors_key σ with
            | Some item => _ | None => _ end) as [[| | | | |l|]|]; try done.
  cbn [JSON_stringify]. apply setItem_errorLog.
Qed.

(** The log after an error has been created: the error comes last, and at
    fifty entries the oldest makes room. *)
Lemma createError_errorLog c msg op d σ :
  errorLog (createError c msg op d σ).2
  = (let pushed := errorLog σ ++ [(createError c msg op d σ).1] in
     if (maxLogSize <? length pushed)%nat then tail pushed else pushed).
Proof.
  unfold createError, logError. cbn [fst snd recoverable].
  destruct (isRecoverable c); [done|]. by rewrite storeCriticalError_errorLog.
Qed.

Lemma createError_last c msg op d σ :
  last (errorLog (createError c msg op d σ).2) = Some (createError c msg op d σ).1.
Proof.
  rewrite createError_errorLog. cbv zeta.
  set (error := (createError c msg op d σ).1).
  destruct (Nat.ltb_spec maxLogSize (length (errorLog σ ++ [error])))
    as [Hlen|_]; [|by rewrite last_snoc].
  destruct (errorLog σ) as [|e0 log] eqn:E.
  - unfold maxLogSize in Hlen. simpl in Hlen. lia.
  - cbn [app tail]. by rewrite last_snoc.
Qed.

Lemma createError_bounded c msg op d σ :
  log_bounded σ -> log_bounded (createError c msg op d σ).2.
Proof.
  unfold log_bounded. rewrite createError_errorLog. cbv zeta.
  set (error := (createError c msg op d σ).1). intros Hb.
  destruct (Nat.ltb_spec maxLogSize (length (errorLog σ ++ [error]))) as [Hlen|Hlen];
    [|done].
  rewrite length_app /= in Hlen.
  destruct (errorLog σ) as [|e0 log]; simpl in *; [lia|].
  rewrite length_app /=. lia.
Qed.

(** X1. A save that the validator rejects leaves the slice alone but does
    write to the local storage: a record of the failure, carrying the
    rejected candidate, is pushed on the list kept under
    [novel-critical-errors], which drops its oldest entry at ten. *)
Theorem rejected_save_is_recorded (s : slice) (c : ref) (σ : machine)
    (l : list value) :
  validator s (deref (defaults σ) c) = false ->
  quotaExceeded σ = false ->
  critical_errors σ = Some (VArr l) -> json_clean (VArr l) = true ->
  exists entry,
    critical_errors (saveSlice s c σ).2 = Some (VArr (pushed_critical l entry))
    /\ get_field entry "code" = VStr "VALIDATION_FAILED"
    /\ get_field entry "message"
       = VStr ("Data validation failed for key: " +:+ STORAGE_KEYS s)
    /\ get_field (get_field entry "context") "data"
       = match deref (defaults σ) c with
         | VUndefined => VUndefined
         | x => to_json x
         end
    /\ (length (pushed_critical l entry) <= Nat.max 10 (length l))%nat.
Proof.
  intros Hinvalid HQ Hl Hclean.
  unfold saveSlice, validateStorageData. rewrite Hinvalid.
  cbn [negb]. unfold createError, logError.
  cbn [recoverable isRecoverable snd].
  eexists. split.
  { apply storeCriticalError_stored; [done| |done].
    unfold critical_errors in *. exact Hl. }
  split; [done|]. split; [done|]. split.
  - cbn [critical_entry context data to_json]. by destruct (deref (defaults σ) c).
  - unfold pushed_critical. rewrite length_app.
    change (length [_]) with 1%nat.
    destruct (Nat.leb_spec 10 (length l)); [|lia].
    destruct l; simpl in *; lia.
Qed.

Lemma rejected_save_is_recorded_witness :
  let σ := boot 0 "k3v9x2a1b" ∅ in
  exists entry,
    critical_errors (saveUserPreferences (Local purple_theme []) σ).2
      = Some (VArr [entry])
    /\ get_field (get_field entry "context") "data" = purple_theme.
Proof.
  intros σ.
  destruct (rejected_save_is_recorded Preferences (Local purple_theme []) σ [])
    as (entry & Hstored & _ & _ & Hdata & _); [reflexivity..|].
  exists entry. split; [exact Hstored | exact Hdata].
Defined.

(** X2. Creating an error stores nothing when its kind is recoverable (quota
    exceeded, network, serialisation, deserialisation), when the storage
    refuses writes, or when what is stored under [novel-critical-errors] is
    not a list: the error is then on record in memory only. *)
Theorem createError_stores_nothing (c : ErrorCode) (msg op : string) (d : value)
    (σ : machine) :
  isRecoverable c = true \/ quotaExceeded σ = true
  \/ (forall l, critical_errors σ <> Some (VArr l)) ->
  localStorage (createError c msg op d σ).2 = localStorage σ
  /\ last (errorLog (createError c msg op d σ).2) = Some (createError c msg op d σ).1.
Proof.
  intros H. split; [|apply createError_last].
  unfold createError, logError. cbn [fst snd recoverable].
  destruct (isRecoverable c) eqn:Hrec; [done|].
  destruct H as [?|[HQ|Hlist]]; [done| |].
  - unfold storeCriticalError, getItem. simpl localStorage.
    destruct (match localStorage σ !! critical_errors_key with
              | Some item => _ | None => _ end) as [[| | | | |l|]|]; try done.
    cbn [JSON_stringify]. unfold setItem. simpl quotaExceeded. by rewrite HQ.
  - unfold storeCriticalError.
    change (getItem critical_errors_key (with_errorLog ?x σ))
      with (getItem critical_errors_key σ).
    change (match getItem critical_errors_key σ with
            | Some item => if text_falsy item then Some (VArr []) else JSON_parse item
            | None => Some (VArr [])
            end) with (critical_errors σ).
    destruct (critical_errors σ) as [[| | | | |l|]|] eqn:E; try done.
    by destruct (Hlist l).
Qed.

Lemma createError_stores_nothing_witness :
  let σ := boot 0 "k3v9x2a1b" {[ critical_errors_key := Json (VObj []) ]} in
  localStorage (createError VALIDATION_FAILED "m" "op" VNull σ).2 = localStorage σ.
Proof.
  intros σ.
  apply (createError_stores_nothing VALIDATION_FAILED "m" "op" VNull σ).
  right; right. intros l. vm_compute. discriminate.
Defined.

(** ** The error log stays bounded *)

Lemma saveToStorage_errorLog key d σ :
  errorLog (saveToStorage key d σ).2 = errorLog σ.
Proof. rewrite saveToStorage_unfold. by destruct (quotaExceeded σ). Qed.

Lemma loadFromStorage_bounded key d σ :
  log_bounded σ -> log_bounded (loadFromStorage key d σ).2.
Proof.
  intros Hb. unfold loadFromStorage. destruct (getItem key σ) as [item|]; [|done].
  destruct (text_falsy item); [done|].
  destruct item as [raw|doc]; simpl.
  - by apply createError_bounded.
  - destruct (is_nullish doc); [done|]. by destruct (truthy _).
Qed.

Lemma loadSlice_bounded s σ : log_bounded σ -> log_bounded (loadSlice s σ).2.
Proof.
  intros Hb. rewrite loadSlice_unfold. simpl. by apply loadFromStorage_bounded.
Qed.

Lemma saveSlice_bounded s d σ : log_bounded σ -> log_bounded (saveSlice s d σ).2.
Proof.
  intros Hb. unfold saveSlice, validateStorageData.
  destruct (validator s _); simpl; [|by apply createError_bounded].
  unfold log_bounded. by rewrite saveToStorage_errorLog.
Qed.

Lemma assign_errorLog r f x σ : errorLog (assign r f x σ).2 = errorLog σ.
Proof. by destruct r. Qed.

Lemma modify_field_errorLog r f g σ : errorLog (modify_field r f g σ).2 = errorLog σ.
Proof. destruct r as [s|v bs]; simpl; [done|]. by destruct (owner f bs). Qed.

Lemma debouncedSave_errorLog key d delay σ :
  errorLog (debouncedSave key d delay σ) = errorLog σ.
Proof. unfold debouncedSave. by destruct (debounceTimers σ !! key). Qed.

Lemma fire_errorLog t σ : errorLog (fire t σ) = errorLog σ.
Proof. unfold fire. simpl. by rewrite saveToStorage_errorLog. Qed.

Lemma run_timers_errorLog fuel until σ :
  errorLog (run_timers fuel until σ) = errorLog σ.
Proof.
  revert σ. induction fuel as [|fuel IH]; intros σ; simpl; [done|].
  destruct (earliest (timeouts σ)) as [t|]; [|done].
  destruct (due t <=? until); [|done]. by rewrite IH fire_errorLog.
Qed.

Lemma advance_errorLog until σ : errorLog (advance until σ) = errorLog σ.
Proof. unfold advance. simpl. apply run_timers_errorLog. Qed.

Lemma clearAllData_errorLog σ : errorLog (clearAllData σ) = errorLog σ.
Proof. done. Qed.

Lemma import_slice_bounded data s σ :
  log_bounded σ -> log_bounded (import_slice data s σ).
Proof.
  intros Hb. unfold import_slice. destruct (truthy _); [|done].
  by apply saveSlice_bounded.
Qed.

Lemma perform_bounded a σ : log_bounded σ -> log_bounded (perform a σ).
Proof.
  intros Hb.
  destruct a as [s d|s|key d delay|i p|newIndex|i p note rnd|id| |jsonData|
                 |rnd|i|until]; simpl.
  - by apply saveSlice_bounded.
  - by apply loadSlice_bounded.
  - unfold log_bounded. by rewrite debouncedSave_errorLog.
  - unfold updateScrollPosition, loadReadingState.
    pose proof (loadSlice_bounded ReadingState σ Hb) as H1.
    destruct (loadSlice ReadingState σ) as [r1 σ1].
    pose proof (assign_errorLog r1 "scrollPosition" (VNum p) σ1) as H2.
    destruct (assign r1 _ _ σ1) as [r2 σ2].
    pose proof (assign_errorLog r2 "lastReadTime" (VStr (toISOString (clock σ))) σ2)
      as H3.
    destruct (assign r2 _ _ σ2) as [r3 σ3]. simpl in H1, H2, H3.
    destruct (negb _); simpl; [unfold log_bounded; by rewrite H3 H2|].
    match goal with
    | |- context [modify_field r3 ?f ?g σ3] =>
        pose proof (modify_field_errorLog r3 f g σ3) as H4;
        destruct (modify_field r3 f g σ3) as [r4 σ4]
    end.
    simpl in *. unfold log_bounded. by rewrite debouncedSave_errorLog H4 H3 H2.
  - unfold App.saveNavigation, loadReadingState, saveReadingState.
    pose proof (loadSlice_bounded ReadingState σ Hb) as H1.
    destruct (loadSlice ReadingState σ) as [r1 σ1].
    pose proof (assign_errorLog r1 "currentChapterIndex" (VNum newIndex) σ1) as H2.
    destruct (assign r1 _ _ σ1) as [r2 σ2].
    pose proof (assign_errorLog r2 "lastReadTime" (VStr (toISOString (clock σ))) σ2)
      as H3.
    destruct (assign r2 _ _ σ2) as [r3 σ3]. simpl in H1, H2, H3.
    apply saveSlice_bounded. unfold log_bounded. by rewrite H3 H2.
  - unfold addBookmark, loadSessionData, saveSessionData.
    pose proof (loadSlice_bounded SessionData σ Hb) as H1.
    destruct (loadSlice SessionData σ) as [r1 σ1]. simpl in H1.
    destruct (is_array _); [|done].
    set (b := new_bookmark _ _ _ _ _).
    pose proof (modify_field_errorLog r1 "bookmarkPositions" (push b) σ1) as H2.
    destruct (modify_field r1 _ _ σ1) as [r2 σ2]. simpl in H2.
    assert (log_bounded σ2) as Hb2 by (unfold log_bounded; by rewrite H2).
    pose proof (saveSlice_bounded SessionData r2 σ2 Hb2) as H3.
    by destruct (saveSlice SessionData r2 σ2) as [ok σ3].
  - unfold removeBookmark, loadSessionData, saveSessionData.
    pose proof (loadSlice_bounded SessionData σ Hb) as H1.
    destruct (loadSlice SessionData σ) as [r1 σ1]. simpl in H1.
    destruct (get_field _ _) as [| | | | |l|]; try done.
    destruct (filter_bookmarks id l) as [kept|]; [|done].
    pose proof (assign_errorLog r1 "bookmarkPositions" (VArr kept) σ1) as H2.
    destruct (assign r1 _ _ σ1) as [r2 σ2]. simpl in H2.
    assert (log_bounded σ2) as Hb2 by (unfold log_bounded; by rewrite H2).
    destruct (_ <? _)%nat; [|done].
    pose proof (saveSlice_bounded SessionData r2 σ2 Hb2) as H3.
    by destruct (saveSlice SessionData r2 σ2) as [ok σ3].
  - unfold exportUserData, loadUserPreferences, loadReadingState, loadUIState,
      loadSessionData.
    pose proof (loadSlice_bounded Preferences σ Hb) as H1.
    destruct (loadSlice Preferences σ) as [r1 σ1].
    pose proof (loadSlice_bounded ReadingState σ1 H1) as H2.
    destruct (loadSlice ReadingState σ1) as [r2 σ2].
    pose proof (loadSlice_bounded UIState σ2 H2) as H3.
    destruct (loadSlice UIState σ2) as [r3 σ3].
    pose proof (loadSlice_bounded SessionData σ3 H3) as H4.
    by destruct (loadSlice SessionData σ3) as [r4 σ4].
  - unfold importUserData. destruct (JSON_parse jsonData) as [data|]; [|done].
    destruct (is_nullish data); [done|]. simpl.
    by do 4 apply import_slice_bounded.
  - done.
  - unfold initializeSession, loadSessionData, saveSessionData.
    pose proof (loadSlice_bounded SessionData σ Hb) as H1.
    destruct (loadSlice SessionData σ) as [r1 σ1]. simpl in H1.
    destruct (plus _ 1) as [visitCount|]; [|done].
    match goal with
    | |- context [saveSlice SessionData ?d σ1] =>
        pose proof (saveSlice_bounded SessionData d σ1 H1) as H2;
        destruct (saveSlice SessionData d σ1) as [ok σ2]
    end.
    done.
  - unfold useScrollTracking.chapterChanged, loadSessionData, saveSessionData.
    pose proof (loadSlice_bounded SessionData σ Hb) as H1.
    destruct (loadSlice SessionData σ) as [r1 σ1]. simpl in H1.
    destruct (get_field _ _) as [| | | |str|l|]; try done.
    + by destruct (string_includes _ _).
    + destruct (array_includes _ _); [done|].
      pose proof (modify_field_errorLog r1 "chaptersRead" (push (VNum i)) σ1) as H2.
      destruct (modify_field r1 _ _ σ1) as [r2 σ2]. simpl in H2.
      assert (log_bounded σ2) as Hb2 by (unfold log_bounded; by rewrite H2).
      pose proof (saveSlice_bounded SessionData r2 σ2 Hb2) as H3.
      by destruct (saveSlice SessionData r2 σ2) as [ok σ3].
  - unfold log_bounded. by rewrite advance_errorLog.
Qed.

(** X3. The error log held in memory never grows beyond fifty entries,
    whatever the page does: saves, loads, scroll tracking, navigation,
    bookmarks, export and import, clearing, and the timers that fire in
    between. *)
Theorem error_log_bounded (actions : list action) (loaded : Z) (random : string)
    (stored : gmap string text) :
  (length (errorLog (foldl (fun σ a => perform a σ) (boot loaded random stored)
                           actions)) <= 50)%nat.
Proof.
  change (log_bounded (foldl (fun σ a => perform a σ) (boot loaded random stored)
                             actions)).
  assert (log_bounded (boot loaded random stored)) as Hb
    by (unfold log_bounded, maxLogSize; simpl; lia).
  revert Hb. generalize (boot loaded random stored).
  induction actions as [|a actions IH]; intros σ Hb; simpl; [done|].
  by apply IH, perform_bounded.
Qed.

(** ** One pending save per key *)

Lemma timers_wf_keys σ : timers_wf σ -> NoDup (tkey <$> timeouts σ).
Proof.
  intros (Hnd & Hreg & _).
  apply NoDup_fmap_2_strong; [|by eapply NoDup_fmap_1].
  intros t t' Hin Hin' Hkey. apply (tid_unique (timeouts σ)); try done.
  pose proof (Hreg t Hin) as H1. pose proof (Hreg t' Hin') as H2.
  rewrite Hkey H2 in H1. congruence.
Qed.

(** X4. At every moment at most one debounced save is pending for a key:
    whatever the page does, the keys of the pending timeouts are pairwise
    distinct. *)
Theorem one_pending_save_per_key (actions : list action) (loaded : Z)
    (random : string) (stored : gmap string text) :
  NoDup (tkey <$> timeouts (foldl (fun σ a => perform a σ)
                                  (boot loaded random stored) actions)).
Proof. apply timers_wf_keys, timers_wf_invariant. Qed.

(** ** Retrying, whatever the operation does *)

Lemma backoff_schedule_step name attempt k :
  (0 < k)%nat ->
  backoff_schedule name attempt (S k)
  = EvAttempt name attempt :: EvSleep (2 ^ Z.of_nat attempt * 100)
    :: backoff_schedule name (S attempt) k.
Proof. destruct k; [lia|done]. Qed.

Section Retries.
Context {T : Type}.
Variable operation : machine -> completion T * machine.
Variable operationName : string.
Variable fallback : option (machine -> completion T * machine).
Variable maxRetries : nat.

(** Neither the operation nor the fallback goes through the retry loop
    itself. *)
Hypothesis operation_quiet : forall σ,
  retry_events (trace (operation σ).2) = retry_events (trace σ).
Hypothesis fallback_quiet : forall f σ,
  fallback = Some f -> retry_events (trace (f σ).2) = retry_events (trace σ).

Lemma attempts_bounded remaining attempt lastError σ :
  (attempt + remaining = S maxRetries)%nat ->
  let r := Retry.attempts operation operationName fallback maxRetries
             remaining attempt lastError σ in
  exists k, (k <= remaining)%nat /\ ((0 < remaining)%nat -> (0 < k)%nat)
    /\ retry_events (trace r.2)
       = retry_events (trace σ) ++ backoff_schedule operationName attempt k.
Proof.
  revert attempt lastError σ.
  induction remaining as [|remaining IH]; intros attempt lastError σ Hsum.
  { exists 0%nat. simpl. rewrite app_nil_r. split_frame. }
  simpl.
  set (σa := with_trace _ σ).
  pose proof (operation_quiet σa) as Hquiet.
  destruct (operation σa) as [[v|e] σ1]; simpl in Hquiet.
  { exists 1%nat. simpl. rewrite Hquiet /σa /= retry_events_app. split_frame. }
  assert (forall c msg,
            retry_events (trace (createError c msg operationName VUndefined σ1).2)
            = retry_events (trace σ) ++ [EvAttempt operationName attempt]) as Herr.
  { intros c msg. by rewrite createError_retry_events Hquiet /σa /= retry_events_app. }
  assert (forall σ2,
            retry_events (trace σ2)
            = retry_events (trace σ) ++ [EvAttempt operationName attempt] ->
            exists k, (k <= S remaining)%nat /\ ((0 < S remaining)%nat -> (0 < k)%nat)
              /\ retry_events
                   (trace (Retry.attempts operation operationName fallback maxRetries
                             remaining (S attempt) (Some e)
                             (if (attempt <? maxRetries)%nat
                              then Retry.sleep (2 ^ Z.of_nat attempt * 100) σ2
                              else σ2)).2)
                 = retry_events (trace σ)
                   ++ backoff_schedule operationName attempt k) as Hbackoff.
  { intros σ2 Hσ2.
    destruct (Nat.ltb_spec attempt maxRetries) as [Hlt|Hge].
    - destruct (IH (S attempt) (Some e)
                  (Retry.sleep (2 ^ Z.of_nat attempt * 100) σ2))
        as (k & Hk & Hpos & Htr); [lia|].
      exists (S k). split; [lia|]. split; [lia|].
      rewrite Htr sleep_retry_events Hσ2 backoff_schedule_step; [apply Hpos; lia|].
      by rewrite -!app_assoc.
    - assert (remaining = 0)%nat as -> by lia.
      exists 1%nat. simpl. rewrite Hσ2. split_frame. }
  assert (forall f σ2,
            fallback = Some f ->
            retry_events (trace σ2)
            = retry_events (trace σ) ++ [EvAttempt operationName attempt] ->
            exists k, (k <= S remaining)%nat /\ ((0 < S remaining)%nat -> (0 < k)%nat)
              /\ retry_events (trace (f σ2).2)
                 = retry_events (trace σ)
                   ++ backoff_schedule operationName attempt k) as Hfallback.
  { intros f σ2 Hf Hσ2. exists 1%nat. simpl. rewrite (fallback_quiet f) // Hσ2.
    split_frame. }
  destruct e as [code name|m|m].
  - destruct (Retry.is_quota code name).
    + destruct fallback as [f|] eqn:Hf.
      * destruct (attempt =? maxRetries)%nat.
        -- apply (Hfallback f); [done | apply Herr].
        -- apply Hbackoff. rewrite freeUpStorage_retry_events. apply Herr.
      * apply Hbackoff. rewrite freeUpStorage_retry_events. apply Herr.
    + destruct fallback as [f|] eqn:Hf.
      * apply (Hfallback f); [done | apply Herr].
      * apply Hbackoff, Herr.
  - apply Hbackoff, Herr.
  - apply Hbackoff, Herr.
Qed.

(** An operation that raises [e] at every attempt *)
Variable e : exn.
Hypothesis operation_raises : forall σ, (operation σ).1 = Throw e.

Lemma attempts_exhausted remaining attempt lastError σ :
  fallback = None \/ (forall code name, e <> DOMException code name) ->
  (0 < remaining)%nat -> (attempt + remaining = S maxRetries)%nat ->
  let r := Retry.attempts operation operationName fallback maxRetries
             remaining attempt lastError σ in
  r.1 = Throw e
  /\ retry_events (trace r.2)
     = retry_events (trace σ) ++ backoff_schedule operationName attempt remaining.
Proof.
  intros Hno. revert attempt lastError σ.
  induction remaining as [|remaining IH]; intros attempt lastError σ Hpos Hsum;
    [lia|].
  simpl.
  set (σa := with_trace _ σ).
  pose proof (operation_quiet σa) as Hquiet.
  pose proof (operation_raises σa) as Hop.
  destruct (operation σa) as [res σ1]; simpl in Hquiet, Hop. subst res.
  assert (forall σ2,
            retry_events (trace σ2)
            = retry_events (trace σ) ++ [EvAttempt operationName attempt] ->
            let r := Retry.attempts operation operationName fallback maxRetries
                       remaining (S attempt) (Some e)
                       (if (attempt <? maxRetries)%nat
                        then Retry.sleep (2 ^ Z.of_nat attempt * 100) σ2
                        else σ2) in
            r.1 = Throw e
            /\ retry_events (trace r.2)
               = retry_events (trace σ)
                 ++ backoff_schedule operationName attempt (S remaining)) as Hbackoff.
  { intros σ2 Hσ2. destruct remaining as [|remaining].
    - assert ((attempt <? maxRetries)%nat = false) as ->
        by (apply Nat.ltb_ge; lia).
      simpl. by rewrite Hσ2.
    - assert ((attempt <? maxRetries)%nat = true) as ->
        by (apply Nat.ltb_lt; lia).
      destruct (IH (S attempt) (Some e)
                  (Retry.sleep (2 ^ Z.of_nat attempt * 100) σ2))
        as [Hres Htr]; [lia|lia|].
      split; [exact Hres|].
      rewrite Htr sleep_retry_events Hσ2.
      rewrite (backoff_schedule_step _ attempt (S remaining)); [lia|].
      by rewrite -!app_assoc. }
  assert (forall c msg,
            retry_events (trace (createError c msg operationName VUndefined σ1).2)
            = retry_events (trace σ) ++ [EvAttempt operationName attempt]) as Herr.
  { intros c msg. by rewrite createError_retry_events Hquiet /σa /= retry_events_app. }
  destruct e as [code name|m|m] eqn:He.
  - destruct Hno as [Hnone|Hno]; [|by destruct (Hno code name)].
    rewrite Hnone in Hbackoff |- *.
    destruct (Retry.is_quota code name).
    + apply Hbackoff. rewrite freeUpStorage_retry_events. apply Herr.
    + apply Hbackoff, Herr.
  - apply Hbackoff, Herr.
  - apply Hbackoff, Herr.
Qed.

End Retries.

(** X5. [handleStorageOperation] never attempts the operation more often
    than [maxRetries] allows, whatever the operation and the fallback do:
    its attempts and sleeps are the first [k] attempts of the back-off
    schedule (sleeps of 200 ms, 400 ms, ... in between) for some [k] up to
    [maxRetries]. With a limit of zero the operation is not attempted at all
    and the call raises. *)
Theorem retries_are_bounded {T : Type}
    (operation : machine -> completion T * machine) (operationName : string)
    (fallback : option (machine -> completion T * machine)) (maxRetries : nat)
    (σ : machine) :
  (forall σ, retry_events (trace (operation σ).2) = retry_events (trace σ)) ->
  (forall f σ, fallback = Some f ->
     retry_events (trace (f σ).2) = retry_events (trace σ)) ->
  let r := Retry.handleStorageOperation operation operationName fallback
             maxRetries σ in
  (exists k, (k <= maxRetries)%nat
     /\ retry_events (trace r.2)
        = retry_events (trace σ) ++ backoff_schedule operationName 1 k)
  /\ (maxRetries = 0%nat ->
      r = (Throw (Error ("Operation " +:+ operationName
                         +:+ " failed after 0 attempts")), σ)).
Proof.
  intros Hop Hfb r. split.
  - destruct (attempts_bounded operation operationName fallback maxRetries
                Hop Hfb maxRetries 1 None σ) as (k & Hk & _ & Htr); [lia|].
    by exists k.
  - intros ->. done.
Qed.

Lemma retries_are_bounded_witness :
  let op := raw_write "novel-preferences" (Json VNull) in
  exists k, (k <= 3)%nat
    /\ retry_events (trace (Retry.handleStorageOperation op "save" None 3
                              full_storage).2)
       = backoff_schedule "save" 1 k.
Proof.
  intros op.
  destruct (retries_are_bounded op "save" None 3 full_storage) as [Hk _].
  - intros σ. unfold op, raw_write.
    pose proof (setItem_retry_events "novel-preferences" (Json VNull) σ) as H.
    by destruct (setItem _ _ σ) as [[[]|e] σ'].
  - intros f σ [=].
  - exact Hk.
Defined.

(** X6. When the operation raises the same error at every attempt and no
    fallback applies, the call makes [maxRetries] attempts, sleeping in
    between, and then raises that error. No fallback applies when none was
    given, and also when the error is not a [DOMException]: a fallback that
    was supplied is then never consulted. *)
Theorem exhausted_retries_rethrow {T : Type}
    (operation : machine -> completion T * machine) (operationName : string)
    (fallback : option (machine -> completion T * machine)) (maxRetries : nat)
    (e : exn) (σ : machine) :
  (0 < maxRetries)%nat ->
  (forall σ, (operation σ).1 = Throw e) ->
  (forall σ, retry_events (trace (operation σ).2) = retry_events (trace σ)) ->
  fallback = None \/ (forall code name, e <> DOMException code name) ->
  let r := Retry.handleStorageOperation operation operationName fallback
             maxRetries σ in
  r.1 = Throw e
  /\ retry_events (trace r.2)
     = retry_events (trace σ) ++ backoff_schedule operationName 1 maxRetries.
Proof.
  intros Hpos Hraises Hquiet Hno.
  apply (attempts_exhausted operation operationName fallback maxRetries Hquiet e
           Hraises); [done|done|lia].
Qed.

Lemma exhausted_retries_rethrow_witness :
  let op := fun σ : machine => (@Throw bool (TypeError "failed"), σ) in
  let fb := fun σ : machine => (Normal false, σ) in
  (Retry.handleStorageOperation op "save" (Some fb) 3 full_storage).1
  = Throw (TypeError "failed").
Proof.
  intros op fb.
  apply (exhausted_retries_rethrow op "save" (Some fb) 3 (TypeError "failed")
           full_storage); [lia|done|done|].
  right. intros code name. discriminate.
Defined.

(** X7. A [DOMException] other than the quota error ends the retry loop at
    once when a fallback was given: after a single attempt, without sleeping,
    the call answers what the fallback answers. *)
Theorem storage_error_falls_back_at_once {T : Type}
    (operation fallback : machine -> completion T * machine)
    (operationName : string) (maxRetries : nat) (code : Z) (name : string)
    (σ : machine) :
  (0 < maxRetries)%nat -> Retry.is_quota code name = false ->
  (forall σ, (operation σ).1 = Throw (DOMException code name)) ->
  (forall σ, retry_events (trace (operation σ).2) = retry_events (trace σ)) ->
  (forall σ, retry_events (trace (fallback σ).2) = retry_events (trace σ)) ->
  let r := Retry.handleStorageOperation operation operationName (Some fallback)
             maxRetries σ in
  (exists σ', r = fallback σ')
  /\ retry_events (trace r.2)
     = retry_events (trace σ) ++ [EvAttempt operationName 1].
Proof.
  intros Hpos Hq Hraises Hquiet Hfb.
  unfold Retry.handleStorageOperation.
  destruct maxRetries as [|n]; [lia|]. cbn [Retry.attempts].
  set (σa := with_trace _ σ).
  pose proof (Hraises σa) as Hop. pose proof (Hquiet σa) as Hq1.
  destruct (operation σa) as [res σ1]. simpl in Hop, Hq1. subst res.
  rewrite Hq. split; [by eexists|].
  by rewrite Hfb createError_retry_events Hq1 /σa /= retry_events_app.
Qed.

Lemma storage_error_falls_back_at_once_witness :
  let op := fun σ : machine => (@Throw bool (DOMException 18 "SecurityError"), σ) in
  let fb := fun σ : machine => (Normal false, σ) in
  retry_events (trace (Retry.handleStorageOperation op "save" (Some fb) 3
                         full_storage).2)
  = [EvAttempt "save" 1].
Proof.
  intros op fb.
  apply (storage_error_falls_back_at_once op fb "save" 3 18 "SecurityError"
           full_storage); [lia|done..].
Defined.

(** ** Freeing storage *)

Lemma sweep_lookup (m : gmap string text) key :
  filter (fun kv : string * text =>
            negb (String.prefix "temp-" kv.1 || String.prefix "cache-" kv.1)) m
    !! key
  = if temporary key then None else m !! key.
Proof.
  rewrite map_lookup_filter. unfold temporary.
  destruct (m !! key) as [x|]; simpl; [|by destruct (_ || _)].
  destruct (String.prefix "temp-" key || String.prefix "cache-" key);
    by case_guard.
Qed.

Lemma json_clean_drop n l :
  json_clean (VArr l) = true -> json_clean (VArr (drop n l)) = true.
Proof.
  revert l. induction n as [|n IH]; intros [|x l]; simpl; try done.
  intros [_ ?]%andb_true_iff. by apply IH.
Qed.

(** X8. [freeUpStorage], when the stored critical errors are a list and the
    storage takes the write (or the list has at most five entries, so that
    nothing is written): every key that starts with [temp-] or [cache-] is
    gone, the list of critical errors is cut down to its last five entries,
    and every other key, the four slices among them, is as it was. *)
Theorem freeUpStorage_sweeps (σ : machine) (l : list value) :
  quotaExceeded σ = false \/ (length l <= 5)%nat ->
  critical_errors σ = Some (VArr l) -> json_clean (VArr l) = true ->
  let σ' := freeUpStorage σ in
  (forall key, temporary key = true -> localStorage σ' !! key = None)
  /\ critical_errors σ' = Some (VArr (drop (length l - 5) l))
  /\ (forall key, temporary key = false -> key <> critical_errors_key ->
        localStorage σ' !! key = localStorage σ !! key)
  /\ (forall s, localStorage σ' !! STORAGE_KEYS s = localStorage σ !! STORAGE_KEYS s).
Proof.
  intros Hwrite Hl Hclean σ'.
  assert (forall σ0 : machine,
            critical_errors (with_localStorage
              (filter (fun kv : string * text =>
                         negb (String.prefix "temp-" kv.1
                               || String.prefix "cache-" kv.1))
                      (localStorage σ0)) σ0)
            = critical_errors σ0) as Hswept.
  { intros σ0. unfold critical_errors, getItem. simpl. by rewrite sweep_lookup. }
  enough ((forall key, temporary key = true -> localStorage σ' !! key = None)
          /\ critical_errors σ' = Some (VArr (drop (length l - 5) l))
          /\ (forall key, temporary key = false -> key <> critical_errors_key ->
                localStorage σ' !! key = localStorage σ !! key)) as (H1 & H2 & H3).
  { split_frame. intros s. apply H3; [by destruct s|apply STORAGE_KEYS_not_critical]. }
  unfold σ', freeUpStorage.
  change (match getItem critical_errors_key σ with
          | Some item => if text_falsy item then Some (VArr []) else JSON_parse item
          | None => Some (VArr [])
          end) with (critical_errors σ).
  rewrite Hl.
  destruct (Nat.ltb_spec 5 (length l)) as [Hlong|Hshort].
  - destruct Hwrite as [HQ|?]; [|lia].
    cbn [JSON_stringify]. unfold setItem. rewrite HQ. cbn [fst snd].
    split; [|split].
    + intros key Hkey. simpl. by rewrite sweep_lookup Hkey.
    + rewrite Hswept. unfold critical_errors, getItem. simpl.
      rewrite lookup_insert_eq. simpl.
      by rewrite (map_to_json_clean _ (json_clean_drop _ _ Hclean)).
    + intros key Hkey Hne. simpl. rewrite sweep_lookup Hkey.
      by rewrite lookup_insert_ne.
  - replace (length l - 5)%nat with 0%nat by lia. rewrite drop_0.
    split; [|split].
    + intros key Hkey. simpl. by rewrite sweep_lookup Hkey.
    + rewrite -Hl. apply Hswept.
    + intros key Hkey Hne. simpl. by rewrite sweep_lookup Hkey.
Qed.

Lemma freeUpStorage_sweeps_witness :
  let σ := boot 0 "k3v9x2a1b"
             {[ "temp-draft" := Malformed "x";
                STORAGE_KEYS Preferences := Json (envelope dark_preferences 0) ]} in
  localStorage (freeUpStorage σ) !! "temp-draft" = None
  /\ localStorage (freeUpStorage σ) !! STORAGE_KEYS Preferences
     = Some (Json (envelope dark_preferences 0)).
Proof.
  intros σ.
  destruct (freeUpStorage_sweeps σ []) as (Htemp & _ & _ & Hslices);
    [by left | reflexivity | reflexivity |].
  split; [by apply Htemp | apply (Hslices Preferences)].
Defined.

(** ** Loading never writes *)

Lemma loadFromStorage_ext key d σ σ' :
  localStorage σ' = localStorage σ ->
  (loadFromStorage key d σ').1 = (loadFromStorage key d σ).1.
Proof.
  intros Hsto. unfold loadFromStorage, getItem. rewrite Hsto.
  destruct (localStorage σ !! key) as [item|]; [|done].
  destruct (text_falsy item); [done|].
  destruct item as [raw|doc]; simpl; [done|].
  destruct (is_nullish doc); [done|]. by destruct (truthy _).
Qed.

Lemma in_use_ext s σ σ' :
  localStorage σ' = localStorage σ -> in_use s σ' = in_use s σ.
Proof. apply loadFromStorage_ext. Qed.

Lemma current_ext s σ σ' :
  localStorage σ' = localStorage σ -> defaults σ' = defaults σ ->
  current s σ' = current s σ.
Proof. intros Hsto Hd. unfold current. by rewrite Hd (in_use_ext s σ σ'). Qed.

Lemma loadSlice_ext s σ σ' :
  localStorage σ' = localStorage σ -> defaults σ' = defaults σ ->
  (loadSlice s σ').1 = (loadSlice s σ).1.
Proof.
  intros Hsto Hd. rewrite !loadSlice_unfold. cbn [fst].
  rewrite (loadFromStorage_ext _ _ σ σ') // Hd.
  destruct (validator s _); [done|]. by rewrite /sanitizeData Hd.
Qed.

Lemma loadSlice_frame s σ :
  localStorage (loadSlice s σ).2 = localStorage σ
  /\ defaults (loadSlice s σ).2 = defaults σ.
Proof.
  rewrite loadSlice_unfold. cbn [snd].
  by destruct (loadFromStorage_defaults (STORAGE_KEYS s) (Global s) σ)
    as (-> & -> & _).
Qed.

(** X9. Loading a slice never writes: the local storage, the default
    objects and the pending timers are as before, also when the stored text
    does not parse or the stored record is invalid. Nothing is repaired, so
    a load that follows answers the same. *)
Theorem load_is_read_only (s : slice) (σ : machine) :
  let σ' := (loadSlice s σ).2 in
  localStorage σ' = localStorage σ /\ defaults σ' = defaults σ
  /\ timeouts σ' = timeouts σ /\ debounceTimers σ' = debounceTimers σ
  /\ (loadSlice s σ').1 = (loadSlice s σ).1.
Proof.
  intros σ'. destruct (loadSlice_frame s σ) as [Hsto Hd].
  destruct (loadSlice_timers s σ) as (Hts & Hdt & _).
  split_frame. by apply loadSlice_ext.
Qed.

(** ** Clearing *)

Lemma clearAllData_localStorage σ :
  localStorage (clearAllData σ)
  = delete APP_DATA
      (delete (STORAGE_KEYS SessionData)
         (delete (STORAGE_KEYS UIState)
            (delete (STORAGE_KEYS ReadingState)
               (delete (STORAGE_KEYS Preferences) (localStorage σ))))).
Proof. done. Qed.

(** X10. [clearAllData] removes the four slices and [novel-app-data] and no
    other key. It resets nothing else: the default objects are as the page
    has left them, and a load that follows works on them; the pending timers
    stay. *)
Theorem clearAllData_clears (σ : machine) :
  let σ' := clearAllData σ in
  (forall key, key ∈ all_keys -> localStorage σ' !! key = None)
  /\ (forall key, key ∉ all_keys -> localStorage σ' !! key = localStorage σ !! key)
  /\ (forall s, in_use s σ' = Global s)
  /\ defaults σ' = defaults σ /\ timeouts σ' = timeouts σ.
Proof.
  intros σ'.
  assert (forall key, key ∈ all_keys -> localStorage σ' !! key = None) as Hgone.
  { intros key Hin. unfold σ'. rewrite clearAllData_localStorage.
    unfold all_keys in Hin. rewrite !elem_of_cons elem_of_nil in Hin.
    destruct Hin as [->|[->|[->|[->|[->|[]]]]]];
      repeat (rewrite lookup_delete_eq // || rewrite lookup_delete_ne //). }
  split; [exact Hgone|]. split; [|split; [|done]].
  - intros key Hout. unfold σ'. rewrite clearAllData_localStorage.
    unfold all_keys in Hout. rewrite !not_elem_of_cons in Hout.
    destruct Hout as (? & ? & ? & ? & ? & _).
    by rewrite !lookup_delete_ne.
  - intros s. unfold in_use, loadFromStorage, getItem.
    rewrite Hgone //. unfold all_keys. destruct s; set_solver.
Qed.

(** X11. Clearing does not cancel a debounced save: a save scheduled before
    [clearAllData] still fires when its delay has elapsed and writes its key
    again. *)
Theorem pending_save_survives_clear (key : string) (d : ref) (delay : Z)
    (σ : machine) :
  timers_wf σ -> quotaExceeded σ = false -> 0 <= delay ->
  let σ1 := clearAllData (debouncedSave key d delay σ) in
  localStorage (advance (clock σ + delay) σ1) !! key
  = Some (Json (to_json (envelope (deref (defaults σ) d) (clock σ + delay)))).
Proof.
  intros Hwf HQ Hdelay σ1.
  destruct (debouncedSave_arms key d delay σ Hwf HQ Hdelay)
    as (Hwf' & HQ' & t0 & Hin & Hkey & Hdata & Hdue).
  destruct (debouncedSave_spec key d delay σ Hwf) as (_ & _ & Hclock & _ & _ & _ & Hd).
  assert (timers_wf σ1) as Hwf1
    by by apply (same_timers_wf (debouncedSave key d delay σ)).
  assert (clock σ1 <= due t0) as Hnow
    by (change (clock σ1) with (clock (debouncedSave key d delay σ)); lia).
  destruct (advance_due t0 (clock σ + delay) σ1 Hwf1 Hin ltac:(lia) Hnow HQ')
    as (Hsto & _).
  rewrite Hkey Hdata Hdue in Hsto. rewrite Hsto.
  change (defaults σ1) with (defaults (debouncedSave key d delay σ)).
  by rewrite Hd.
Qed.

Lemma pending_save_survives_clear_witness :
  let σ := reading_chapter6 0 in
  let key := STORAGE_KEYS ReadingState in
  let σ1 := clearAllData (debouncedSave key (Local (VStr "late") []) 1000 σ) in
  localStorage σ1 !! key = None
  /\ localStorage (advance 1000 σ1) !! key = Some (Json (envelope (VStr "late") 1000)).
Proof.
  intros σ key σ1. split; [reflexivity|].
  apply (pending_save_survives_clear key (Local (VStr "late") []) 1000 σ);
    [apply boot_wf | reflexivity | lia].
Defined.

(** ** Import and export *)

Lemma saveSlice_lookup s d key σ :
  key <> critical_errors_key ->
  key <> STORAGE_KEYS s \/ validator s (deref (defaults σ) d) = false ->
  localStorage (saveSlice s d σ).2 !! key = localStorage σ !! key.
Proof.
  intros Hcrit Hother. unfold saveSlice, validateStorageData.
  destruct (validator s _) eqn:Hvalid; simpl.
  - destruct Hother as [Hne|?]; [|done].
    rewrite saveToStorage_unfold. destruct (quotaExceeded σ); [done|]. simpl.
    by rewrite lookup_insert_ne.
  - by apply createError_lookup_ne.
Qed.

Lemma import_slice_lookup data s' s σ :
  validator s (get_field data (AppData_field s)) = false ->
  localStorage (import_slice data s' σ) !! STORAGE_KEYS s
  = localStorage σ !! STORAGE_KEYS s.
Proof.
  intros Hinvalid. unfold import_slice. destruct (truthy _); [|done].
  apply saveSlice_lookup; [apply STORAGE_KEYS_not_critical|].
  destruct (decide (STORAGE_KEYS s = STORAGE_KEYS s')) as [Heq|Hne]; [|by left].
  apply STORAGE_KEYS_inj in Heq as <-. by right.
Qed.

(** X12. [importUserData] answers [true] for every text that parses to
    something other than [null], whatever becomes of the slices: a slice that
    fails its validator is skipped, the stored slice staying as it was, and
    the answer is [true] all the same. *)
Theorem import_reports_success (jsonData : text) (data : value) (σ : machine) :
  JSON_parse jsonData = Some data -> is_nullish data = false ->
  (importUserData jsonData σ).1 = true
  /\ forall s, validator s (get_field data (AppData_field s)) = false ->
       localStorage (importUserData jsonData σ).2 !! STORAGE_KEYS s
       = localStorage σ !! STORAGE_KEYS s.
Proof.
  intros Hparse Hnull. unfold importUserData. rewrite Hparse Hnull.
  split; [done|]. intros s Hinvalid. cbn [snd].
  by rewrite !import_slice_lookup.
Qed.

Lemma import_reports_success_witness :
  let σ := reading_chapter6 0 in
  let jsonData := Json (VObj [("readingState", VStr "chapter 3")]) in
  (importUserData jsonData σ).1 = true
  /\ localStorage (importUserData jsonData σ).2 !! STORAGE_KEYS ReadingState
     = localStorage σ !! STORAGE_KEYS ReadingState.
Proof.
  intros σ jsonData.
  destruct (import_reports_success jsonData
              (VObj [("readingState", VStr "chapter 3")]) σ)
    as [Hok Hkept]; [reflexivity..|].
  split; [exact Hok | by apply (Hkept ReadingState)].
Defined.

Lemma exportUserData_valid σ :
  (forall s, validator s (current s σ) = true) ->
  (exportUserData σ).1 = Json (to_json (exported_doc (fun s => current s σ) (clock σ))).
Proof.
  intros Hvalid. unfold exportUserData, loadUserPreferences, loadReadingState,
    loadUIState, loadSessionData.
  destruct (loadSlice_valid Preferences σ (Hvalid _))
    as (σ1 & -> & Hd1 & Hs1 & _ & _ & _ & _ & Hc1 & _).
  destruct (loadSlice_valid ReadingState σ1)
    as (σ2 & -> & Hd2 & Hs2 & _ & _ & _ & _ & Hc2 & _);
    [by rewrite (current_ext _ σ σ1)|].
  rewrite Hd1 in Hd2. rewrite Hs1 in Hs2. rewrite Hc1 in Hc2.
  destruct (loadSlice_valid UIState σ2)
    as (σ3 & -> & Hd3 & Hs3 & _ & _ & _ & _ & Hc3 & _);
    [by rewrite (current_ext _ σ σ2)|].
  rewrite Hd2 in Hd3. rewrite Hs2 in Hs3. rewrite Hc2 in Hc3.
  destruct (loadSlice_valid SessionData σ3)
    as (σ4 & -> & Hd4 & Hs4 & _ & _ & _ & _ & Hc4 & _);
    [by rewrite (current_ext _ σ σ3)|].
  rewrite Hd3 in Hd4. rewrite Hs3 in Hs4. rewrite Hc3 in Hc4.
  cbn [fst]. rewrite Hd4 Hc4.
  rewrite (in_use_ext ReadingState σ σ1) // (in_use_ext UIState σ σ2) //
          (in_use_ext SessionData σ σ3) //.
Qed.

Lemma exported_doc_clean slices now :
  (forall s, validator s (slices s) = true) ->
  (forall s, json_clean (slices s) = true) ->
  to_json (exported_doc slices now) = exported_doc slices now.
Proof.
  intros Hvalid Hclean. apply to_json_clean. unfold exported_doc.
  cbn [json_clean]. by rewrite !Hclean.
Qed.

Lemma import_slice_valid data s σ x :
  get_field data (AppData_field s) = x ->
  validator s x = true -> json_clean x = true -> quotaExceeded σ = false ->
  let σ' := import_slice data s σ in
  localStorage σ'
  = <[STORAGE_KEYS s := Json (envelope x (clock σ))]> (localStorage σ)
  /\ quotaExceeded σ' = false /\ clock σ' = clock σ.
Proof.
  intros Hfield Hvalid Hclean HQ. unfold import_slice. rewrite Hfield.
  pose proof (validator_is_object _ _ Hvalid) as Hobj.
  assert (truthy x = true) as -> by by apply andb_true_iff in Hobj as [? _].
  destruct (saveSlice_valid s (Local x []) σ Hvalid HQ)
    as (σ1 & -> & Hsto & _ & _ & _ & _ & Hclock & HQ1).
  cbn [snd]. rewrite Hsto. cbn [deref foldr].
  by rewrite to_json_envelope // (to_json_clean x).
Qed.

(** X13. What [exportUserData] writes, [importUserData] takes back: when
    the four slices in use are valid and unchanged by the JSON codec, the
    exported text imported into a storage that accepts writes (this one or
    another) answers [true], and each slice then loads as it was at the
    export. *)
Theorem export_import_roundtrip (σ σ' : machine) :
  (forall s, validator s (current s σ) = true) ->
  (forall s, json_clean (current s σ) = true) ->
  quotaExceeded σ' = false ->
  let imported := importUserData (exportUserData σ).1 σ' in
  imported.1 = true
  /\ forall s, (loadSlice s imported.2).1 = Local (current s σ) [].
Proof.
  intros Hvalid Hclean HQ imported. unfold imported.
  rewrite exportUserData_valid // exported_doc_clean //.
  set (data := exported_doc _ _).
  unfold importUserData. cbn [JSON_parse]. change (is_nullish data) with false.
  cbn [fst snd]. split; [done|].
  destruct (import_slice_valid data Preferences σ' (current Preferences σ))
    as (H1 & HQ1 & Hc1); [done..|].
  set (σ1 := import_slice data Preferences σ') in *.
  destruct (import_slice_valid data ReadingState σ1 (current ReadingState σ))
    as (H2 & HQ2 & Hc2); [done..|].
  set (σ2 := import_slice data ReadingState σ1) in *.
  destruct (import_slice_valid data UIState σ2 (current UIState σ))
    as (H3 & HQ3 & Hc3); [done..|].
  set (σ3 := import_slice data UIState σ2) in *.
  destruct (import_slice_valid data SessionData σ3 (current SessionData σ))
    as (H4 & HQ4 & Hc4); [done..|].
  set (σ4 := import_slice data SessionData σ3) in *.
  intros s.
  assert (localStorage σ4 !! STORAGE_KEYS s
          = Some (Json (envelope (current s σ) (clock σ')))) as Hsto.
  { rewrite H4 H3 H2 H1 Hc3 Hc2 Hc1.
    destruct s;
      repeat (rewrite lookup_insert_eq // || (rewrite lookup_insert_ne; [done|])). }
  by rewrite (loadSlice_stored s (current s σ) (clock σ') σ4 (Hvalid s) Hsto).
Qed.

Lemma export_import_roundtrip_witness :
  let σ := boot 0 "k3v9x2a1b"
             {[ STORAGE_KEYS Preferences := Json (envelope dark_preferences 0) ]} in
  let σ' := boot 9000 "m4n5b6v7c" ∅ in
  let imported := importUserData (exportUserData σ).1 σ' in
  imported.1 = true
  /\ (loadUserPreferences imported.2).1 = Local dark_preferences [].
Proof.
  intros σ σ' imported.
  destruct (export_import_roundtrip σ σ') as [Hok Hloads].
  - intros []; reflexivity.
  - intros []; reflexivity.
  - reflexivity.
  - split; [exact Hok | exact (Hloads Preferences)].
Defined.

(** ** A new session *)

Lemma in_use_cases s σ : in_use s σ = Global s \/ exists x, in_use s σ = Local x [].
Proof.
  unfold in_use. rewrite loadFromStorage_result.
  destruct (stored_doc _ σ) as [doc|]; [|by left].
  destruct (truthy _); [right; by eexists | by left].
Qed.

Lemma round_double_safe x : safe_integer x -> round_double x = Fin x.
Proof.
  intros Hx. unfold round_double.
  assert ((Z.abs x <? 2 ^ 53) = true) as -> by by apply Z.ltb_lt. done.
Qed.

(** The spread copy [{ ...r, f1: x1, ... }] of a reference in use *)
Lemma deref_spread_copy s σ heap ps fresh :
  current s σ = VObj ps -> heap = defaults σ ->
  deref heap
    (Local (VObj (spread ps fresh))
           (filter (fun b => negb (has_prop b.2 fresh)) (pointers heap (in_use s σ))))
  = VObj (spread ps fresh).
Proof.
  intros Hcur ->. unfold current in Hcur.
  destruct (in_use_cases s σ) as [Hg|[x Hl]].
  - rewrite Hg in Hcur |- *. simpl in Hcur. injection Hcur as <-.
    apply deref_sanitized.
  - by rewrite Hl.
Qed.

Lemma validateSessionData_renewed ps id now n :
  validateSessionData (VObj ps) = true ->
  validateSessionData
    (VObj (spread ps [("sessionId", VStr id); ("lastVisitTime", VStr now);
                      ("visitCount", VNum n)])) = true.
Proof.
  unfold validateSessionData, spread. simpl.
  rewrite !lookup_set_prop_eq.
  repeat (rewrite lookup_set_prop_eq || rewrite (lookup_set_prop_ne _ _ _ _) //).
  intros H. repeat (apply andb_true_iff in H as [H ?]).
  repeat (apply andb_true_iff; split); done.
Qed.

(** X14. [initializeSession], on session data in use that are valid and
    unchanged by the JSON codec, with a visit count [n] that is an integer
    of the safe range, and a storage that accepts writes: the session data
    stored and answered have the visit count [n + 1], a new session
    identifier and the current instant as last visit; every other field,
    the bookmarks and the chapters read among them, is as it was. *)
Theorem initializeSession_renews (σ : machine) (ps : list (string * value))
    (n : Z) (random : string) :
  quotaExceeded σ = false ->
  current SessionData σ = VObj ps ->
  validateSessionData (VObj ps) = true -> json_clean (VObj ps) = true ->
  lookup_prop "visitCount" ps = Some (VNum (Fin n)) -> safe_integer (n + 1) ->
  let r := initializeSession random σ in
  let after := current SessionData r.2 in
  (exists newSessionData,
     r.1 = Normal newSessionData /\ deref (defaults r.2) newSessionData = after)
  /\ get_field after "visitCount" = VNum (Fin (n + 1))
  /\ get_field after "sessionId" = VStr (generateSessionId (clock σ) random)
  /\ get_field after "lastVisitTime" = VStr (toISOString (clock σ))
  /\ (forall f, f <> "sessionId" -> f <> "lastVisitTime" -> f <> "visitCount" ->
        get_field after f = get_field (VObj ps) f).
Proof.
  intros HQ Hcur Hvalid Hclean Hcount Hsafe.
  unfold initializeSession, loadSessionData.
  destruct (loadSlice_valid SessionData σ)
    as (σ1 & -> & HD & HL & _ & _ & _ & _ & Hc1 & HQ1); [by rewrite Hcur|].
  rewrite HD. fold (current SessionData σ). rewrite Hcur.
  cbn [get_field]. rewrite Hcount. cbn [default from_option id plus own_props].
  rewrite round_double_safe // Hc1.
  set (fresh := [("sessionId", _); ("lastVisitTime", _); ("visitCount", _)]).
  pose proof (deref_spread_copy SessionData σ (defaults σ) ps fresh Hcur eq_refl)
    as Hderef.
  set (newSessionData := Local _ _) in *.
  assert (json_clean (VObj (spread ps fresh)) = true) as Hclean'
    by by repeat apply json_clean_set_prop.
  destruct (saveSlice_valid SessionData newSessionData σ1)
    as (σ2 & Hsave & Hsto & Hd2 & _ & _ & _ & _ & _).
  { rewrite HD Hderef. by apply validateSessionData_renewed. }
  { congruence. }
  unfold saveSessionData. rewrite Hsave. cbn [fst snd]. cbv zeta.
  rewrite HD Hderef Hc1 to_json_envelope // (to_json_clean _ Hclean') in Hsto.
  destruct (stored_in_use SessionData (VObj (spread ps fresh)) (clock σ) σ2 eq_refl)
    as [_ Hafter]; [by rewrite Hsto lookup_insert_eq|].
  rewrite Hafter. split; [|split; [|split; [|split]]].
  - exists newSessionData. split; [done|]. by rewrite Hd2 HD.
  - cbn [get_field]. by rewrite lookup_set_prop_eq.
  - cbn [get_field]. by rewrite lookup_set_prop_ne // lookup_set_prop_ne // lookup_set_prop_eq.
  - cbn [get_field]. by rewrite lookup_set_prop_ne // lookup_set_prop_eq.
  - intros f H1 H2 H3. cbn [get_field]. by rewrite !lookup_set_prop_ne.
Qed.

Lemma initializeSession_renews_witness :
  let σ := boot 0 "k3v9x2a1b" ∅ in
  let after := current SessionData (initializeSession "m4n5b6v7c" σ).2 in
  get_field after "visitCount" = VNum (Fin 2)
  /\ get_field after "bookmarkPositions" = VArr [].
Proof.
  intros σ after.
  destruct (initializeSession_renews σ (defaultSessionData 0 "k3v9x2a1b") 1
              "m4n5b6v7c")
    as (_ & Hcount & _ & _ & Hrest); [reflexivity..| |].
  - unfold safe_integer. simpl. lia.
  - split; [exact Hcount | by apply Hrest].
Defined.

(** ** Bookmarks when the storage is full *)

Lemma saveSlice_refused s d σ :
  validator s (deref (defaults σ) d) = true -> quotaExceeded σ = true ->
  saveSlice s d σ = (false, σ).
Proof.
  intros Hvalid HQ. unfold saveSlice, validateStorageData. rewrite Hvalid.
  cbn [negb]. by rewrite saveToStorage_unfold HQ.
Qed.

(** X15. The bookmark operations do not report a refused write. With valid
    session data stored and a storage that refuses writes, [addBookmark]
    answers the new bookmark and [removeBookmark] answers [true] for an
    identifier that is stored, while nothing at all has changed: the stored
    bookmarks are the same before and after. *)
Theorem bookmarks_ignore_refused_writes (σ : machine)
    (ps : list (string * value)) (l : list value) (t : Z) :
  quotaExceeded σ = true ->
  localStorage σ !! STORAGE_KEYS SessionData = Some (Json (envelope (VObj ps) t)) ->
  validateSessionData (VObj ps) = true ->
  lookup_prop "bookmarkPositions" ps = Some (VArr l) ->
  Forall (fun e => is_container e = true) l ->
  (getBookmarks σ).1 = VArr l
  /\ (forall chapterIndex scrollPosition note random,
        addBookmark chapterIndex scrollPosition note random σ
        = (Normal (new_bookmark (generateBookmarkId (clock σ) random)
                     chapterIndex scrollPosition (clock σ) note), σ))
  /\ (forall bookmarkId,
        (length (List.filter (other_id bookmarkId) l) < length l)%nat ->
        removeBookmark bookmarkId σ = (Normal true, σ)).
Proof.
  intros HQ Hsto Hvalid Hbookmarks Hrecords.
  pose proof (loadSlice_stored SessionData (VObj ps) t σ Hvalid Hsto) as Hload.
  split; [|split].
  - rewrite (getBookmarks_stored (VObj ps) t σ) //. cbn [get_field].
    by rewrite Hbookmarks.
  - intros chapterIndex scrollPosition note random.
    unfold addBookmark, loadSessionData, saveSessionData. rewrite Hload.
    cbn [deref foldr get_field]. rewrite Hbookmarks. cbn [default from_option id is_array].
    cbn [modify_field owner find fmap option_fmap option_map].
    rewrite saveSlice_refused //.
    cbn [deref foldr with_field get_field]. rewrite Hbookmarks.
    by apply validateSessionData_bookmarks.
  - intros bookmarkId Hshorter.
    unfold removeBookmark, loadSessionData, saveSessionData. rewrite Hload.
    cbn [deref foldr get_field]. rewrite Hbookmarks. cbn [default from_option id].
    rewrite filter_bookmarks_records //. unfold assign.
    apply Nat.ltb_lt in Hshorter. rewrite Hshorter.
    rewrite saveSlice_refused //.
    cbn [deref foldr with_field]. rewrite filter_nil. cbn [foldr].
    by apply validateSessionData_bookmarks.
Qed.

Lemma bookmarks_ignore_refused_writes_witness :
  removeBookmark "bookmark_7_q7w8e9r0t" full_with_session
  = (Normal true, full_with_session)
  /\ (getBookmarks full_with_session).1 = VArr [one_bookmark].
Proof.
  destruct (bookmarks_ignore_refused_writes full_with_session
              session_with_bookmark [one_bookmark] 7)
    as (Hget & _ & Hremove); [reflexivity..| |].
  - by repeat constructor.
  - split; [apply Hremove; simpl; lia | exact Hget].
Defined.

(** ** What the validators let through *)

(** X16. [validateReadingState] asks of [readingProgress] only that its
    type be ['object'], which [null] satisfies. On a stored reading state
    of that kind every [updateScrollPosition] raises a TypeError: no save
    is scheduled and nothing is written. *)
Theorem scroll_tracking_raises_on_null_progress (σ : machine)
    (ps : list (string * value)) (t : Z) (chapterIndex scrollPosition : num) :
  localStorage σ !! STORAGE_KEYS ReadingState = Some (Json (envelope (VObj ps) t)) ->
  validateReadingState (VObj ps) = true ->
  lookup_prop "readingProgress" ps = Some VNull ->
  updateScrollPosition chapterIndex scrollPosition σ
  = (Throw (TypeError "readingState.readingProgress[chapterIndex]"), σ).
Proof.
  intros Hsto Hvalid Hnull. unfold updateScrollPosition, loadReadingState.
  rewrite (loadSlice_stored ReadingState (VObj ps) t σ Hvalid Hsto).
  unfold assign. cbn [with_field]. rewrite !filter_nil.
  cbn [deref foldr get_field].
  by rewrite lookup_set_prop_ne // lookup_set_prop_ne // Hnull.
Qed.

Lemma scroll_tracking_raises_on_null_progress_witness :
  let ps := [("currentChapterIndex", VNum (Fin 3)); ("scrollPosition", VNum (Fin 0));
             ("lastReadTime", VStr "t"); ("readingProgress", VNull);
             ("totalReadingTime", VNum (Fin 0)); ("sessionStartTime", VStr "t")] in
  let σ := boot 0 "k3v9x2a1b"
             {[ STORAGE_KEYS ReadingState := Json (envelope (VObj ps) 0) ]} in
  validateReadingState (VObj ps) = true
  /\ (updateScrollPosition (Fin 3) (Fin 120) σ).1
     = Throw (TypeError "readingState.readingProgress[chapterIndex]").
Proof.
  intros ps σ. split; [reflexivity|].
  by rewrite (scroll_tracking_raises_on_null_progress σ ps 0 (Fin 3) (Fin 120)).
Defined.

Lemma filter_bookmarks_null bookmarkId l :
  VNull ∈ l -> filter_bookmarks bookmarkId l = None.
Proof.
  induction l as [|e l IH]; [by intros ?%elem_of_nil|].
  intros [<-|Hin]%elem_of_cons; [done|]. simpl.
  rewrite IH //. by destruct (differs bookmarkId e).
Qed.

(** X17. [validateSessionData] asks of [bookmarkPositions] only that it be
    an array. When a stored list of bookmarks holds a [null], the session
    data are valid, and [removeBookmark] raises a TypeError for every
    identifier, leaving everything as it was. *)
Theorem removeBookmark_raises_on_null_entry (σ : machine)
    (ps : list (string * value)) (l : list value) (t : Z) (bookmarkId : string) :
  localStorage σ !! STORAGE_KEYS SessionData = Some (Json (envelope (VObj ps) t)) ->
  validateSessionData (VObj ps) = true ->
  lookup_prop "bookmarkPositions" ps = Some (VArr l) -> VNull ∈ l ->
  removeBookmark bookmarkId σ = (Throw (TypeError "b.id"), σ).
Proof.
  intros Hsto Hvalid Hbookmarks Hnull. unfold removeBookmark, loadSessionData.
  rewrite (loadSlice_stored SessionData (VObj ps) t σ Hvalid Hsto).
  cbn [deref foldr get_field]. rewrite Hbookmarks. cbn [default from_option id].
  by rewrite filter_bookmarks_null.
Qed.

Lemma removeBookmark_raises_on_null_entry_witness :
  let ps := set_prop "bookmarkPositions" (VArr [one_bookmark; VNull])
              session_with_bookmark in
  let σ := boot 0 "k3v9x2a1b"
             {[ STORAGE_KEYS SessionData := Json (envelope (VObj ps) 0) ]} in
  validateSessionData (VObj ps) = true
  /\ (removeBookmark "bookmark_7_q7w8e9r0t" σ).1 = Throw (TypeError "b.id").
Proof.
  intros ps σ. split; [reflexivity|].
  rewrite (removeBookmark_raises_on_null_entry σ ps [one_bookmark; VNull] 0);
    [reflexivity..| |reflexivity].
  apply list_elem_of_further, list_elem_of_here.
Defined.

(** ** The default objects are shared *)

Lemma in_use_absent s σ :
  localStorage σ !! STORAGE_KEYS s = None -> in_use s σ = Global s.
Proof. intros H. unfold in_use, loadFromStorage, getItem. by rewrite H. Qed.

Lemma debouncedSave_defaults key d delay σ :
  defaults (debouncedSave key d delay σ) = defaults σ
  /\ localStorage (debouncedSave key d delay σ) = localStorage σ.
Proof. unfold debouncedSave. by destruct (debounceTimers σ !! key). Qed.

(** X18. With no reading state stored, a load answers the module's default
    object itself, not a copy, and [updateScrollPosition] writes into it: the
    new scroll position is in the default object, and so in what every later
    load works on, before anything has been written to the local storage. *)
Theorem unsaved_scroll_position_is_shared (σ : machine)
    (chapterIndex scrollPosition : num) :
  localStorage σ !! STORAGE_KEYS ReadingState = None ->
  validateReadingState (VObj (defaults σ ReadingState)) = true ->
  let σ' := (updateScrollPosition chapterIndex scrollPosition σ).2 in
  localStorage σ' = localStorage σ
  /\ current ReadingState σ' = VObj (defaults σ' ReadingState)
  /\ get_field (current ReadingState σ') "scrollPosition" = VNum scrollPosition.
Proof.
  intros Habsent Hvalid σ'.
  pose proof (in_use_absent ReadingState σ Habsent) as Hin.
  assert (localStorage σ' = localStorage σ
          /\ get_field (VObj (defaults σ' ReadingState)) "scrollPosition"
             = VNum scrollPosition) as [Hsto Hscroll].
  { unfold σ', updateScrollPosition, loadReadingState.
    destruct (loadSlice_valid ReadingState σ)
      as (σ1 & -> & HD & HL & _); [by rewrite /current Hin|].
    rewrite Hin. cbn [assign]. cbn [deref defaults with_defaults].
    unfold update_default. cbn [slice_eqb get_field].
    destruct (negb _).
    - cbn [snd localStorage with_defaults defaults slice_eqb get_field].
      by rewrite HL lookup_set_prop_ne // lookup_set_prop_eq.
    - cbn [modify_field snd].
      match goal with
      | |- context [debouncedSave ?k ?d ?n ?s] =>
          destruct (debouncedSave_defaults k d n s) as [-> ->]
      end.
      cbn [localStorage with_defaults defaults]. unfold update_default.
      cbn [slice_eqb get_field].
      by rewrite HL lookup_set_prop_ne // lookup_set_prop_ne // lookup_set_prop_eq. }
  split; [done|].
  assert (current ReadingState σ' = VObj (defaults σ' ReadingState)) as Hcur.
  { unfold current. rewrite in_use_absent //. by rewrite Hsto. }
  by rewrite Hcur.
Qed.

Lemma unsaved_scroll_position_is_shared_witness :
  let σ := boot 0 "k3v9x2a1b" ∅ in
  let σ' := (updateScrollPosition (Fin 0) (Fin 120) σ).2 in
  localStorage σ' = ∅
  /\ get_field (current ReadingState σ') "scrollPosition" = VNum (Fin 120).
Proof.
  intros σ σ'.
  destruct (unsaved_scroll_position_is_shared σ (Fin 0) (Fin 120))
    as (Hsto & _ & Hscroll); [reflexivity..|].
  split; [exact Hsto | exact Hscroll].
Defined.

(** ** Navigation and scroll tracking, on an example *)

Lemma pending_scroll_save_overwrites_navigation_witness :
  let σ := reading_chapter6 0 in
  let σ1 := (updateScrollPosition (Fin 6) (Fin 120) σ).2 in
  let σ2 := (App.saveNavigation (Fin 2) (advance 300 σ1)).2 in
  get_field (current ReadingState (advance 1000 σ2)) "currentChapterIndex"
  = VNum (Fin 6).
Proof.
  intros σ σ1 σ2.
  eapply (pending_scroll_save_overwrites_navigation σ chapter6_state _ 1000
           (Fin 6) (Fin 120) (Fin 2) 300 1000 (boot_wf _ _ _));
    [reflexivity..| |]; simpl; lia.
Defined.

Lemma scroll_save_after_navigation_witness :
  let σ := reading_chapter6 0 in
  let σ1 := (App.saveNavigation (Fin 2) σ).2 in
  let after :=
    current ReadingState (advance 1000 (updateScrollPosition (Fin 2) (Fin 120) σ1).2) in
  get_field after "currentChapterIndex" = VNum (Fin 2)
  /\ get_field after "scrollPosition" = VNum (Fin 120).
Proof.
  intros σ σ1 after.
  eapply (scroll_save_after_navigation σ chapter6_state _ 1000 2 (Fin 2) (Fin 120)
           (boot_wf _ _ _)); [reflexivity..|lia].
Defined.

(** ** A debounced save against a full storage *)

Lemma run_timers_full fuel until σ :
  quotaExceeded σ = true ->
  localStorage (run_timers fuel until σ) = localStorage σ.
Proof.
  revert σ. induction fuel as [|fuel IH]; intros σ HQ; simpl; [done|].
  destruct (earliest (timeouts σ)) as [t|]; [|done].
  destruct (due t <=? until); [|done].
  destruct (fire_unfold t σ) as (_ & _ & _ & _ & Hsto & _).
  destruct (fire_env t σ) as [HQ' _].
  rewrite IH; [by rewrite HQ'|]. by rewrite Hsto HQ.
Qed.

(** A timeout that is due fires, whether or not its write is accepted: its
    key has no timeout and no registered timer afterwards. *)
Lemma run_timers_consumes t0 fuel until σ :
  timers_wf σ -> t0 ∈ timeouts σ -> due t0 <= until ->
  (length (timeouts σ) <= fuel)%nat ->
  let σ' := run_timers fuel until σ in
  debounceTimers σ' !! tkey t0 = None
  /\ (forall t, t ∈ timeouts σ' -> tkey t <> tkey t0).
Proof.
  revert σ. induction fuel as [|fuel IH]; intros σ Hwf Hin Hdue Hfuel.
  { destruct (timeouts σ); [by apply elem_of_nil in Hin | simpl in Hfuel; lia]. }
  simpl.
  destruct (earliest_nonempty (timeouts σ)) as [t E].
  { intros Hnil. rewrite Hnil in Hin. by apply elem_of_nil in Hin. }
  rewrite E.
  pose proof (earliest_elem _ _ E) as Hint.
  pose proof (earliest_min _ _ E t0 Hin) as Hmin.
  assert ((due t <=? until) = true) as -> by (apply Z.leb_le; lia).
  destruct (fire_unfold t σ) as (Hts & Hdt & _).
  destruct (decide (tid t0 = tid t)) as [Heq|Hid].
  - assert (t = t0) as ->.
    { destruct Hwf as [Hnd _]. symmetry. by apply (tid_unique (timeouts σ)). }
    destruct (run_timers_idle (tkey t0) fuel until (fire t0 σ))
      as (_ & _ & HDT & HT).
    { rewrite Hts. intros t' [Hin' Hid]%elem_of_remaining Hkey.
      destruct Hwf as (_ & Hreg & _).
      pose proof (Hreg t' Hin') as H1. pose proof (Hreg t0 Hin) as H2.
      rewrite Hkey H2 in H1. congruence. }
    by rewrite HDT Hdt lookup_delete_eq.
  - apply IH.
    + by apply fire_wf.
    + rewrite Hts. by apply elem_of_remaining.
    + done.
    + rewrite Hts. pose proof (filter_remaining_length _ _ Hint). lia.
Qed.

(** X21. A debounced save that fires while the storage refuses writes is
    lost without a trace: nothing is written, no error is logged, and the
    timer of the key is gone, so that nothing will try again. *)
Theorem debounced_save_is_dropped_when_full (key : string) (d : ref)
    (delay until : Z) (σ : machine) :
  timers_wf σ -> quotaExceeded σ = true -> 0 <= delay ->
  clock σ + delay <= until ->
  let σ' := advance until (debouncedSave key d delay σ) in
  localStorage σ' = localStorage σ /\ errorLog σ' = errorLog σ
  /\ debounceTimers σ' !! key = None
  /\ (forall t, t ∈ timeouts σ' -> tkey t <> key).
Proof.
  intros Hwf HQ Hdelay Huntil σ'.
  destruct (debouncedSave_spec key d delay σ Hwf)
    as (Hwf' & Hts & Hclock & Hsto & _ & HQ' & _).
  set (σ1 := debouncedSave key d delay σ) in *.
  assert (new_timeout key d delay σ ∈ timeouts σ1) as Hin by (apply Hts; by left).
  destruct (run_timers_consumes (new_timeout key d delay σ)
              (length (timeouts σ1)) until σ1 Hwf' Hin) as [Hgone Hnone];
    [simpl; lia | done |].
  unfold σ', advance. cbn [localStorage errorLog debounceTimers timeouts with_clock].
  rewrite run_timers_full; [by rewrite HQ'|].
  rewrite run_timers_errorLog /σ1 debouncedSave_errorLog. done.
Qed.

Lemma debounced_save_is_dropped_when_full_witness :
  let σ' := advance 1000
              (debouncedSave "novel-reading-state" (Local (VStr "late") []) 1000
                 full_storage) in
  localStorage σ' = ∅ /\ timeouts σ' = [].
Proof.
  intros σ'.
  destruct (debounced_save_is_dropped_when_full "novel-reading-state"
              (Local (VStr "late") []) 1000 1000 full_storage)
    as (Hsto & _ & _ & _); [| reflexivity | lia | simpl; lia |].
  - split; [apply NoDup_nil_2|]. split.
    + by intros t ?%elem_of_nil.
    + intros k id. simpl. by rewrite lookup_empty.
  - split; [exact Hsto | reflexivity].
Defined.

(** ** The panels, over any sequence of commands *)

Lemma run_panel_on_record c st :
  panel_on_record st -> panel_on_record (useUIState.run c st).
Proof.
  intros [Htoc Hsettings]. unfold panel_on_record.
  destruct c as [[| |[]|]|k modifier|w|p|d]; simpl; try done.
  - destruct (useUIState.showTOC st) eqn:E; simpl; [|done].
    split; [done|]. intros Hs. specialize (Htoc eq_refl).
    specialize (Hsettings Hs). congruence.
  - destruct (useUIState.showSettings st) eqn:E; simpl; [|done].
    split; [|done]. intros Ht. specialize (Htoc Ht).
    specialize (Hsettings eq_refl). congruence.
  - unfold useUIState.handleKeydown.
    destruct (useUIState.navigationPreference st); try done.
    destruct k; try done.
    + by destruct (useUIState.showTOC st || useUIState.showSettings st).
    + destruct modifier; [|done]. simpl.
      destruct (useUIState.showTOC st) eqn:E; simpl; [|done].
      split; [done|]. intros Hs. specialize (Htoc eq_refl).
      specialize (Hsettings Hs). congruence.
    + destruct modifier; [|done]. simpl.
      destruct (useUIState.showSettings st) eqn:E; simpl; [|done].
      split; [|done]. intros Ht. specialize (Htoc Ht).
      specialize (Hsettings eq_refl). congruence.
Qed.

(** X22. In the hook of the UI state, a panel that is shown is always the
    panel on record as last active, and therefore never both panels are
    shown: this holds for the state the hook starts from, and it is kept by
    every sequence of panel operations, key presses and layout changes. *)
Theorem shown_panel_is_last_active (commands : list useUIState.command)
    (st : useUIState.UIState) :
  panel_on_record st ->
  let st' := foldl (fun st c => useUIState.run c st) st commands in
  panel_on_record st'
  /\ useUIState.showTOC st' && useUIState.showSettings st' = false.
Proof.
  intros Hst st'.
  assert (panel_on_record st') as Hrec.
  { unfold st'. clear st'. revert st Hst.
    induction commands as [|c commands IH]; intros st Hst; simpl; [done|].
    by apply IH, run_panel_on_record. }
  split; [done|]. destruct Hrec as [Htoc Hsettings].
  destruct (useUIState.showTOC st'); [|done].
  destruct (useUIState.showSettings st'); [|done].
  specialize (Htoc eq_refl). specialize (Hsettings eq_refl). congruence.
Qed.

Lemma shown_panel_is_last_active_witness :
  let st' :=
    foldl (fun st c => useUIState.run c st) useUIState.initial
      [useUIState.SetNavigationPreference useUIState.keyboard;
       useUIState.Panel (useUIState.OpenPanel useUIState.settings);
       useUIState.Keydown useUIState.KeyT true] in
  useUIState.showTOC st' && useUIState.showSettings st' = false
  /\ useUIState.lastActivePanel st' = Some useUIState.toc.
Proof.
  intros st'.
  destruct (shown_panel_is_last_active
              [useUIState.SetNavigationPreference useUIState.keyboard;
               useUIState.Panel (useUIState.OpenPanel useUIState.settings);
               useUIState.Keydown useUIState.KeyT true] useUIState.initial)
    as [[Htoc _] Hexclusive]; [by split|].
  split; [exact Hexclusive | by apply Htoc].
Defined.

(** ** The chapters read *)

Lemma validateSessionData_chapters ps l :
  validateSessionData (VObj ps) = true ->
  validateSessionData (VObj (set_prop "chaptersRead" (VArr l) ps)) = true.
Proof.
  unfold validateSessionData. simpl.
  rewrite lookup_set_prop_eq !lookup_set_prop_ne //.
  intros H. repeat (apply andb_true_iff in H as [H ?]).
  repeat (apply andb_true_iff; split); done.
Qed.

Lemma array_includes_app l l' n :
  array_includes (l ++ l') n = array_includes l n || array_includes l' n.
Proof. unfold array_includes. by rewrite existsb_app. Qed.

Section ChaptersRead.
Variable σ : machine.
Variable ps : list (string * value).
Variable l : list value.
Variable z : Z.

Hypothesis in_use_record : current SessionData σ = VObj ps.
Hypothesis in_use_valid : validateSessionData (VObj ps) = true.
Hypothesis chapters : lookup_prop "chaptersRead" ps = Some (VArr l).

Lemma chapterChanged_known :
  array_includes l (Fin z) = true ->
  exists σ1,
    useScrollTracking.chapterChanged (Fin z) σ = (Normal (), σ1)
    /\ localStorage σ1 = localStorage σ /\ trace σ1 = trace σ
    /\ defaults σ1 = defaults σ.
Proof.
  intros Hknown. unfold useScrollTracking.chapterChanged, loadSessionData.
  destruct (loadSlice_valid SessionData σ)
    as (σ1 & -> & HD & HL & HT & _); [by rewrite in_use_record|].
  rewrite HD. fold (current SessionData σ). rewrite in_use_record.
  cbn [get_field]. rewrite chapters. cbn [default from_option id].
  rewrite Hknown. by exists σ1.
Qed.

Lemma chapterChanged_new :
  array_includes l (Fin z) = false ->
  quotaExceeded σ = false -> json_clean (VObj ps) = true ->
  exists σ3,
    useScrollTracking.chapterChanged (Fin z) σ = (Normal (), σ3)
    /\ localStorage σ3 !! STORAGE_KEYS SessionData
       = Some (Json (envelope
                       (VObj (set_prop "chaptersRead"
                                (VArr (l ++ [VNum (Fin z)])) ps))
                       (clock σ)))
    /\ quotaExceeded σ3 = false.
Proof.
  intros Hnew HQ Hclean. unfold useScrollTracking.chapterChanged, loadSessionData.
  destruct (loadSlice_valid SessionData σ)
    as (σ1 & -> & HD & HL & HT & _ & _ & _ & Hc1 & HQ1);
    [by rewrite in_use_record|].
  rewrite HD. fold (current SessionData σ). rewrite in_use_record.
  cbn [get_field]. rewrite chapters. cbn [default from_option id].
  rewrite Hnew.
  destruct (modify_field_simple (in_use SessionData σ) "chaptersRead"
              (push (VNum (Fin z))) σ1 (in_use_simple _ _))
    as (_ & Hderef & _ & _ & _ & _ & _ & Hc2 & HQ2).
  destruct (modify_field _ _ _ σ1) as [sd σ2]. simpl in Hderef, Hc2, HQ2.
  rewrite HD in Hderef. fold (current SessionData σ) in Hderef.
  rewrite in_use_record in Hderef. cbn [get_field with_field] in Hderef.
  rewrite chapters in Hderef. cbn [default from_option id push] in Hderef.
  destruct (saveSlice_valid SessionData sd σ2)
    as (σ3 & Hsave & Hsto & _ & _ & _ & _ & _ & HQ3).
  { rewrite Hderef. by apply validateSessionData_chapters. }
  { congruence. }
  unfold saveSessionData. rewrite Hsave. exists σ3. split; [done|].
  split; [|done]. rewrite Hsto lookup_insert_eq Hderef Hc2 Hc1.
  rewrite to_json_envelope //. do 3 f_equal.
  apply to_json_clean, json_clean_set_prop; [done|].
  pose proof (json_clean_lookup _ _ _ Hclean chapters) as Hl.
  cbn [json_clean] in Hl |- *. rewrite forallb_app Hl. done.
Qed.

End ChaptersRead.

(** X23. The effect of the scroll-tracking hook that runs when the chapter
    changes records a chapter once: on valid session data, unchanged by the
    JSON codec, and a storage that accepts writes, the chapter is appended
    to the chapters read unless it was among them, and running the effect
    again for the same chapter writes nothing. *)
Theorem chapter_is_recorded_once (σ : machine) (ps : list (string * value))
    (l : list value) (z : Z) :
  quotaExceeded σ = false ->
  current SessionData σ = VObj ps ->
  validateSessionData (VObj ps) = true -> json_clean (VObj ps) = true ->
  lookup_prop "chaptersRead" ps = Some (VArr l) ->
  let first := useScrollTracking.chapterChanged (Fin z) σ in
  let second := useScrollTracking.chapterChanged (Fin z) first.2 in
  first.1 = Normal ()
  /\ get_field (current SessionData first.2) "chaptersRead"
     = VArr (if array_includes l (Fin z) then l else l ++ [VNum (Fin z)])
  /\ second.1 = Normal ()
  /\ localStorage second.2 = localStorage first.2
  /\ trace second.2 = trace first.2.
Proof.
  intros HQ Hcur Hvalid Hclean Hchapters first second. unfold second, first.
  destruct (array_includes l (Fin z)) eqn:Hknown.
  - destruct (chapterChanged_known σ ps l z Hcur Hvalid Hchapters Hknown)
      as (σ1 & -> & HL & HT & HD).
    cbn [fst snd].
    assert (current SessionData σ1 = VObj ps) as Hcur1
      by by rewrite (current_ext _ σ σ1).
    destruct (chapterChanged_known σ1 ps l z Hcur1 Hvalid Hchapters Hknown)
      as (σ2 & -> & HL2 & HT2 & _).
    rewrite Hcur1. cbn [get_field fst snd]. rewrite Hchapters. split_frame.
  - destruct (chapterChanged_new σ ps l z Hcur Hvalid Hchapters Hknown HQ Hclean)
      as (σ3 & -> & Hsto & HQ3).
    cbn [fst snd].
    set (ps' := set_prop "chaptersRead" (VArr (l ++ [VNum (Fin z)])) ps) in *.
    destruct (stored_in_use SessionData (VObj ps') (clock σ) σ3 eq_refl Hsto)
      as [_ Hcur3].
    destruct (chapterChanged_known σ3 ps' (l ++ [VNum (Fin z)]) z Hcur3)
      as (σ4 & -> & HL4 & HT4 & _).
    + by apply validateSessionData_chapters.
    + apply lookup_set_prop_eq.
    + rewrite array_includes_app. simpl. by rewrite Z.eqb_refl orb_true_r.
    + rewrite Hcur3. cbn [get_field fst snd]. rewrite lookup_set_prop_eq.
      split_frame.
Qed.

Lemma chapter_is_recorded_once_witness :
  let σ := boot 0 "k3v9x2a1b" ∅ in
  let first := useScrollTracking.chapterChanged (Fin 4) σ in
  get_field (current SessionData first.2) "chaptersRead" = VArr [VNum (Fin 4)]
  /\ localStorage (useScrollTracking.chapterChanged (Fin 4) first.2).2
     = localStorage first.2.
Proof.
  intros σ first.
  destruct (chapter_is_recorded_once σ (defaultSessionData 0 "k3v9x2a1b") [] 4)
    as (_ & Hread & _ & Hsame & _); [reflexivity..|].
  split; [exact Hread | exact Hsame].
Defined.

(** ** Restoring the scroll position *)

Lemma scrolled_progress ps progress i p now :
  json_clean (VObj ps) = true ->
  lookup_prop "readingProgress" ps = Some (VObj progress) ->
  exists progress',
    get_field (to_json (scrolled ps progress i p now)) "readingProgress"
    = VObj progress'
    /\ lookup_prop (num_key i) progress'
       = Some (to_json (progress_entry (get_index (VObj progress) i) p now)).
Proof.
  intros Hclean Hprogress.
  pose proof (json_clean_lookup _ _ _ Hclean Hprogress) as Hpclean.
  rewrite scrolled_defined //. cbn [get_field].
  rewrite lookup_json_props lookup_set_prop_eq.
  cbn [fmap option_fmap option_map default from_option id].
  rewrite to_json_defined.
  { apply defined_set_prop; [done|]. by apply clean_defined. }
  eexists. split; [done|].
  by rewrite lookup_json_props lookup_set_prop_eq.
Qed.

Lemma validateReadingState_scrolled ps progress i z now :
  validateReadingState (VObj ps) = true -> json_clean (VObj ps) = true ->
  lookup_prop "readingProgress" ps = Some (VObj progress) -> 0 <= z ->
  validateReadingState (to_json (scrolled ps progress i (Fin z) now)) = true.
Proof.
  intros Hvalid Hclean Hprogress Hz.
  destruct (scrolled_progress ps progress i (Fin z) now Hclean Hprogress)
    as (progress' & Hrp & _).
  destruct (scrolled_scroll ps progress i (Fin z) now Hclean) as [Hsp Hlrt].
  unfold validateReadingState in *.
  assert (is_object (to_json (scrolled ps progress i (Fin z) now)) = true) as ->
    by by rewrite scrolled_defined.
  cbn [negb is_object truthy typeof jstype_eqb andb] in Hvalid |- *.
  rewrite Hrp Hsp Hlrt.
  rewrite !(scrolled_other_fields ps progress i (Fin z) now) //.
  repeat (apply andb_true_iff in Hvalid as [Hvalid ?]).
  repeat (apply andb_true_iff; split); try done.
  simpl. by apply Z.leb_le.
Qed.

(** X24. What scroll tracking saves, the hook restores: once the debounced
    write of [updateScrollPosition i p] has happened, for a positive offset
    [p], on a valid stored reading state whose progress map is an object,
    [restoreScrollPosition] for chapter [i] sets the scroll offset of the
    content element to [p]. *)
Theorem scroll_position_is_restored (StringToNumber : string -> num)
    (σ : machine) (ps progress : list (string * value)) (t z : Z) (i : num) :
  timers_wf σ -> quotaExceeded σ = false ->
  localStorage σ !! STORAGE_KEYS ReadingState = Some (Json (envelope (VObj ps) t)) ->
  validateReadingState (VObj ps) = true -> json_clean (VObj ps) = true ->
  lookup_prop "readingProgress" ps = Some (VObj progress) -> 0 < z ->
  let σ' := advance (clock σ + 1000) (updateScrollPosition i (Fin z) σ).2 in
  (useScrollTracking.restoreScrollPosition StringToNumber i σ').1
  = Normal (Some (VNum (Fin z))).
Proof.
  intros Hwf HQ Hsto Hvalid Hclean Hprogress Hz σ'.
  pose proof (scrolled_written σ ps progress t i (Fin z) (clock σ + 1000)
                Hwf HQ Hsto Hvalid Hprogress ltac:(lia)) as Hwritten.
  fold σ' in Hwritten.
  set (y := to_json (scrolled ps progress i (Fin z) (clock σ))) in *.
  assert (validateReadingState y = true) as Hvalid'
    by (apply validateReadingState_scrolled; try done; lia).
  unfold useScrollTracking.restoreScrollPosition, loadReadingState.
  rewrite (loadSlice_stored ReadingState y (clock σ + 1000) σ' Hvalid' Hwritten).
  cbn [deref foldr].
  destruct (scrolled_progress ps progress i (Fin z) (clock σ) Hclean Hprogress)
    as (progress' & Hrp & Hentry).
  fold y in Hrp. rewrite Hrp. cbn [is_nullish get_index]. rewrite Hentry.
  cbn [default from_option id].
  destruct (progress_entry_scroll (get_index (VObj progress) i) (Fin z) (clock σ))
    as [_ Hscroll].
  { simpl. pose proof (json_clean_lookup _ _ _ Hclean Hprogress) as Hpclean.
    destruct (lookup_prop (num_key i) progress) as [v|] eqn:E; [|done].
    intros _. by eapply json_clean_lookup. }
  rewrite Hscroll.
  assert (truthy (to_json (progress_entry (get_index (VObj progress) i) (Fin z)
                             (clock σ))) = true) as -> by done.
  cbn [to_json greater_than_zero ToNumber fmap option_fmap option_map].
  by assert ((0 <? z) = true) as -> by by apply Z.ltb_lt.
Qed.

Lemma scroll_position_is_restored_witness :
  let σ := reading_chapter6 5000 in
  let σ' := advance 6000 (updateScrollPosition (Fin 6) (Fin 120) σ).2 in
  (useScrollTracking.restoreScrollPosition (fun _ => NaN) (Fin 6) σ').1
  = Normal (Some (VNum (Fin 120))).
Proof.
  intros σ σ'.
  eapply (scroll_position_is_restored (fun _ => NaN) σ chapter6_state _ 1000 120
            (Fin 6) (boot_wf _ _ _)); [reflexivity..|lia].
Defined.

(** ** Navigation across a reload *)

Lemma restoreReadingState_stored StringToNumber chapters_length σ ps t z now :
  localStorage σ !! STORAGE_KEYS ReadingState
  = Some (Json (envelope
                  (VObj (set_prop "lastReadTime" (VStr now)
                           (set_prop "currentChapterIndex" (VNum (Fin z)) ps))) t)) ->
  validateReadingState (VObj ps) = true -> 0 <= z < chapters_length ->
  (App.restoreReadingState StringToNumber chapters_length σ).1
  = Normal (Some (VNum (Fin z))).
Proof.
  intros Hsto Hvalid Hz. unfold App.restoreReadingState, loadReadingState.
  rewrite (loadSlice_stored ReadingState _ t σ
             (validateReadingState_navigated ps z now Hvalid ltac:(lia)) Hsto).
  cbn [deref foldr get_field].
  rewrite lookup_set_prop_ne // lookup_set_prop_eq.
  cbn [default from_option id within ToNumber fmap option_fmap option_map num_ge0].
  assert ((0 <=? z) = true) as -> by (apply Z.leb_le; lia).
  by assert ((z <? chapters_length) = true) as -> by (apply Z.ltb_lt; lia).
Qed.

(** X25. The chapter a navigation handler saves is the chapter the
    application restores after a reload: with a valid reading state stored
    and a storage that accepts writes, the page that is loaded over the
    storage left by [selectChapter], [goToNextChapter] or
    [goToPreviousChapter] sets the current chapter to the saved index. *)
Theorem navigation_survives_reload (StringToNumber : string -> num)
    (σ : machine) (ps : list (string * value)) (t current_ chapters_length
    loaded : Z) (random : string) :
  quotaExceeded σ = false ->
  localStorage σ !! STORAGE_KEYS ReadingState = Some (Json (envelope (VObj ps) t)) ->
  validateReadingState (VObj ps) = true -> json_clean (VObj ps) = true ->
  0 <= current_ < chapters_length ->
  let reload (σ' : machine) :=
    (App.restoreReadingState StringToNumber chapters_length
       (boot loaded random (localStorage σ'))).1 in
  reload (App.selectChapter current_ σ).2 = Normal (Some (VNum (Fin current_)))
  /\ (current_ < chapters_length - 1 ->
      reload (App.goToNextChapter current_ chapters_length σ).2
      = Normal (Some (VNum (Fin (current_ + 1)))))
  /\ (0 < current_ ->
      reload (App.goToPreviousChapter current_ σ).2
      = Normal (Some (VNum (Fin (current_ - 1))))).
Proof.
  intros HQ Hsto Hvalid Hclean Hrange reload.
  assert (forall z, 0 <= z < chapters_length ->
            reload (App.saveNavigation (Fin z) σ).2 = Normal (Some (VNum (Fin z))))
    as Hsaved.
  { intros z Hz.
    destruct (saveNavigation_stored σ ps t z HQ Hsto Hvalid Hclean ltac:(lia))
      as [Hnav _].
    unfold reload.
    by apply (restoreReadingState_stored StringToNumber chapters_length _ ps
                (clock σ) z (toISOString (clock σ))). }
  split; [|split].
  - unfold App.selectChapter. cbn [snd]. by apply Hsaved.
  - intros Hnext. unfold App.goToNextChapter.
    assert ((current_ <? chapters_length - 1) = true) as -> by by apply Z.ltb_lt.
    cbn [snd]. apply Hsaved. lia.
  - intros Hprev. unfold App.goToPreviousChapter.
    assert ((0 <? current_) = true) as -> by by apply Z.ltb_lt.
    cbn [snd]. apply Hsaved. lia.
Qed.

Lemma navigation_survives_reload_witness :
  let σ' := (App.goToPreviousChapter 6 (reading_chapter6 0)).2 in
  (App.restoreReadingState (fun _ => NaN) 12
     (boot 9000 "m4n5b6v7c" (localStorage σ'))).1
  = Normal (Some (VNum (Fin 5))).
Proof.
  intros σ'.
  destruct (navigation_survives_reload (fun _ => NaN) (reading_chapter6 0)
              chapter6_state 1000 6 12 9000 "m4n5b6v7c")
    as (_ & _ & Hprev); [reflexivity..|lia|].
  apply Hprev. lia.
Defined.

(** ** Two scroll updates within one delay *)

Lemma scrolled_other_entries ps progress i p now :
  json_clean (VObj ps) = true ->
  lookup_prop "readingProgress" ps = Some (VObj progress) ->
  exists progress',
    get_field (to_json (scrolled ps progress i p now)) "readingProgress"
    = VObj progress'
    /\ forall k, k <> num_key i -> lookup_prop k progress' = lookup_prop k progress.
Proof.
  intros Hclean Hprogress.
  pose proof (json_clean_lookup _ _ _ Hclean Hprogress) as Hpclean.
  rewrite scrolled_defined //. cbn [get_field].
  rewrite lookup_json_props lookup_set_prop_eq.
  cbn [fmap option_fmap option_map default from_option id].
  rewrite to_json_defined.
  { apply defined_set_prop; [done|]. by apply clean_defined. }
  eexists. split; [done|].
  intros k Hk. rewrite lookup_json_props lookup_set_prop_ne //.
  destruct (lookup_prop k progress) as [v|] eqn:E; [|done]. simpl. f_equal.
  apply to_json_clean. by eapply json_clean_lookup.
Qed.

(** X26. Scroll updates do not add up. When a scroll update for chapter [j]
    follows one for another chapter [i] before the delay of the first has
    elapsed, the first save is cancelled and the second starts again from
    the stored reading state: what is finally stored holds the position of
    [j], and the progress of chapter [i] is as it was before both calls. *)
Theorem scroll_update_of_other_chapter_is_lost (σ : machine)
    (ps progress : list (string * value)) (t at_ : Z) (i j p q : num) :
  timers_wf σ -> quotaExceeded σ = false ->
  localStorage σ !! STORAGE_KEYS ReadingState = Some (Json (envelope (VObj ps) t)) ->
  validateReadingState (VObj ps) = true -> json_clean (VObj ps) = true ->
  lookup_prop "readingProgress" ps = Some (VObj progress) ->
  num_key i <> num_key j -> clock σ <= at_ < clock σ + 1000 ->
  let σ1 := (updateScrollPosition i p σ).2 in
  let σ2 := (updateScrollPosition j q (advance at_ σ1)).2 in
  let after := current ReadingState (advance (at_ + 1000) σ2) in
  get_field after "scrollPosition" = to_json (VNum q)
  /\ exists progress',
       get_field after "readingProgress" = VObj progress'
       /\ lookup_prop (num_key i) progress' = lookup_prop (num_key i) progress.
Proof.
  intros Hwf HQ Hsto Hvalid Hclean Hprogress Hij Hat σ1 σ2 after.
  unfold σ1 in *. clear σ1.
  rewrite (updateScrollPosition_stored σ ps progress t) // in σ2 after |- *.
  cbn [snd] in σ2, after |- *.
  set (d := Local (scrolled ps progress i p (clock σ)) []) in *.
  destruct (debouncedSave_spec (STORAGE_KEYS ReadingState) d 1000 σ Hwf)
    as (Hwf1 & Hts & Hclk & Hsto1 & _ & HQ1 & _).
  destruct (advance_pending (new_timeout (STORAGE_KEYS ReadingState) d 1000 σ) at_
              (debouncedSave (STORAGE_KEYS ReadingState) d 1000 σ))
    as (Hwf2 & _ & Hsto2 & _ & Hclk2 & HQ2 & _);
    [done | apply Hts; by left | simpl; lia | lia |].
  set (σ1' := advance at_ _) in *.
  cbn [tkey new_timeout] in Hsto2. rewrite Hsto1 Hsto in Hsto2.
  pose proof (scrolled_written σ1' ps progress t j q (at_ + 1000) Hwf2
                ltac:(congruence) Hsto2 Hvalid Hprogress ltac:(lia)) as Hwritten.
  rewrite Hclk2 in Hwritten.
  assert (after = to_json (scrolled ps progress j q at_)) as ->.
  { unfold after, σ2.
    by destruct (stored_in_use ReadingState
                   (to_json (scrolled ps progress j q at_)) _ _
                   ltac:(by rewrite scrolled_defined) Hwritten) as [_ ->]. }
  split; [by apply scrolled_scroll|].
  destruct (scrolled_other_entries ps progress j q at_ Hclean Hprogress)
    as (progress' & Hrp & Hothers).
  exists progress'. split; [done|]. by apply Hothers.
Qed.

Lemma scroll_update_of_other_chapter_is_lost_witness :
  let σ := reading_chapter6 0 in
  let σ1 := (updateScrollPosition (Fin 6) (Fin 120) σ).2 in
  let σ2 := (updateScrollPosition (Fin 7) (Fin 15) (advance 400 σ1)).2 in
  let after := current ReadingState (advance 1400 σ2) in
  get_field after "scrollPosition" = VNum (Fin 15)
  /\ get_field (get_index (get_field after "readingProgress") (Fin 6))
               "scrollPosition" = VNum (Fin 40).
Proof.
  intros σ σ1 σ2 after.
  destruct (scroll_update_of_other_chapter_is_lost σ chapter6_state
              [("6", VObj [("scrollPosition", VNum (Fin 40));
                           ("lastVisited", VStr (toISOString 1000));
                           ("timeSpent", VNum (Fin 0))])]
              1000 400 (Fin 6) (Fin 7) (Fin 120) (Fin 15) (boot_wf _ _ _))
    as (Hscroll & progress' & Hrp & Hentry); [reflexivity..|done|simpl; lia|].
  split; [exact Hscroll|]. fold σ σ1 σ2 after in Hrp.
  rewrite Hrp. cbn [get_index]. change (num_key (Fin 6)) with "6" in Hentry.
  by rewrite Hentry.
Defined.

(** ** A load answers an object of the declared shape *)

Lemma has_prop_set_prop {A} f k (x : A) ps :
  has_prop f ps = true -> has_prop f (set_prop k x ps) = true.
Proof.
  unfold has_prop. destruct (decide (k = f)) as [->|Hne].
  - by rewrite lookup_set_prop_eq.
  - by rewrite lookup_set_prop_ne.
Qed.

Lemma has_prop_spread f a b : has_prop f a = true -> has_prop f (spread a b) = true.
Proof.
  unfold spread. revert a. induction b as [|[k x] b IH]; intros a Ha; simpl; [done|].
  by apply IH, has_prop_set_prop.
Qed.

Lemma complete_set_prop s k x ps : complete s ps -> complete s (set_prop k x ps).
Proof. intros H f Hf. by apply has_prop_set_prop, H. Qed.

Lemma validator_complete s ps : validator s (VObj ps) = true -> complete s ps.
Proof.
  intros Hvalid f Hf. unfold has_prop.
  destruct (lookup_prop f ps) as [x|] eqn:E; [done|]. exfalso.
  destruct s; simpl in Hvalid, Hf;
    unfold validatePreferences, validateReadingState, validateUIState,
      validateSessionData in Hvalid;
    cbn [negb is_object truthy typeof jstype_eqb andb get_field] in Hvalid;
    repeat (apply andb_true_iff in Hvalid as [Hvalid ?]);
    rewrite !elem_of_cons elem_of_nil in Hf;
    repeat (destruct Hf as [->|Hf];
            [match goal with
             | H : context [lookup_prop _ ps] |- _ =>
                 rewrite E in H; simpl in H; discriminate H
             end|]);
    done.
Qed.

Lemma deref_local_complete s heap ps bs :
  complete s ps ->
  exists ps', deref heap (Local (VObj ps) bs) = VObj ps' /\ complete s ps'.
Proof.
  intros Hps. induction bs as [|b bs (ps' & IH & Hc)]; simpl; [by exists ps|].
  simpl in IH. rewrite IH. simpl. eexists. split; [done|].
  by apply complete_set_prop.
Qed.

Lemma loadSlice_complete s σ :
  complete s (defaults σ s) ->
  exists ps, deref (defaults σ) (loadSlice s σ).1 = VObj ps /\ complete s ps.
Proof.
  intros Hdefault. rewrite loadSlice_unfold. cbn [fst].
  set (stored := (loadFromStorage (STORAGE_KEYS s) (Global s) σ).1).
  destruct (validator s (deref (defaults σ) stored)) eqn:Hvalid.
  - destruct (validator_VObj _ _ Hvalid) as [ps Hps]. exists ps. split; [done|].
    rewrite Hps in Hvalid. by apply validator_complete.
  - unfold sanitizeData. destruct (is_object _); [|by exists (defaults σ s)].
    apply deref_local_complete. intros f Hf.
    apply has_prop_spread. simpl. by apply Hdefault.
Qed.

(** The default objects keep their properties. *)
Lemma same_env_complete σ σ' :
  same_env σ σ' -> defaults_complete σ -> defaults_complete σ'.
Proof. intros [_ Hd] H. unfold defaults_complete. by rewrite Hd. Qed.

Lemma assign_complete r f x σ :
  defaults_complete σ -> defaults_complete (assign r f x σ).2.
Proof.
  intros H. destruct r as [s|v bs]; [|done]. intros s'. simpl.
  unfold update_default. destruct (slice_eqb s s') eqn:E; [|apply H].
  assert (s = s') as <- by by destruct s, s'. apply complete_set_prop, H.
Qed.

Lemma modify_field_complete r f g σ :
  defaults_complete σ -> defaults_complete (modify_field r f g σ).2.
Proof.
  intros H.
  assert (forall s,
            defaults_complete
              (with_defaults
                 (update_default s
                    (set_prop f (g (get_field (VObj (defaults σ s)) f)) (defaults σ s))
                    (defaults σ)) σ)) as Hthrough.
  { intros s s'. simpl. unfold update_default.
    destruct (slice_eqb s s') eqn:E; [|apply H].
    assert (s = s') as <- by by destruct s, s'. apply complete_set_prop, H. }
  destruct r as [s|v bs]; simpl; [apply Hthrough|].
  destruct (owner f bs); [apply Hthrough | done].
Qed.

Lemma saveSlice_env s d σ : same_env σ (saveSlice s d σ).2.
Proof.
  unfold saveSlice, validateStorageData.
  destruct (validator s _); simpl; [apply saveToStorage_env|apply createError_env].
Qed.

Lemma loadSlice_env_complete s σ :
  defaults_complete σ -> defaults_complete (loadSlice s σ).2.
Proof.
  intros H. destruct (loadSlice_frame s σ) as [_ Hd].
  unfold defaults_complete. by rewrite Hd.
Qed.

Lemma saveSlice_complete s d σ :
  defaults_complete σ -> defaults_complete (saveSlice s d σ).2.
Proof. apply same_env_complete, saveSlice_env. Qed.

Lemma import_slice_complete data s σ :
  defaults_complete σ -> defaults_complete (import_slice data s σ).
Proof.
  intros H. unfold import_slice. destruct (truthy _); [|done].
  by apply saveSlice_complete.
Qed.

Lemma debouncedSave_complete key d delay σ :
  defaults_complete σ -> defaults_complete (debouncedSave key d delay σ).
Proof.
  intros H. unfold defaults_complete.
  by destruct (debouncedSave_defaults key d delay σ) as [-> _].
Qed.

Lemma perform_complete a σ : defaults_complete σ -> defaults_complete (perform a σ).
Proof.
  intros Hc.
  destruct a as [s d|s|key d delay|i p|newIndex|i p note rnd|id| |jsonData|
                 |rnd|i|until]; simpl.
  - by apply saveSlice_complete.
  - by apply loadSlice_env_complete.
  - by apply debouncedSave_complete.
  - unfold updateScrollPosition, loadReadingState.
    pose proof (loadSlice_env_complete ReadingState σ Hc) as H1.
    destruct (loadSlice ReadingState σ) as [r1 σ1].
    pose proof (assign_complete r1 "scrollPosition" (VNum p) σ1 H1) as H2.
    destruct (assign r1 _ _ σ1) as [r2 σ2].
    pose proof (assign_complete r2 "lastReadTime" (VStr (toISOString (clock σ))) σ2
                  H2) as H3.
    destruct (assign r2 _ _ σ2) as [r3 σ3]. simpl in H1, H2, H3.
    destruct (negb _); simpl; [done|].
    match goal with
    | |- context [modify_field r3 ?f ?g σ3] =>
        pose proof (modify_field_complete r3 f g σ3 H3) as H4;
        destruct (modify_field r3 f g σ3) as [r4 σ4]
    end.
    simpl in *. by apply debouncedSave_complete.
  - unfold App.saveNavigation, loadReadingState, saveReadingState.
    pose proof (loadSlice_env_complete ReadingState σ Hc) as H1.
    destruct (loadSlice ReadingState σ) as [r1 σ1].
    pose proof (assign_complete r1 "currentChapterIndex" (VNum newIndex) σ1 H1)
      as H2.
    destruct (assign r1 _ _ σ1) as [r2 σ2].
    pose proof (assign_complete r2 "lastReadTime" (VStr (toISOString (clock σ))) σ2
                  H2) as H3.
    destruct (assign r2 _ _ σ2) as [r3 σ3]. simpl in H1, H2, H3.
    by apply saveSlice_complete.
  - unfold addBookmark, loadSessionData, saveSessionData.
    pose proof (loadSlice_env_complete SessionData σ Hc) as H1.
    destruct (loadSlice SessionData σ) as [r1 σ1]. simpl in H1.
    destruct (is_array _); [|done].
    set (b := new_bookmark _ _ _ _ _).
    pose proof (modify_field_complete r1 "bookmarkPositions" (push b) σ1 H1) as H2.
    destruct (modify_field r1 _ _ σ1) as [r2 σ2]. simpl in H2.
    pose proof (saveSlice_complete SessionData r2 σ2 H2) as H3.
    by destruct (saveSlice SessionData r2 σ2) as [ok σ3].
  - unfold removeBookmark, loadSessionData, saveSessionData.
    pose proof (loadSlice_env_complete SessionData σ Hc) as H1.
    destruct (loadSlice SessionData σ) as [r1 σ1]. simpl in H1.
    destruct (get_field _ _) as [| | | | |l|]; try done.
    destruct (filter_bookmarks id l) as [kept|]; [|done].
    pose proof (assign_complete r1 "bookmarkPositions" (VArr kept) σ1 H1) as H2.
    destruct (assign r1 _ _ σ1) as [r2 σ2]. simpl in H2.
    destruct (_ <? _)%nat; [|done].
    pose proof (saveSlice_complete SessionData r2 σ2 H2) as H3.
    by destruct (saveSlice SessionData r2 σ2) as [ok σ3].
  - unfold exportUserData, loadUserPreferences, loadReadingState, loadUIState,
      loadSessionData.
    pose proof (loadSlice_env_complete Preferences σ Hc) as H1.
    destruct (loadSlice Preferences σ) as [r1 σ1].
    pose proof (loadSlice_env_complete ReadingState σ1 H1) as H2.
    destruct (loadSlice ReadingState σ1) as [r2 σ2].
    pose proof (loadSlice_env_complete UIState σ2 H2) as H3.
    destruct (loadSlice UIState σ2) as [r3 σ3].
    pose proof (loadSlice_env_complete SessionData σ3 H3) as H4.
    by destruct (loadSlice SessionData σ3) as [r4 σ4].
  - unfold importUserData. destruct (JSON_parse jsonData) as [data|]; [|done].
    destruct (is_nullish data); [done|]. simpl.
    by do 4 apply import_slice_complete.
  - done.
  - unfold initializeSession, loadSessionData, saveSessionData.
    pose proof (loadSlice_env_complete SessionData σ Hc) as H1.
    destruct (loadSlice SessionData σ) as [r1 σ1]. simpl in H1.
    destruct (plus _ 1) as [visitCount|]; [|done].
    match goal with
    | |- context [saveSlice SessionData ?d σ1] =>
        pose proof (saveSlice_complete SessionData d σ1 H1) as H2;
        destruct (saveSlice SessionData d σ1) as [ok σ2]
    end.
    done.
  - unfold useScrollTracking.chapterChanged, loadSessionData, saveSessionData.
    pose proof (loadSlice_env_complete SessionData σ Hc) as H1.
    destruct (loadSlice SessionData σ) as [r1 σ1]. simpl in H1.
    destruct (get_field _ _) as [| | | |str|l|]; try done.
    + by destruct (string_includes _ _).
    + destruct (array_includes _ _); [done|].
      pose proof (modify_field_complete r1 "chaptersRead" (push (VNum i)) σ1 H1)
        as H2.
      destruct (modify_field r1 _ _ σ1) as [r2 σ2]. simpl in H2.
      pose proof (saveSlice_complete SessionData r2 σ2 H2) as H3.
      by destruct (saveSlice SessionData r2 σ2) as [ok σ3].
  - by eapply same_env_complete; [apply advance_env|].
Qed.

Lemma boot_complete loaded random stored :
  defaults_complete (boot loaded random stored).
Proof.
  intros s f Hf. destruct s; simpl in *;
    rewrite !elem_of_cons elem_of_nil in Hf;
    repeat (destruct Hf as [->|Hf]; [done|]); done.
Qed.

(** X27. A load never fails and always answers an object of the declared
    shape: whatever the local storage held when the page was loaded, and
    whatever the page has done since, each of the four loads answers an
    object that has every property its interface declares (what the
    properties hold is another matter). *)
Theorem load_answers_complete_object (actions : list action) (loaded : Z)
    (random : string) (stored : gmap string text) (s : slice) :
  let σ := foldl (fun σ a => perform a σ) (boot loaded random stored) actions in
  exists ps,
    deref (defaults σ) (loadSlice s σ).1 = VObj ps
    /\ forall f, f ∈ fields s -> has_prop f ps = true.
Proof.
  intros σ. apply loadSlice_complete.
  assert (defaults_complete σ) as Hc; [|apply Hc].
  unfold σ. generalize (boot_complete loaded random stored).
  generalize (boot loaded random stored).
  induction actions as [|a actions IH]; intros σ0 Hc; simpl; [done|].
  by apply IH, perform_complete.
Qed.

(** ** Scroll tracking writes later, not at once *)

Lemma assign_localStorage r f x σ :
  localStorage (assign r f x σ).2 = localStorage σ
  /\ trace (assign r f x σ).2 = trace σ.
Proof. by destruct r. Qed.

Lemma modify_field_localStorage r f g σ :
  localStorage (modify_field r f g σ).2 = localStorage σ
  /\ trace (modify_field r f g σ).2 = trace σ.
Proof. destruct r as [s|v bs]; simpl; [done|]. by destruct (owner f bs). Qed.

Lemma debouncedSave_trace key d delay σ :
  trace (debouncedSave key d delay σ) = trace σ.
Proof. unfold debouncedSave. by destruct (debounceTimers σ !! key). Qed.

Lemma loadSlice_trace s σ : trace (loadSlice s σ).2 = trace σ.
Proof.
  rewrite loadSlice_unfold. cbn [snd].
  by destruct (loadFromStorage_defaults (STORAGE_KEYS s) (Global s) σ)
    as (_ & _ & -> & _).
Qed.

(** X28. [updateScrollPosition] itself never writes to the local storage,
    in any state: what it changes is in memory. When it returns normally, a
    single write of the reading state is pending, due one second later. *)
Theorem scroll_tracking_writes_later (σ : machine)
    (chapterIndex scrollPosition : num) :
  let r := updateScrollPosition chapterIndex scrollPosition σ in
  localStorage r.2 = localStorage σ /\ trace r.2 = trace σ
  /\ (timers_wf σ -> r.1 = Normal () ->
      exists t0,
        t0 ∈ timeouts r.2 /\ tkey t0 = STORAGE_KEYS ReadingState
        /\ due t0 = clock σ + 1000
        /\ forall t, t ∈ timeouts r.2 -> tkey t = STORAGE_KEYS ReadingState ->
             t = t0).
Proof.
  unfold updateScrollPosition, loadReadingState.
  destruct (loadSlice_frame ReadingState σ) as [HL1 _].
  pose proof (loadSlice_trace ReadingState σ) as HT1.
  pose proof (loadSlice_timers ReadingState σ) as HS1.
  destruct (loadSlice ReadingState σ) as [r1 σ1]. cbn [snd] in HL1, HT1, HS1.
  destruct (assign_localStorage r1 "scrollPosition" (VNum scrollPosition) σ1)
    as [HL2 HT2].
  pose proof (assign_timers r1 "scrollPosition" (VNum scrollPosition) σ1) as HS2.
  destruct (assign r1 _ _ σ1) as [r2 σ2]. cbn [snd] in HL2, HT2, HS2.
  destruct (assign_localStorage r2 "lastReadTime" (VStr (toISOString (clock σ))) σ2)
    as [HL3 HT3].
  pose proof (assign_timers r2 "lastReadTime" (VStr (toISOString (clock σ))) σ2)
    as HS3.
  destruct (assign r2 _ _ σ2) as [r3 σ3]. cbn [snd] in HL3, HT3, HS3.
  destruct (negb _).
  { cbn [fst snd]. split; [congruence|]. split; [congruence|]. by intros _ [=]. }
  match goal with
  | |- context [modify_field r3 ?f ?g σ3] =>
      destruct (modify_field_localStorage r3 f g σ3) as [HL4 HT4];
      pose proof (modify_field_timers r3 f g σ3) as HS4;
      destruct (modify_field r3 f g σ3) as [r4 σ4]
  end.
  cbn [fst snd] in *.
  destruct (debouncedSave_defaults (STORAGE_KEYS ReadingState) r4 1000 σ4)
    as [_ HL5].
  rewrite HL5 debouncedSave_trace.
  split; [congruence|]. split; [congruence|]. intros Hwf _.
  assert (same_timers σ σ4) as HS by eauto using same_timers_trans.
  pose proof (same_timers_wf σ σ4 HS Hwf) as Hwf4.
  destruct (debouncedSave_spec (STORAGE_KEYS ReadingState) r4 1000 σ4 Hwf4)
    as (Hwf5 & Hts & _).
  exists (new_timeout (STORAGE_KEYS ReadingState) r4 1000 σ4).
  split; [apply Hts; by left|]. split; [done|]. split.
  - destruct HS as (_ & _ & _ & Hclk & _). simpl. lia.
  - intros t [->|[_ Hne]]%Hts Hkey; [done|]. by destruct Hne.
Qed.

Lemma scroll_tracking_writes_later_witness :
  let σ := reading_chapter6 0 in
  let r := updateScrollPosition (Fin 6) (Fin 120) σ in
  localStorage r.2 = localStorage σ
  /\ exists t0, t0 ∈ timeouts r.2 /\ due t0 = 1000.
Proof.
  intros σ r.
  destruct (scroll_tracking_writes_later σ (Fin 6) (Fin 120))
    as (Hsto & _ & Hpending).
  split; [exact Hsto|].
  destruct (Hpending (boot_wf _ _ _) eq_refl) as (t0 & Hin & _ & Hdue & _).
  exists t0. split; [exact Hin | exact Hdue].
Defined.

(** ** When a save succeeds *)

(** X29. A save of a slice answers [true] exactly when the candidate passes
    the validator of the slice and the storage accepts the write. The key
    then holds the candidate as the JSON codec renders it, wrapped with the
    version and the current instant; when the answer is [false] the key
    holds what it held before. In both cases no other slice is touched. *)
Theorem save_succeeds_iff (s : slice) (d : ref) (σ : machine) :
  let ok := validator s (deref (defaults σ) d) && negb (quotaExceeded σ) in
  (saveSlice s d σ).1 = ok
  /\ localStorage (saveSlice s d σ).2 !! STORAGE_KEYS s
     = (if ok
        then Some (Json (envelope (to_json (deref (defaults σ) d)) (clock σ)))
        else localStorage σ !! STORAGE_KEYS s)
  /\ forall s', s' <> s ->
       localStorage (saveSlice s d σ).2 !! STORAGE_KEYS s'
       = localStorage σ !! STORAGE_KEYS s'.
Proof.
  intros ok. split; [|split].
  - unfold ok, saveSlice, validateStorageData.
    destruct (validator s _); [|done]. cbn [negb andb].
    rewrite saveToStorage_unfold. by destruct (quotaExceeded σ).
  - unfold ok. destruct (validator s (deref (defaults σ) d)) eqn:Hvalid.
    + destruct (quotaExceeded σ) eqn:HQ; cbn [negb andb].
      * by rewrite saveSlice_refused.
      * destruct (saveSlice_valid s d σ Hvalid HQ) as (σ' & -> & Hsto & _).
        cbn [snd]. rewrite Hsto lookup_insert_eq to_json_envelope //.
        by eapply validator_is_object.
    + cbn [andb]. apply saveSlice_lookup; [apply STORAGE_KEYS_not_critical|].
      by right.
  - intros s' Hne. apply saveSlice_lookup; [apply STORAGE_KEYS_not_critical|].
    left. intros Heq. by apply Hne, STORAGE_KEYS_inj.
Qed.

(** ** Navigation and scroll tracking on a fresh storage *)

Lemma clean_Forall ps :
  json_clean (VObj ps) = true <-> Forall (fun kv => json_clean kv.2 = true) ps.
Proof.
  induction ps as [|[k x] ps IH]; simpl; [by split; [constructor|]|].
  rewrite andb_true_iff Forall_cons. simpl in IH. by rewrite IH.
Qed.

Lemma clean_set_prop_Forall k x (ps : list (string * value)) :
  json_clean x = true ->
  Forall (fun kv => json_clean kv.2 = true) ps ->
  Forall (fun kv : string * value => json_clean kv.2 = true) (set_prop k x ps).
Proof.
  intros Hx. induction 1 as [|[k' y] ps Hy Hps IH]; simpl.
  - by repeat constructor.
  - destruct (String.eqb k k'); constructor; done.
Qed.

Lemma clean_spread a b :
  json_clean (VObj a) = true -> json_clean (VObj b) = true ->
  json_clean (VObj (spread a b)) = true.
Proof.
  rewrite !clean_Forall. unfold spread. intros Ha Hb. revert a Ha.
  induction Hb as [|[k x] b Hx _ IH]; intros a Ha; simpl; [done|].
  apply IH. by apply clean_set_prop_Forall.
Qed.

Lemma clean_own_props v : json_clean v = true -> json_clean (VObj (own_props v)) = true.
Proof.
  destruct v as [| |b|n|s|l|ps]; simpl; try done.
  - intros _. apply (clean_Forall (imap _ _)), Forall_forall.
    intros [k x] (i & c & [= -> ->] & _)%elem_of_lookup_imap_1. done.
  - intros Hl. apply (clean_Forall (imap _ _)), Forall_forall.
    intros [k x] (i & y & [= -> ->] & Hy)%elem_of_lookup_imap_1. simpl.
    apply list_elem_of_lookup_2 in Hy.
    eapply forallb_forall in Hl; [exact Hl|]. by apply list_elem_of_In.
Qed.

Lemma clean_progress_entry found z now :
  (truthy found = true -> json_clean found = true) ->
  json_clean (progress_entry found (Fin z) now) = true.
Proof.
  intros Hclean. unfold progress_entry.
  set (cur := if truthy found then found else _).
  assert (json_clean cur = true) as Hcur
    by (unfold cur; destruct (truthy found); [by apply Hclean | done]).
  apply clean_spread; [done|].
  apply clean_Forall, Forall_app. split.
  - by apply clean_Forall, clean_own_props.
  - by repeat constructor.
Qed.

Lemma clean_scrolled ps progress i z now :
  json_clean (VObj ps) = true ->
  lookup_prop "readingProgress" ps = Some (VObj progress) ->
  json_clean (scrolled ps progress i (Fin z) now) = true.
Proof.
  intros Hclean Hprogress.
  pose proof (json_clean_lookup _ _ _ Hclean Hprogress) as Hpclean.
  unfold scrolled. repeat apply json_clean_set_prop; try done.
  apply clean_progress_entry. simpl.
  destruct (lookup_prop (num_key i) progress) as [v|] eqn:E; [|done].
  intros _. by eapply json_clean_lookup.
Qed.

Lemma validateReadingState_scrolled_plain ps progress i z now :
  validateReadingState (VObj ps) = true -> json_clean (VObj ps) = true ->
  lookup_prop "readingProgress" ps = Some (VObj progress) -> 0 <= z ->
  validateReadingState (scrolled ps progress i (Fin z) now) = true.
Proof.
  intros Hvalid Hclean Hprogress Hz.
  rewrite -(to_json_clean _ (clean_scrolled ps progress i z now Hclean Hprogress)).
  by apply validateReadingState_scrolled.
Qed.

Lemma updateScrollPosition_fresh σ progress i p :
  localStorage σ !! STORAGE_KEYS ReadingState = None ->
  validateReadingState (VObj (defaults σ ReadingState)) = true ->
  lookup_prop "readingProgress" (defaults σ ReadingState) = Some (VObj progress) ->
  exists σ4,
    updateScrollPosition i p σ
    = (Normal (), debouncedSave (STORAGE_KEYS ReadingState) (Global ReadingState) 1000 σ4)
    /\ VObj (defaults σ4 ReadingState)
       = scrolled (defaults σ ReadingState) progress i p (clock σ)
    /\ same_timers σ σ4 /\ localStorage σ4 = localStorage σ.
Proof.
  intros Habsent Hvalid Hprogress.
  pose proof (in_use_absent ReadingState σ Habsent) as Hin.
  unfold updateScrollPosition, loadReadingState.
  destruct (loadSlice_valid ReadingState σ)
    as (σ1 & -> & HD & HL & _ & Hts & Hdt & Hnt & Hc & HQ);
    [by rewrite /current Hin|].
  rewrite Hin. cbn [assign]. cbn [deref defaults with_defaults].
  unfold update_default. cbn [slice_eqb get_field].
  rewrite HD. rewrite !lookup_set_prop_ne // Hprogress.
  cbn [default from_option id is_container negb modify_field].
  eexists. split; [reflexivity|].
  cbn [defaults with_defaults]. unfold update_default.
  cbn [slice_eqb get_field].
  rewrite !lookup_set_prop_ne // Hprogress.
  cbn [default from_option id].
  split; [reflexivity|]. split; [|done]. by split_frame.
Qed.

Lemma saveNavigation_fresh σ z :
  quotaExceeded σ = false ->
  localStorage σ !! STORAGE_KEYS ReadingState = None ->
  validateReadingState (VObj (defaults σ ReadingState)) = true -> 0 <= z ->
  defaults (App.saveNavigation (Fin z) σ).2 ReadingState
  = set_prop "lastReadTime" (VStr (toISOString (clock σ)))
      (set_prop "currentChapterIndex" (VNum (Fin z)) (defaults σ ReadingState)).
Proof.
  intros HQ Habsent Hvalid Hz.
  pose proof (in_use_absent ReadingState σ Habsent) as Hin.
  unfold App.saveNavigation, loadReadingState, saveReadingState.
  destruct (loadSlice_valid ReadingState σ)
    as (σ1 & -> & HD & HL & _ & Hts & Hdt & Hnt & Hc & HQ1);
    [by rewrite /current Hin|].
  rewrite Hin. cbn [assign]. cbn [defaults with_defaults].
  unfold update_default. cbn [slice_eqb]. rewrite HD.
  match goal with
  | |- context [saveSlice ReadingState (Global ReadingState) ?s] =>
      destruct (saveSlice_valid ReadingState (Global ReadingState) s)
        as (σ' & Hsave & _ & HD' & _)
  end.
  - cbn [deref defaults with_defaults validator slice_eqb].
    by apply validateReadingState_navigated.
  - simpl. congruence.
  - rewrite Hsave. cbn [snd]. by rewrite HD'.
Qed.

(** X30. On a storage that holds no reading state, a navigation saved while
    a scroll save is pending is kept: both work on the module's default
    object, so the timeout writes the chapter the navigation chose together
    with the scroll position of the tracker. *)
Theorem fresh_install_keeps_navigation
    (σ : machine) (progress : list (string * value))
    (i : num) (zp z at_ until : Z) :
  timers_wf σ -> quotaExceeded σ = false ->
  localStorage σ !! STORAGE_KEYS ReadingState = None ->
  validateReadingState (VObj (defaults σ ReadingState)) = true ->
  json_clean (VObj (defaults σ ReadingState)) = true ->
  lookup_prop "readingProgress" (defaults σ ReadingState) = Some (VObj progress) ->
  0 <= zp -> 0 <= z ->
  clock σ <= at_ < clock σ + 1000 -> clock σ + 1000 <= until ->
  let σ1 := (updateScrollPosition i (Fin zp) σ).2 in
  let σ2 := (App.saveNavigation (Fin z) (advance at_ σ1)).2 in
  let after := current ReadingState (advance until σ2) in
  get_field after "currentChapterIndex" = VNum (Fin z)
  /\ get_field after "scrollPosition" = VNum (Fin zp).
Proof.
  intros Hwf HQ Habsent Hvalid Hclean Hprogress Hzp Hz Hat Huntil σ1 σ2 after.
  destruct (updateScrollPosition_fresh σ progress i (Fin zp))
    as (σ4 & Hupd & HD4 & Hsame4 & HL4); [done..|].
  pose proof Hsame4 as (Hts4 & Hdt4 & Hnt4 & Hc4 & HQ4).
  assert (timers_wf σ4) as Hwf4 by (by eapply same_timers_wf).
  unfold σ1 in *. rewrite Hupd in σ2 after |- *. cbn [snd] in *.
  set (key := STORAGE_KEYS ReadingState) in *.
  set (t0 := new_timeout key (Global ReadingState) 1000 σ4).
  destruct (debouncedSave_spec key (Global ReadingState) 1000 σ4 Hwf4)
    as (Hwf5 & Hts5 & Hclk5 & HL5 & _ & HQ5 & HD5).
  destruct (advance_pending t0 at_ (debouncedSave key (Global ReadingState) 1000 σ4))
    as (Hwf6 & Hin6 & HL6 & _ & Hclk6 & HQ6 & HD6);
    [done | apply Hts5; by left | simpl; lia | lia |].
  set (σ6 := advance at_ (debouncedSave key (Global ReadingState) 1000 σ4)) in *.
  set (sc := scrolled (defaults σ ReadingState) progress i (Fin zp) (clock σ)) in *.
  assert (VObj (defaults σ6 ReadingState) = sc) as HD by (by rewrite HD6 HD5).
  assert (validateReadingState sc = true) as Hvalid6
    by (by apply validateReadingState_scrolled_plain).
  assert (json_clean sc = true) as Hclean6 by (by apply clean_scrolled).
  assert (quotaExceeded σ6 = false) as HQ6' by congruence.
  assert (localStorage σ6 !! key = None) as Habsent6.
  { change (tkey t0) with key in HL6. by rewrite HL6 HL5 HL4. }
  pose proof (saveNavigation_fresh σ6 z HQ6' Habsent6) as Hnav.
  rewrite HD in Hnav. specialize (Hnav Hvalid6 Hz). fold σ2 in Hnav.
  destruct (saveNavigation_timers (Fin z) σ6) as (Hts3 & Hdt3 & Hnt3 & Hclk3 & HQ3).
  fold σ2 in Hts3, Hdt3, Hnt3, Hclk3, HQ3.
  destruct (advance_due t0 until σ2) as (HL & _).
  - eapply same_timers_wf; [|exact Hwf6]. by split_frame.
  - by rewrite Hts3.
  - simpl. lia.
  - rewrite Hclk3 Hclk6. simpl. lia.
  - congruence.
  - cbn [tkey tdata due t0 new_timeout deref] in HL.
    set (navigated := VObj (defaults σ2 ReadingState)) in *.
    assert (json_clean navigated = true) as Hclean2.
    { unfold navigated. rewrite Hnav. repeat apply json_clean_set_prop; try done.
      by rewrite HD. }
    rewrite to_json_envelope // (to_json_clean _ Hclean2) in HL.
    destruct (stored_in_use ReadingState navigated _ _ eq_refl HL) as [_ Hcur].
    unfold after. rewrite Hcur. unfold navigated. rewrite Hnav.
    assert (get_field (VObj (defaults σ6 ReadingState)) "scrollPosition"
            = VNum (Fin zp)) as Hscroll.
    { rewrite HD. unfold sc, scrolled. cbn [get_field].
      by rewrite lookup_set_prop_ne // lookup_set_prop_ne // lookup_set_prop_eq. }
    cbn [get_field] in Hscroll |- *. split.
    + by rewrite lookup_set_prop_ne // lookup_set_prop_eq.
    + by rewrite lookup_set_prop_ne // lookup_set_prop_ne.
Qed.

Lemma fresh_install_keeps_navigation_witness :
  let σ := boot 0 "k3v9x2a1b" ∅ in
  let σ1 := (updateScrollPosition (Fin 0) (Fin 120) σ).2 in
  let σ2 := (App.saveNavigation (Fin 5) (advance 500 σ1)).2 in
  let after := current ReadingState (advance 1000 σ2) in
  get_field after "currentChapterIndex" = VNum (Fin 5)
  /\ get_field after "scrollPosition" = VNum (Fin 120).
Proof.
  intros σ σ1 σ2 after.
  eapply (fresh_install_keeps_navigation σ _ (Fin 0) 120 5 500 1000
            (boot_wf _ _ _)); [reflexivity..| | | |]; simpl; lia.
Defined.
